(** * dpdk-mpls-forwarder: header codec, frame transform, forwarding loop
      and core-list parser

    A shallow embedding of [src/mpls.h], [src/fwd_engine.c], the core-list
    parser and the command line of [src/cmdlargs.c] and the start-up code
    of [src/start.c], followed by the properties of the specification that
    were checked against it and by further properties of the code.

    Conventions.  C integers are values of [Z]; the width of every
    operation is written out ([u16], [u32], [to_int]).  Memory is a list of
    bytes indexed from the start of the buffer.  A packet buffer is a value
    that carries its bytes; [Store] keeps buffers behind pointers, where
    two of them can name the same bytes.  A [char const *] walking a
    NUL-terminated string is the list of characters that remain in front of
    the pointer. *)

From Stdlib Require Import ZArith Lia Bool Ascii String.
From stdpp Require Import base list sorting.

Open Scope Z_scope.

(* ===================================================================== *)
(** * Part I: the embedding                                              *)
(* ===================================================================== *)

(** ** Fixed-width integers *)

Module Cint.

Definition u16 (x : Z) : Z := x mod 2 ^ 16.
Definition u32 (x : Z) : Z := x mod 2 ^ 32.

(** [~x] on a 32-bit operand. *)
Definition not32 (x : Z) : Z := u32 (Z.lnot x).

(** [x << n] on a 32-bit operand. *)
Definition shl32 (x n : Z) : Z := u32 (Z.shiftl x n).

Definition INT_MAX : Z := 2147483647.
Definition UINT_MAX : Z := 4294967295.
Definition LONG_MAX : Z := 9223372036854775807.
Definition LONG_MIN : Z := -9223372036854775808.

(** Conversion of an integer to [int] (two's complement, as every compiler
    DPDK supports does it). *)
Definition to_int (x : Z) : Z := (x + 2 ^ 31) mod 2 ^ 32 - 2 ^ 31.

(** Conversion of an [int] to [unsigned int]. *)
Definition to_unsigned (x : Z) : Z := x mod 2 ^ 32.

Definition is_u32 (x : Z) : Prop := 0 <= x < 2 ^ 32.

End Cint.
Import Cint.

(** ** [src/mpls.h]: the 32-bit shim header *)

Module Mpls.

(** [typedef uint32_t mpls_header_t] *)
Definition mpls_header_t : Type := Z.

Definition MPLS_HDR_LEN : Z := 4.

Definition MPLS_HDR_LABEL_SHIFT : Z := 12.
Definition MPLS_HDR_LABEL_MASK : Z := 0x000fffff.
Definition MPLS_HDR_LABEL_BITS : Z := shl32 MPLS_HDR_LABEL_MASK MPLS_HDR_LABEL_SHIFT.

Definition MPLS_HDR_TC_SHIFT : Z := 9.
Definition MPLS_HDR_TC_MASK : Z := 0x07.
Definition MPLS_HDR_TC_BITS : Z := shl32 MPLS_HDR_TC_MASK MPLS_HDR_TC_SHIFT.

Definition MPLS_HDR_EOS_SHIFT : Z := 8.
Definition MPLS_HDR_EOS_MASK : Z := 0x01.
Definition MPLS_HDR_EOS_BIT : Z := shl32 MPLS_HDR_EOS_MASK MPLS_HDR_EOS_SHIFT.

Definition MPLS_HDR_TTL_SHIFT : Z := 0.
Definition MPLS_HDR_TTL_MASK : Z := 0xff.
Definition MPLS_HDR_TTL_BITS : Z := shl32 MPLS_HDR_TTL_MASK MPLS_HDR_TTL_SHIFT.

Definition mpls_get_label (mheader : mpls_header_t) : Z :=
  Z.shiftr mheader MPLS_HDR_LABEL_SHIFT.

Definition mpls_get_tc (mheader : mpls_header_t) : Z :=
  Z.land (Z.shiftr mheader MPLS_HDR_TC_SHIFT) MPLS_HDR_TC_MASK.

Definition mpls_get_eos (mheader : mpls_header_t) : Z :=
  Z.land (Z.shiftr mheader MPLS_HDR_EOS_SHIFT) MPLS_HDR_EOS_MASK.

Definition mpls_get_ttl (mheader : mpls_header_t) : Z :=
  Z.land (Z.shiftr mheader MPLS_HDR_TTL_SHIFT) MPLS_HDR_TTL_MASK.

(** The setters take [mpls_header_t *] and overwrite the pointee; here they
    return the new value of the pointee. *)
Definition mpls_set_label (mheader : mpls_header_t) (value : Z) : mpls_header_t :=
  Z.lor (Z.land mheader (not32 MPLS_HDR_LABEL_BITS))
        (shl32 (Z.land value MPLS_HDR_LABEL_MASK) MPLS_HDR_LABEL_SHIFT).

Definition mpls_set_tc (mheader : mpls_header_t) (tc : Z) : mpls_header_t :=
  Z.lor (Z.land mheader (not32 MPLS_HDR_TC_BITS))
        (shl32 (Z.land tc MPLS_HDR_TC_MASK) MPLS_HDR_TC_SHIFT).

Definition mpls_set_eos (mheader : mpls_header_t) (eos : Z) : mpls_header_t :=
  Z.lor (Z.land mheader (not32 MPLS_HDR_EOS_BIT))
        (shl32 (Z.land eos MPLS_HDR_EOS_MASK) MPLS_HDR_EOS_SHIFT).

Definition mpls_set_ttl (mheader : mpls_header_t) (ttl : Z) : mpls_header_t :=
  Z.lor (Z.land mheader (not32 MPLS_HDR_TTL_BITS))
        (shl32 (Z.land ttl MPLS_HDR_TTL_MASK) MPLS_HDR_TTL_SHIFT).

(** The four fields of the header, for statements that range over them. *)
Inductive field : Type := Label | Tc | Eos | Ttl.

Definition field_width (f : field) : Z :=
  match f with Label => 20 | Tc => 3 | Eos => 1 | Ttl => 8 end.

Definition field_shift (f : field) : Z :=
  match f with
  | Label => MPLS_HDR_LABEL_SHIFT | Tc => MPLS_HDR_TC_SHIFT
  | Eos => MPLS_HDR_EOS_SHIFT | Ttl => MPLS_HDR_TTL_SHIFT
  end.

Definition field_mask (f : field) : Z :=
  match f with
  | Label => MPLS_HDR_LABEL_MASK | Tc => MPLS_HDR_TC_MASK
  | Eos => MPLS_HDR_EOS_MASK | Ttl => MPLS_HDR_TTL_MASK
  end.

Definition mpls_get (f : field) : mpls_header_t -> Z :=
  match f with
  | Label => mpls_get_label | Tc => mpls_get_tc
  | Eos => mpls_get_eos | Ttl => mpls_get_ttl
  end.

Definition mpls_set (f : field) : mpls_header_t -> Z -> mpls_header_t :=
  match f with
  | Label => mpls_set_label | Tc => mpls_set_tc
  | Eos => mpls_set_eos | Ttl => mpls_set_ttl
  end.

End Mpls.
Import Mpls.

(** ** The packet buffer of the packet-I/O runtime *)

Module Dpdk.

(** The buffer abstraction of section 6 of the specification (data length,
    headroom, reference count, [prepend], [trim_front]) is DPDK's
    [struct rte_mbuf].  DPDK is not under [src/]; the definitions of this
    module follow its public headers [rte_mbuf_core.h], [rte_mbuf.h],
    [rte_ether.h] and [rte_byteorder.h]. *)

(** Modelled from the spec: the sizes of the link layer, from [rte_ether.h]
    (not under [src/]): the header is 14 bytes, the smallest frame 64. *)
Definition RTE_ETHER_HDR_LEN : Z := 14.
Definition RTE_ETHER_MIN_LEN : Z := 64.
Definition RTE_ETHER_TYPE_IPV4 : Z := 0x0800.
Definition RTE_ETHER_TYPE_IPV6 : Z := 0x86DD.
Definition RTE_ETHER_TYPE_MPLS : Z := 0x8847.

(** Modelled from the spec: the two flags of [ol_flags] that mark a buffer
    whose data belongs to someone else, from [rte_mbuf_core.h] (not under
    [src/]). *)
Definition RTE_MBUF_F_INDIRECT : Z := 2 ^ 62.
Definition RTE_MBUF_F_EXTERNAL : Z := 2 ^ 61.

Definition EINVAL : Z := 22.
Definition ENOSPC : Z := 28.

(** Offset of [ether_type] in [struct rte_ether_hdr] (two 6-byte addresses
    come first). *)
Definition ETHER_TYPE_OFFSET : Z := 12.

(** Byte order of the host. *)
Inductive byte_order : Type := LittleEndian | BigEndian.

Definition bswap16 (x : Z) : Z :=
  Z.lor (Z.shiftl (Z.land x 0xff) 8) (Z.land (Z.shiftr x 8) 0xff).

Definition bswap32 (x : Z) : Z :=
  Z.lor (Z.lor (Z.shiftl (Z.land x 0xff) 24)
               (Z.shiftl (Z.land (Z.shiftr x 8) 0xff) 16))
        (Z.lor (Z.shiftl (Z.land (Z.shiftr x 16) 0xff) 8)
               (Z.land (Z.shiftr x 24) 0xff)).

(** Modelled from the spec: conversion to network byte order, from
    [rte_byteorder.h] (not under [src/]): a byte swap on a little-endian
    host, nothing on a big-endian one. *)
Definition rte_cpu_to_be_16 (bo : byte_order) (x : Z) : Z :=
  match bo with LittleEndian => bswap16 x | BigEndian => x end.

Definition rte_cpu_to_be_32 (bo : byte_order) (x : Z) : Z :=
  match bo with LittleEndian => bswap32 x | BigEndian => x end.

(** Memory of one buffer: the bytes from [buf_addr] on.  An access outside
    the buffer is undefined in C; here a read outside yields 0 and a write
    outside is dropped. *)
Abbreviation mem := (list Z).

Definition load8 (b : mem) (a : Z) : Z :=
  if a <? 0 then 0 else default 0 (b !! Z.to_nat a).

Definition load_bytes (b : mem) (a n : Z) : list Z :=
  if a <? 0 then [] else take (Z.to_nat n) (drop (Z.to_nat a) b).

Definition store_bytes (b : mem) (a : Z) (bs : list Z) : mem :=
  if a <? 0 then b else list_inserts (Z.to_nat a) bs b.

Definition memmove (b : mem) (dst src n : Z) : mem :=
  store_bytes b dst (load_bytes b src n).

(** A [uint16_t] and a [uint32_t] object in memory, in the byte order of
    the host. *)
Definition load16 (bo : byte_order) (b : mem) (a : Z) : Z :=
  match bo with
  | LittleEndian => load8 b a + 2 ^ 8 * load8 b (a + 1)
  | BigEndian => 2 ^ 8 * load8 b a + load8 b (a + 1)
  end.

Definition bytes16 (bo : byte_order) (v : Z) : list Z :=
  match bo with
  | LittleEndian => [Z.land v 0xff; Z.land (Z.shiftr v 8) 0xff]
  | BigEndian => [Z.land (Z.shiftr v 8) 0xff; Z.land v 0xff]
  end.

Definition bytes32 (bo : byte_order) (v : Z) : list Z :=
  match bo with
  | LittleEndian =>
      [Z.land v 0xff; Z.land (Z.shiftr v 8) 0xff;
       Z.land (Z.shiftr v 16) 0xff; Z.land (Z.shiftr v 24) 0xff]
  | BigEndian =>
      [Z.land (Z.shiftr v 24) 0xff; Z.land (Z.shiftr v 16) 0xff;
       Z.land (Z.shiftr v 8) 0xff; Z.land v 0xff]
  end.

Definition store16 (bo : byte_order) (b : mem) (a v : Z) : mem :=
  store_bytes b a (bytes16 bo v).

(** Network byte order: the most significant byte first. *)
Definition be16_bytes (v : Z) : list Z :=
  [Z.land (Z.shiftr v 8) 0xff; Z.land v 0xff].

Definition be32_bytes (v : Z) : list Z :=
  [Z.land (Z.shiftr v 24) 0xff; Z.land (Z.shiftr v 16) 0xff;
   Z.land (Z.shiftr v 8) 0xff; Z.land v 0xff].

Definition be32_value (bs : list Z) : Z :=
  foldl (fun acc b => 2 ^ 8 * acc + b) 0 bs.

Definition store32 (bo : byte_order) (b : mem) (a v : Z) : mem :=
  store_bytes b a (bytes32 bo v).

(** Modelled from the spec: the packet buffer of section 3, DPDK's
    [struct rte_mbuf] (not under [src/]), with the fields that the
    forwarder reads or that [rte_pktmbuf_prepend] and [rte_pktmbuf_adj]
    write.  [buf] holds the
    [buf_len] bytes at [buf_addr]; [next_lens] holds the [data_len] of the
    segments chained behind this one. *)
Record rte_mbuf : Type := {
  buf : mem;
  data_off : Z;
  refcnt : Z;
  nb_segs : Z;
  ol_flags : Z;
  pkt_len : Z;
  data_len : Z;
  next_lens : list Z
}.

Definition buf_len (m : rte_mbuf) : Z := Z.of_nat (length (buf m)).

Definition set_buf (m : rte_mbuf) (b : mem) : rte_mbuf :=
  {| buf := b; data_off := data_off m; refcnt := refcnt m; nb_segs := nb_segs m;
     ol_flags := ol_flags m; pkt_len := pkt_len m; data_len := data_len m;
     next_lens := next_lens m |}.

Definition sum_lens (l : list Z) : Z := foldr Z.add 0 l.

(** The invariant the runtime keeps on every buffer it hands out: the data
    lies inside the buffer, the 16-bit fields fit 16 bits, and [pkt_len] is
    the sum of the data lengths of all [nb_segs] segments. *)
Definition mbuf_ok (m : rte_mbuf) : bool :=
  (0 <=? data_off m) && (0 <=? data_len m)
  && (data_off m + data_len m <=? buf_len m) && (buf_len m <? 2 ^ 16)
  && (1 <=? refcnt m) && (refcnt m <? 2 ^ 16)
  && (0 <=? ol_flags m) && (ol_flags m <? 2 ^ 64)
  && (nb_segs m =? 1 + Z.of_nat (length (next_lens m))) && (nb_segs m <? 2 ^ 16)
  && forallb (fun l => (0 <=? l) && (l <? 2 ^ 16)) (next_lens m)
  && (pkt_len m =? data_len m + sum_lens (next_lens m)).

(** Modelled from the spec: the macro [RTE_MBUF_DIRECT] of
    [rte_mbuf_core.h] (not under [src/]): the buffer holds its own data, it
    is neither an indirect view of another buffer nor attached to external
    memory.  The number of segments plays no part in it. *)
Definition RTE_MBUF_DIRECT (mb : rte_mbuf) : bool :=
  Z.land (ol_flags mb) (Z.lor RTE_MBUF_F_INDIRECT RTE_MBUF_F_EXTERNAL) =? 0.

Definition rte_mbuf_refcnt_read (m : rte_mbuf) : Z := refcnt m.

Definition rte_pktmbuf_data_len (m : rte_mbuf) : Z := data_len m.

Definition rte_pktmbuf_headroom (m : rte_mbuf) : Z := data_off m.

(** [rte_pktmbuf_mtod]: the address of the first byte of data, as an offset
    into [buf]. *)
Definition rte_pktmbuf_mtod (m : rte_mbuf) : Z := data_off m.

(** Modelled from the spec: [prepend] of section 6, DPDK's
    [rte_pktmbuf_prepend] (not under [src/]).  [None] is the NULL result;
    otherwise the buffer after the call, whose [rte_pktmbuf_mtod] is the
    pointer returned. *)
Definition rte_pktmbuf_prepend (m : rte_mbuf) (len : Z) : option rte_mbuf :=
  if len >? rte_pktmbuf_headroom m then None
  else Some {| buf := buf m;
               data_off := u16 (data_off m - len);
               refcnt := refcnt m; nb_segs := nb_segs m; ol_flags := ol_flags m;
               pkt_len := u32 (pkt_len m + len);
               data_len := u16 (data_len m + len);
               next_lens := next_lens m |}.

(** Modelled from the spec: [trim_front] of section 6, DPDK's
    [rte_pktmbuf_adj] (not under [src/]): remove [len] bytes at the
    beginning of the data. *)
Definition rte_pktmbuf_adj (m : rte_mbuf) (len : Z) : option rte_mbuf :=
  if len >? data_len m then None
  else Some {| buf := buf m;
               data_off := u16 (data_off m + len);
               refcnt := refcnt m; nb_segs := nb_segs m; ol_flags := ol_flags m;
               pkt_len := u32 (pkt_len m - len);
               data_len := u16 (data_len m - len);
               next_lens := next_lens m |}.

End Dpdk.
Import Dpdk.

(** ** [src/fwd_engine.h] and [src/fwd_engine.c] *)

Module FwdEngine.

Definition MAX_PKT_BURST : Z := 32.

Record streaming_port : Type := {
  id : Z;
  rx_queue_id : Z;
  tx_queue_id : Z
}.

Record fwd_stream : Type := {
  input_port : streaming_port;
  output_port : streaming_port;
  mpls_label : Z;
  mpls_ttl : Z;
  print : Z
}.

Definition QUIT_TRUE : Z := 1.
Definition QUIT_FALSE : Z := 0.

(** [fwd_engine_stop] assigns [QUIT_TRUE] to the flag [lets_quit]; the
    function returns the new value of the flag. *)
Definition fwd_engine_stop (lets_quit : Z) : Z := QUIT_TRUE.

(** Lines written to [stderr]. *)
Inductive diagnostic : Type :=
| Insufficient_buffer_size (datalen pktlen buflen refcnt segments : Z)
| Unable_to_add_header (n : Z) (errnum : Z)
| Unable_to_remove_header (n n_pkts : Z).

Section Transform.

Variable bo : byte_order.

(** [eth->ether_type] for a header at [eth]. *)
Definition ether_type_at (b : mem) (eth : Z) : Z :=
  load16 bo b (eth + ETHER_TYPE_OFFSET).

(** The ethertype field of the frame in a buffer. *)
Definition ether_type_field (m : rte_mbuf) : Z :=
  ether_type_at (buf m) (rte_pktmbuf_mtod m).

(** [mpls_header_strip]: the [int] returned and the buffer afterwards. *)
Definition mpls_header_strip (pktmb : rte_mbuf) (ethertype : Z) : Z * rte_mbuf :=
  let eth := rte_pktmbuf_mtod pktmb in
  if negb (ether_type_at (buf pktmb) eth =? rte_cpu_to_be_16 bo RTE_ETHER_TYPE_MPLS)
  then (0, pktmb)
  else
    match rte_pktmbuf_adj pktmb MPLS_HDR_LEN with
    | None => (- ENOSPC, pktmb)
    | Some m1 =>
        let eth := rte_pktmbuf_mtod m1 in
        let b1 := memmove (buf m1) eth (eth - MPLS_HDR_LEN) RTE_ETHER_HDR_LEN in
        let b2 := store16 bo b1 (eth + ETHER_TYPE_OFFSET)
                    (rte_cpu_to_be_16 bo ethertype) in
        (0, set_buf m1 b2)
    end.

Definition IPVERSION_SHIFT : Z := 4.
Definition IPVERSION_MASK : Z := 0xf0.
Definition IP4_VERSION : Z := 0x40.
Definition IP6_VERSION : Z := 0x60.

Definition mpls_deduce_ethertype (pmb : rte_mbuf) : Z :=
  let e := rte_pktmbuf_mtod pmb in
  let p := e + RTE_ETHER_HDR_LEN in
  let p :=
    if ether_type_at (buf pmb) e =? rte_cpu_to_be_16 bo RTE_ETHER_TYPE_MPLS
    then p + MPLS_HDR_LEN else p in
  let v := Z.land (load8 (buf pmb) p) IPVERSION_MASK in
  if v =? IP4_VERSION then RTE_ETHER_TYPE_IPV4
  else if v =? IP6_VERSION then RTE_ETHER_TYPE_IPV6
  else 0.

(** One step of the loop of [mpls_remove_hdr_burst], on [pkts[n]]. *)
Definition mpls_remove_hdr_one (n n_pkts : Z) (m : rte_mbuf) : rte_mbuf * list diagnostic :=
  let etype := mpls_deduce_ethertype m in
  if etype =? 0 then (m, [])
  else
    let '(r, m') := mpls_header_strip m etype in
    (m', if r <? 0 then [Unable_to_remove_header n n_pkts] else []).

(** [mpls_remove_hdr_burst] on [pkts[n ..]], the loop counter being [n]. *)
Fixpoint mpls_remove_hdr_burst_from (n n_pkts : Z) (pkts : list rte_mbuf)
  : list rte_mbuf * list diagnostic :=
  match pkts with
  | [] => ([], [])
  | m :: rest =>
      let '(m', d) := mpls_remove_hdr_one n n_pkts m in
      let '(rest', ds) := mpls_remove_hdr_burst_from (n + 1) n_pkts rest in
      (m' :: rest', d ++ ds)
  end.

Definition mpls_remove_hdr_burst (pkts : list rte_mbuf) : list rte_mbuf * list diagnostic :=
  mpls_remove_hdr_burst_from 0 (Z.of_nat (length pkts)) pkts.

(** The decapsulation path on one buffer: deduce the ethertype, then strip. *)
Definition decapsulate (m : rte_mbuf) : rte_mbuf :=
  fst (mpls_remove_hdr_one 0 1 m).

(** The test that opens [mpls_header_insert], negated: the buffer is direct
    and nobody else holds a reference to it. *)
Definition exclusively_owned (m : rte_mbuf) : bool :=
  RTE_MBUF_DIRECT m && (rte_mbuf_refcnt_read m <=? 1).

(** The byte right behind the link-layer header: the first byte of the
    payload of the frame. *)
Definition first_payload_byte (m : rte_mbuf) : Z :=
  load8 (buf m) (rte_pktmbuf_mtod m + RTE_ETHER_HDR_LEN).

(** [mpls_header_insert]: the [int] returned, the buffer afterwards and
    what was written to [stderr]. *)
Definition mpls_header_insert (pktmb : rte_mbuf) (mpls_hdr : mpls_header_t)
  : Z * rte_mbuf * list diagnostic :=
  if negb (RTE_MBUF_DIRECT pktmb) || (rte_mbuf_refcnt_read pktmb >? 1)
  then (- EINVAL, pktmb, [])
  else if rte_pktmbuf_data_len pktmb <? RTE_ETHER_MIN_LEN
  then (- ENOSPC, pktmb,
        [Insufficient_buffer_size (data_len pktmb) (pkt_len pktmb) (buf_len pktmb)
           (refcnt pktmb) (nb_segs pktmb)])
  else
    match rte_pktmbuf_prepend pktmb MPLS_HDR_LEN with
    | None => (- ENOSPC, pktmb, [])
    | Some m1 =>
        let new := rte_pktmbuf_mtod m1 in
        let b1 := memmove (buf m1) new (new + MPLS_HDR_LEN) RTE_ETHER_HDR_LEN in
        let b2 := store16 bo b1 (new + ETHER_TYPE_OFFSET)
                    (rte_cpu_to_be_16 bo RTE_ETHER_TYPE_MPLS) in
        let mpls := new + RTE_ETHER_HDR_LEN in
        let b3 := store32 bo b2 mpls (rte_cpu_to_be_32 bo mpls_hdr) in
        (0, set_buf m1 b3, [])
    end.

(** One step of the loop of [mpls_add_hdr_burst], on [pkts[n]]. *)
Definition mpls_add_hdr_one (n : Z) (header : mpls_header_t) (m : rte_mbuf)
  : rte_mbuf * list diagnostic :=
  let '(r, m', d) := mpls_header_insert m header in
  (m', d ++ (if r <? 0 then [Unable_to_add_header n (- r)] else [])).

(** [mpls_add_hdr_burst] on [pkts[n ..]], the loop counter being [n]. *)
Fixpoint mpls_add_hdr_burst_from (n : Z) (pkts : list rte_mbuf) (header : mpls_header_t)
  : list rte_mbuf * list diagnostic :=
  match pkts with
  | [] => ([], [])
  | m :: rest =>
      let '(m', d) := mpls_add_hdr_one n header m in
      let '(rest', ds) := mpls_add_hdr_burst_from (n + 1) rest header in
      (m' :: rest', d ++ ds)
  end.

Definition mpls_add_hdr_burst (pkts : list rte_mbuf) (header : mpls_header_t)
  : list rte_mbuf * list diagnostic :=
  mpls_add_hdr_burst_from 0 pkts header.

End Transform.

(** The header built at the start of [fwd_worker_loop]. *)
Definition stream_mpls_hdr (s : fwd_stream) : mpls_header_t :=
  let mpls_hdr := 0 in
  let mpls_hdr := mpls_set_label mpls_hdr (mpls_label s) in
  let mpls_hdr := mpls_set_eos mpls_hdr 1 in
  let mpls_hdr := mpls_set_ttl mpls_hdr (mpls_ttl s) in
  mpls_hdr.

(** Modelled from the spec: the collaborators of section 6 ([receive_batch],
    [transmit_batch], the stop query), which are not under [src/], as the
    surroundings of one worker.  Time is counted in the actions the
    worker has performed since it entered its loop (the events below); the
    surroundings fix what the worker finds at each instant: the value of
    the volatile flag [lets_quit], the packets a receive queue delivers and
    how many packets a transmit queue accepts. *)
Record world : Type := {
  lets_quit_at : nat -> Z;
  rx_burst_at : nat -> Z -> Z -> list rte_mbuf;
  tx_burst_at : nat -> Z -> Z -> list rte_mbuf -> Z
}.

(** The flag over time when it starts as [QUIT_FALSE], [fwd_engine_stop] is
    called at instant [T] and nothing else writes it. *)
Definition lets_quit_stopped_at (T : nat) (t : nat) : Z :=
  if (t <? T)%nat then QUIT_FALSE else fwd_engine_stop QUIT_FALSE.

(** What the worker does, in order. *)
Inductive event : Type :=
| Read_lets_quit (v : Z)
| Rx_burst (port queue : Z) (pkts : list rte_mbuf)
| Stderr (d : diagnostic)
| Tx_burst (port queue : Z) (pkts : list rte_mbuf) (num_tx : Z)
| Pktmbuf_free (m : rte_mbuf).

(** Modelled from the spec: [receive_batch] of section 6, DPDK's
    [rte_eth_rx_burst (port, queue, pkts, MAX_PKT_BURST)] (not under
    [src/]): at most [MAX_PKT_BURST] packets. *)
Definition rte_eth_rx_burst (w : world) (t : nat) (port queue : Z) : list rte_mbuf :=
  take (Z.to_nat MAX_PKT_BURST) (rx_burst_at w t port queue).

(** Modelled from the spec: [transmit_batch] of section 6, DPDK's
    [rte_eth_tx_burst (port, queue, pkts, nb_pkts)] (not under [src/]): the
    number of packets accepted, at most [nb_pkts]. *)
Definition rte_eth_tx_burst (w : world) (t : nat) (port queue : Z)
    (pkts : list rte_mbuf) (nb_pkts : Z) : Z :=
  Z.max 0 (Z.min (tx_burst_at w t port queue pkts) nb_pkts).

Section Worker.

Variable bo : byte_order.
Variable w : world.
Variable s : fwd_stream.

(** The first half of the loop body (comment [Adding label]), entered at
    instant [t]. *)
Definition adding_label (mpls_hdr : mpls_header_t) (t : nat) : list event :=
  let pkts := rte_eth_rx_burst w t (id (input_port s)) (rx_queue_id (input_port s)) in
  let num_rx := Z.of_nat (length pkts) in
  Rx_burst (id (input_port s)) (rx_queue_id (input_port s)) pkts ::
  (if negb (num_rx =? 0) then
     let '(pkts', ds) := mpls_add_hdr_burst bo pkts mpls_hdr in
     let num_tx :=
       rte_eth_tx_burst w (t + 1 + length ds) (id (output_port s))
         (tx_queue_id (output_port s)) pkts' num_rx in
     map Stderr ds
     ++ Tx_burst (id (output_port s)) (tx_queue_id (output_port s)) pkts' num_tx
        :: map Pktmbuf_free (drop (Z.to_nat num_tx) pkts')
   else []).

(** The second half of the loop body (comment [Label removal]). *)
Definition label_removal (t : nat) : list event :=
  let pkts := rte_eth_rx_burst w t (id (output_port s)) (rx_queue_id (output_port s)) in
  let num_rx := Z.of_nat (length pkts) in
  Rx_burst (id (output_port s)) (rx_queue_id (output_port s)) pkts ::
  (if negb (num_rx =? 0) then
     let '(pkts', ds) := mpls_remove_hdr_burst bo pkts in
     let num_tx :=
       rte_eth_tx_burst w (t + 1 + length ds) (id (input_port s))
         (tx_queue_id (input_port s)) pkts' num_rx in
     map Stderr ds
     ++ Tx_burst (id (input_port s)) (tx_queue_id (input_port s)) pkts' num_tx
        :: map Pktmbuf_free (drop (Z.to_nat num_tx) pkts')
   else []).

(** The [while] loop of [fwd_worker_loop], entered at instant [t]; [fuel]
    bounds the number of iterations and [None] means that it ran out. *)
Fixpoint fwd_worker_while (fuel : nat) (mpls_hdr : mpls_header_t) (t : nat)
  : option (list event) :=
  match fuel with
  | O => None
  | S fuel' =>
      let q0 := lets_quit_at w t in
      if negb (q0 =? QUIT_FALSE) then Some [Read_lets_quit q0]
      else
        let ev1 := adding_label mpls_hdr (t + 1) in
        let t1 := (t + 1 + length ev1)%nat in
        let q1 := lets_quit_at w t1 in
        if q1 =? QUIT_TRUE then Some (Read_lets_quit q0 :: ev1 ++ [Read_lets_quit q1])
        else
          let ev2 := label_removal (t1 + 1) in
          let t2 := (t1 + 1 + length ev2)%nat in
          match fwd_worker_while fuel' mpls_hdr t2 with
          | Some rest => Some (Read_lets_quit q0 :: ev1 ++ Read_lets_quit q1 :: ev2 ++ rest)
          | None => None
          end
  end.

Definition fwd_worker_loop (fuel : nat) : option (list event) :=
  fwd_worker_while fuel (stream_mpls_hdr s) 0.

End Worker.

(** The shape of what the worker does between two reads of the flag: a
    receive that delivered nothing, or a receive, the diagnostics of the
    transform, the transmit of as many buffers as were received and the
    release of those the transmit did not take. *)
Inductive whole_phase : list event -> Prop :=
| phase_idle port queue : whole_phase [Rx_burst port queue []]
| phase_batch port queue pkts ds port' queue' pkts' num_tx :
    pkts <> [] ->
    length pkts' = length pkts ->
    0 <= num_tx <= Z.of_nat (length pkts) ->
    whole_phase
      (Rx_burst port queue pkts
       :: map Stderr ds
       ++ Tx_burst port' queue' pkts' num_tx
          :: map Pktmbuf_free (drop (Z.to_nat num_tx) pkts')).

(** The shape of a finished run of the loop. *)
Inductive whole_run : list event -> Prop :=
| run_exit_at_loop_condition v :
    v <> QUIT_FALSE -> whole_run [Read_lets_quit v]
| run_exit_between_phases ph :
    whole_phase ph ->
    whole_run (Read_lets_quit QUIT_FALSE :: ph ++ [Read_lets_quit QUIT_TRUE])
| run_iteration ph1 v ph2 rest :
    whole_phase ph1 -> v <> QUIT_TRUE -> whole_phase ph2 -> whole_run rest ->
    whole_run (Read_lets_quit QUIT_FALSE :: ph1 ++ Read_lets_quit v :: ph2 ++ rest).

Definition is_rx_burst (e : event) : bool :=
  match e with Rx_burst _ _ _ => true | _ => false end.

(** The number of phases that begin at instant [T] or later, in a trace
    whose first event happens at instant [t]. *)
Fixpoint phases_begun_since (T t : nat) (tr : list event) : nat :=
  match tr with
  | [] => 0
  | e :: tr' =>
      ((if is_rx_burst e && (T <=? t)%nat then 1 else 0)
       + phases_begun_since T (S t) tr')%nat
  end.






End FwdEngine.
Import FwdEngine.

(** ** [src/fwd_engine.c] on buffers in memory *)

Module Store.

(** The functions of [FwdEngine] take a buffer as a value that carries its
    own bytes, which describes a batch whose buffers share nothing.  In C
    a batch is an array of pointers to [struct rte_mbuf] objects, and an
    object holds the address of its data: two entries of the array may
    point to one object, and two objects may name the same data (a clone
    made by [rte_pktmbuf_clone] names the data of the buffer it was made
    from).  Here the objects and the data buffers are kept in a store and
    a batch is a list of addresses of objects.  Data buffers do not
    overlap: two objects share bytes exactly when they name the same data
    buffer. *)

(** Modelled from the spec: DPDK's [struct rte_mbuf] (not under [src/]) as
    an object in memory: the fields of [rte_mbuf], with the address
    [buf_addr] of the data in place of the bytes. *)
Record mbuf_obj : Type := {
  buf_addr : nat;
  obj_data_off : Z;
  obj_refcnt : Z;
  obj_nb_segs : Z;
  obj_ol_flags : Z;
  obj_pkt_len : Z;
  obj_data_len : Z;
  obj_next_lens : list Z
}.

(** The objects by their address and the data buffers by theirs. *)
Record store : Type := {
  objs : list mbuf_obj;
  bufs : list mem
}.

Definition with_data (o : mbuf_obj) (b : mem) : rte_mbuf :=
  {| buf := b; data_off := obj_data_off o; refcnt := obj_refcnt o;
     nb_segs := obj_nb_segs o; ol_flags := obj_ol_flags o; pkt_len := obj_pkt_len o;
     data_len := obj_data_len o; next_lens := obj_next_lens o |}.

Definition without_data (a : nat) (m : rte_mbuf) : mbuf_obj :=
  {| buf_addr := a; obj_data_off := data_off m; obj_refcnt := refcnt m;
     obj_nb_segs := nb_segs m; obj_ol_flags := ol_flags m; obj_pkt_len := pkt_len m;
     obj_data_len := data_len m; obj_next_lens := next_lens m |}.

(** The address of the data of the object at [p]. *)
Definition data_of (st : store) (p : nat) : option nat :=
  match objs st !! p with
  | Some o => Some (buf_addr o)
  | None => None
  end.

(** What a pointer to a buffer gives access to: the fields of the object
    and the bytes of its data.  [None]: [p] is not the address of an
    object, or the object names no data buffer. *)
Definition deref (st : store) (p : nat) : option rte_mbuf :=
  match objs st !! p with
  | Some o =>
      match bufs st !! buf_addr o with
      | Some b => Some (with_data o b)
      | None => None
      end
  | None => None
  end.

(** The store after the fields and the bytes of [m] have been written
    through the pointer [p]; [buf_addr] is never written. *)
Definition assign (st : store) (p : nat) (m : rte_mbuf) : store :=
  match objs st !! p with
  | Some o =>
      {| objs := <[p := without_data (buf_addr o) m]> (objs st);
         bufs := <[buf_addr o := buf m]> (bufs st) |}
  | None => st
  end.

Section InPlace.

Variable bo : byte_order.

(** [mpls_deduce_ethertype] reads through [pmb]; [mpls_header_strip] reads
    and writes the object at [pktmb] and the data of that object, nothing
    else.  [None] stands for the undefined behaviour of a pointer that
    does not refer to a buffer. *)
Definition mpls_deduce_ethertype (st : store) (pmb : nat) : option Z :=
  match deref st pmb with
  | Some m => Some (FwdEngine.mpls_deduce_ethertype bo m)
  | None => None
  end.

Definition mpls_header_strip (st : store) (pktmb : nat) (ethertype : Z)
  : option (Z * store) :=
  match deref st pktmb with
  | Some m =>
      let '(r, m') := FwdEngine.mpls_header_strip bo m ethertype in
      Some (r, assign st pktmb m')
  | None => None
  end.

(** [mpls_remove_hdr_burst] on [pkts[n ..]], the loop counter being [n]:
    the store afterwards and what was written to [stderr]. *)
Fixpoint mpls_remove_hdr_burst_from (n n_pkts : Z) (st : store) (pkts : list nat)
  : option (store * list diagnostic) :=
  match pkts with
  | [] => Some (st, [])
  | p :: rest =>
      match mpls_deduce_ethertype st p with
      | None => None
      | Some etype =>
          if etype =? 0 then mpls_remove_hdr_burst_from (n + 1) n_pkts st rest
          else
            match mpls_header_strip st p etype with
            | None => None
            | Some (r, st') =>
                match mpls_remove_hdr_burst_from (n + 1) n_pkts st' rest with
                | None => None
                | Some (st'', ds) =>
                    Some (st'',
                          (if r <? 0 then [Unable_to_remove_header n n_pkts] else []) ++ ds)
                end
            end
      end
  end.

Definition mpls_remove_hdr_burst (st : store) (pkts : list nat)
  : option (store * list diagnostic) :=
  mpls_remove_hdr_burst_from 0 (Z.of_nat (length pkts)) st pkts.

End InPlace.

End Store.


(** ** [src/cmdlargs.c]: the core-list parser *)

Module Cmdlargs.

(** A [char const *] into a NUL-terminated string is the list of the
    characters in front of it; at the end of the list stands the NUL. *)
Definition NUL : ascii := "000"%char.

Definition code (c : ascii) : Z := Z.of_N (N_of_ascii c).

(** [*p] and [p + 1]. *)
Definition peek (p : list ascii) : ascii :=
  match p with [] => NUL | c :: _ => c end.

Definition advance (p : list ascii) : list ascii :=
  match p with [] => [] | _ :: r => r end.

(** [p == q] for two pointers into the same string. *)
Definition same_pointer (p q : list ascii) : bool :=
  (length p =? length q)%nat.

(** Modelled from the spec: the blanks of the grammar of section 4.4 are
    recognised by the C library ([isblank], in the C locale), which is not
    under [src/]: space and horizontal tab. *)
Definition isblank (c : ascii) : bool :=
  (code c =? 32) || (code c =? 9).

Definition isspace (c : ascii) : bool :=
  (code c =? 32) || ((9 <=? code c) && (code c <=? 13)).

Definition isdigit (c : ascii) : bool :=
  (48 <=? code c) && (code c <=? 57).

Fixpoint skip_space (p : list ascii) : list ascii :=
  match p with
  | c :: r => if isspace c then skip_space r else p
  | [] => p
  end.

(** The digits in front of [p], accumulated onto [acc], and the pointer
    behind them. *)
Fixpoint strtol_digits (acc : Z) (p : list ascii) : Z * list ascii :=
  match p with
  | c :: r => if isdigit c then strtol_digits (10 * acc + (code c - 48)) r else (acc, p)
  | [] => (acc, p)
  end.

(** The conversion proper, once white space and sign are behind: [p] is
    where the digits are expected, [neg] tells whether a minus sign was
    read.  Without a digit nothing is converted: the value is 0 and [end]
    is [nptr].  A value outside [long] is clamped and [errno] is set. *)
Definition strtol_number (neg : bool) (p nptr : list ascii) : Z * list ascii * bool :=
  if isdigit (peek p) then
    let '(acc, rest) := strtol_digits 0 p in
    let v := if neg then - acc else acc in
    if v >? LONG_MAX then (LONG_MAX, rest, true)
    else if v <? LONG_MIN then (LONG_MIN, rest, true)
    else (v, rest, false)
  else (0, nptr, false).

(** Modelled from the spec: the numbers of the grammar of section 4.4 are
    read by the C library's [strtol (nptr, &end, 10)], which is not under
    [src/]; the definition follows the C standard, with the 64-bit [long]
    of the platforms DPDK runs on.  The result is the value, [end], and
    whether [errno] was set (to [ERANGE]). *)
Definition strtol (nptr : list ascii) : Z * list ascii * bool :=
  match skip_space nptr with
  | "-"%char :: r => strtol_number true r nptr
  | "+"%char :: r => strtol_number false r nptr
  | p => strtol_number false p nptr
  end.

(** The loop that skips blanks: [while (isblank (p[0])) p++;]. *)
Fixpoint skip_blank (p : list ascii) : list ascii :=
  match p with
  | c :: r => if isblank c then skip_blank r else p
  | [] => p
  end.

(** [array[x]] and [array[x] = v]; every index [put_in_order] uses lies
    inside the array when [curr_n_elem <= array_len]. *)
Definition aget (array : list Z) (x : Z) : Z := default 0 (array !! Z.to_nat x).

Definition aset (array : list Z) (x v : Z) : list Z := <[Z.to_nat x := v]> array.

(** The first loop of [put_in_order], from index [x] on: the index at which
    it stops, and whether it left through [goto __done].  It runs at most
    [curr_n_elem - x] times, which is what [fuel] is given. *)
Fixpoint put_scan (fuel : nat) (val curr_n_elem : Z) (array : list Z) (x : Z) : Z * bool :=
  match fuel with
  | O => (x, false)
  | S fuel' =>
      if x <? curr_n_elem then
        if aget array x >? val then (x, false)
        else if aget array x =? val then (x, true)
        else put_scan fuel' val curr_n_elem array (u32 (x + 1))
      else (x, false)
  end.

(** The second loop of [put_in_order]: move the elements from [x] on one
    place up, [tmp] being the element that was at [x - 1]. *)
Fixpoint put_shift (fuel : nat) (curr_n_elem : Z) (array : list Z) (x tmp : Z) : list Z :=
  match fuel with
  | O => array
  | S fuel' =>
      if x <? curr_n_elem then
        let val := aget array x in
        put_shift fuel' curr_n_elem (aset array x tmp) (u32 (x + 1)) val
      else array
  end.

(** [put_in_order]: the [int] returned and the array afterwards. *)
Definition put_in_order (val curr_n_elem : Z) (array : list Z) (array_len : Z)
  : Z * list Z :=
  let '(x, done) := put_scan (Z.to_nat curr_n_elem) val curr_n_elem array 0 in
  if done then (to_int curr_n_elem, array)
  else
    let curr_n_elem := u32 (curr_n_elem + 1) in
    if curr_n_elem >? array_len then (-1, array)
    else
      let tmp := aget array x in
      let array := aset array x val in
      let x := u32 (x + 1) in
      (to_int curr_n_elem, put_shift (Z.to_nat curr_n_elem) curr_n_elem array x tmp).

(** How the loop [for (; min <= max; min++)] of [parse_core_list] ends: it
    runs to its end, or [put_in_order] reports a full array, or [min++]
    overflows [int], which C leaves undefined. *)
Inductive range_result : Type :=
| Range_done (count : Z) (cores : list Z)
| Range_full (cores : list Z)
| Range_overflow.

(** The loop runs at most [max - min + 1] times, which is what [fuel] is
    given. *)
Fixpoint insert_range (fuel : nat) (min max count : Z) (cores : list Z) (cores_len : Z)
  : range_result :=
  match fuel with
  | O => Range_done count cores
  | S fuel' =>
      if min <=? max then
        let '(r, cores) := put_in_order (to_unsigned min) count cores cores_len in
        let count := to_unsigned r in
        if count =? to_unsigned (-1) then Range_full cores
        else if min =? INT_MAX then Range_overflow
        else insert_range fuel' (min + 1) max count cores cores_len
      else Range_done count cores
  end.

(** What a call of [parse_core_list] amounts to: the count it returns and
    the array it leaves, or undefined behaviour. *)
Inductive parse_result : Type :=
| Returns (count : Z) (cores : list Z)
| Undefined_behaviour.

(** The [do ... while] loop of [parse_core_list]; [fuel] bounds the number
    of iterations and [None] means that it ran out. *)
Fixpoint parse_loop (fuel : nat) (list_ : list ascii) (cores : list Z)
    (cores_len count min : Z) : option parse_result :=
  match fuel with
  | O => None
  | S fuel' =>
      let list_ := skip_blank list_ in
      if Ascii.eqb (peek list_) NUL then Some (Returns count cores)
      else
        let '(lval, end_, erange) := strtol list_ in
        let val := to_int lval in
        if erange || (val <? 0) then Some (Returns 0 cores)
        else if (val =? 0) && same_pointer list_ end_ then Some (Returns 0 cores)
        else
          let end_ := skip_blank end_ in
          if Ascii.eqb (peek end_) ","%char || Ascii.eqb (peek end_) NUL then
            let max := val in
            let min := if min =? INT_MAX then val else min in
            match insert_range (Z.to_nat (max - min + 1)) min max count cores cores_len with
            | Range_full cores => Some (Returns 0 cores)
            | Range_overflow => Some Undefined_behaviour
            | Range_done count cores =>
                if Ascii.eqb (peek end_) NUL then Some (Returns count cores)
                else parse_loop fuel' (advance end_) cores cores_len count INT_MAX
            end
          else if Ascii.eqb (peek end_) "-"%char && (min =? INT_MAX) then
            parse_loop fuel' (advance end_) cores cores_len count val
          else Some (Returns 0 cores)
  end.

(** [parse_core_list (list, cores, cores_len)] for two pointers that are
    not NULL; each iteration moves [list] (here [list_]) forward, so one more iteration
    than the string has characters is enough. *)
Definition parse_core_list (list_ : string) (cores : list Z) (cores_len : Z)
  : option parse_result :=
  if cores_len =? 0 then Some (Returns 0 cores)
  else
    parse_loop (S (String.length list_)) (list_ascii_of_string list_)
      cores cores_len 0 INT_MAX.

(** *** Well-formed input, as section 4.4 describes it *)

Inductive digit : Type := D0 | D1 | D2 | D3 | D4 | D5 | D6 | D7 | D8 | D9.

Definition digit_value (d : digit) : Z :=
  match d with
  | D0 => 0 | D1 => 1 | D2 => 2 | D3 => 3 | D4 => 4
  | D5 => 5 | D6 => 6 | D7 => 7 | D8 => 8 | D9 => 9
  end.

Definition digit_char (d : digit) : ascii :=
  match d with
  | D0 => "0" | D1 => "1" | D2 => "2" | D3 => "3" | D4 => "4"
  | D5 => "5" | D6 => "6" | D7 => "7" | D8 => "8" | D9 => "9"
  end%char.

Inductive blank : Type := Space | Tab.

Definition blank_char (b : blank) : ascii :=
  match b with Space => " "%char | Tab => "009"%char end.

(** A non-negative integer as written: one digit or more, with blanks
    around it. *)
Record number : Type := {
  blanks_before : list blank;
  first_digit : digit;
  more_digits : list digit;
  blanks_after : list blank
}.

Definition digits_value (acc : Z) (ds : list digit) : Z :=
  foldl (fun a d => 10 * a + digit_value d) acc ds.

Definition number_value (n : number) : Z :=
  digits_value 0 (first_digit n :: more_digits n).

Definition render_number (n : number) : list ascii :=
  map blank_char (blanks_before n)
  ++ map digit_char (first_digit n :: more_digits n)
  ++ map blank_char (blanks_after n).

(** A token: one integer, or a range [low-high]. *)
Inductive token : Type :=
| Single (n : number)
| Range (low high : number).

Definition render_token (t : token) : list ascii :=
  match t with
  | Single n => render_number n
  | Range low high => render_number low ++ "-"%char :: render_number high
  end.

(** Tokens separated by commas. *)
Fixpoint render (ts : list token) : list ascii :=
  match ts with
  | [] => []
  | [t] => render_token t
  | t :: ts' => render_token t ++ ","%char :: render ts'
  end.

(** The integers a token denotes: every integer of [[low, high]] for a
    range. *)
Definition token_values (t : token) : list Z :=
  match t with
  | Single n => [number_value n]
  | Range low high =>
      seqZ (number_value low) (number_value high - number_value low + 1)
  end.

Definition token_numbers (t : token) : list Z :=
  match t with
  | Single n => [number_value n]
  | Range low high => [number_value low; number_value high]
  end.

Fixpoint denoted (ts : list token) : list Z :=
  match ts with
  | [] => []
  | t :: ts' => token_values t ++ denoted ts'
  end.

(** Insertion into an ascending sequence without duplicates, as the comment
    on [put_in_order] describes it. *)
Fixpoint insert_ascending (v : Z) (l : list Z) : list Z :=
  match l with
  | [] => [v]
  | a :: r =>
      if a >? v then v :: l
      else if a =? v then l
      else a :: insert_ascending v r
  end.

(** A number written without blanks around it. *)
Definition plain (d : digit) (ds : list digit) : number :=
  {| blanks_before := []; first_digit := d; more_digits := ds; blanks_after := [] |}.

(** What may follow a number: the end of the string, a comma or a hyphen. *)
Definition at_separator (p : list ascii) : bool :=
  match p with
  | [] => true
  | c :: _ => Ascii.eqb c ","%char || Ascii.eqb c "-"%char
  end.

(** Where [insert_ascending] stops in [l]: the elements it passes, those it
    leaves in place, and whether it stopped on [v] itself. *)
Fixpoint scan_prefix (v : Z) (l : list Z) : list Z * list Z * bool :=
  match l with
  | [] => ([], [], false)
  | a :: r =>
      if a >? v then ([], l, false)
      else if a =? v then ([], l, true)
      else let '(A, B, f) := scan_prefix v r in (a :: A, B, f)
  end.

(** The sequence obtained by inserting the given values one after the
    other. *)
Definition insert_all (l : list Z) (vs : list Z) : list Z :=
  foldl (fun acc v => insert_ascending v acc) l vs.

(** Whether [x] is one of the integers a token denotes. *)
Definition token_denotes (t : token) (x : Z) : Prop :=
  match t with
  | Single n => x = number_value n
  | Range low high => number_value low <= x <= number_value high
  end.

(** Every number written in the input is below [INT_MAX]. *)
Definition numbers_below_int_max (ts : list token) : bool :=
  forallb (fun t => forallb (fun v => v <? INT_MAX) (token_numbers t)) ts.

(** The number of distinct integers the input denotes. *)
Definition distinct_values (ts : list token) : Z :=
  Z.of_nat (length (remove_dups (denoted ts))).

(** The array during a parse: it has [N] places and the first [count] of
    them hold a strictly ascending sequence. *)
Definition ascending_prefix (N : nat) (count : Z) (cores : list Z) : Prop :=
  length cores = N /\ 0 <= count <= Z.of_nat N
  /\ StronglySorted Z.lt (take (Z.to_nat count) cores).

End Cmdlargs.
Import Cmdlargs.

(** ** [src/cmdlargs.h] and the options of [src/cmdlargs.c] *)

Module Cmdline.

Definition MPLS_DEFAULT_LABEL : Z := 16.
Definition MPLS_DEFAULT_TTL : Z := 64.

(** [struct cmdline_config]; the list [cores] holds the [CORES_MAX_NUM]
    places of the array of that name, a number the DPDK build fixes. *)
Record cmdline_config : Type := {
  mpls_label : Z;
  mpls_ttl : Z;
  mpls_in_port : Z;
  print : Z;
  cores : list Z;
  num_cores : Z
}.

Definition set_mpls_label (conf : cmdline_config) (v : Z) : cmdline_config :=
  {| mpls_label := v; mpls_ttl := mpls_ttl conf; mpls_in_port := mpls_in_port conf;
     print := print conf; cores := cores conf; num_cores := num_cores conf |}.

Definition set_mpls_ttl (conf : cmdline_config) (v : Z) : cmdline_config :=
  {| mpls_label := mpls_label conf; mpls_ttl := v; mpls_in_port := mpls_in_port conf;
     print := print conf; cores := cores conf; num_cores := num_cores conf |}.

Definition set_mpls_in_port (conf : cmdline_config) (v : Z) : cmdline_config :=
  {| mpls_label := mpls_label conf; mpls_ttl := mpls_ttl conf; mpls_in_port := v;
     print := print conf; cores := cores conf; num_cores := num_cores conf |}.

Definition set_print (conf : cmdline_config) (v : Z) : cmdline_config :=
  {| mpls_label := mpls_label conf; mpls_ttl := mpls_ttl conf;
     mpls_in_port := mpls_in_port conf;
     print := v; cores := cores conf; num_cores := num_cores conf |}.

Definition set_cores (conf : cmdline_config) (c : list Z) (n : Z) : cmdline_config :=
  {| mpls_label := mpls_label conf; mpls_ttl := mpls_ttl conf;
     mpls_in_port := mpls_in_port conf;
     print := print conf; cores := c; num_cores := n |}.

(** *** [print_app_args] *)

(** [print_app_args (argv)]: the [int] returned and how many times [usage]
    was called.  [argv] is the array up to its terminating NULL; [strcmp]
    returns 0 exactly on equal strings.  The loop from [p] on, [flag]
    being the local variable of that name. *)
Fixpoint print_app_args_from (p : list string) (flag : Z) : Z * nat :=
  match p with
  | [] => (0, 0%nat)
  | a :: p' =>
      if String.eqb a "--help" || String.eqb a "-h"
      then (if negb (flag =? 0) then 1 else 0, 1%nat)
      else print_app_args_from p' (if String.eqb a "--" then 1 else flag)
  end.

Definition print_app_args (argv : list string) : Z * nat :=
  print_app_args_from argv 0.

(** Whether an argument asks for the help text. *)
Definition is_help (a : string) : bool :=
  String.eqb a "--help" || String.eqb a "-h".

(** *** [do_args_parse] *)

Definition LARG_MPLS_LABEL : Z := 128.
Definition LARG_MPLS_TTL : Z := 129.
Definition LARG_MPLS_ON_DEV : Z := 130.
Definition LARG_GABBY : Z := 131.
Definition LARG_NUM_CORES : Z := 132.

Definition EXIT_SUCCESS : Z := 0.
Definition EXIT_FAILURE : Z := 1.
Definition ERANGE : Z := 34.

(** Modelled from the spec: the longest device name, from DPDK's
    [rte_dev.h] (not under [src/]). *)
Definition RTE_DEV_NAME_MAX_LEN : Z := 64.

Definition DEV_NAME_MAX_LEN : Z := RTE_DEV_NAME_MAX_LEN.

(** Lines written to [stderr] before [exit_app]. *)
Inductive error_line : Type :=
| Strtol_failed (optarg : string)
| Invalid_arg (optarg name : string)
| Invalid_device_name_length (optarg : string)
| Port_not_found (optarg : string) (errnum : Z)
| Unknown_option
| Missing_option
| Unrecognized_code (opt : Z).

(** How [do_args_parse] ends: it returns with the configuration filled in,
    or it calls [exit_app], which does not return, after [usage] or a line
    on [stderr]; or the core list ran into undefined behaviour. *)
Inductive args_result : Type :=
| Args_parsed (conf : cmdline_config)
| Args_exit (exit_code : Z) (usage_shown : bool) (err : option error_line)
| Args_undefined.

(** The conversion shared by the cases [LARG_MPLS_LABEL] and
    [LARG_MPLS_TTL]: [strtol], the test of [errno], then the test of
    [endptr] and of the bits of [val] outside [mask].  [val] is a [long] and
    [~mask] an [int] converted to [long], so the conjunction is that of the
    two mathematical integers. *)
Definition strtol_masked (mask : Z) (name optarg : string) : Z + error_line :=
  let nptr := list_ascii_of_string optarg in
  let '(val, endptr, erange) := strtol nptr in
  let errno := if erange then ERANGE else 0 in
  if (errno =? ERANGE) || (negb (errno =? 0) && (val =? 0))
  then inr (Strtol_failed optarg)
  else if same_pointer endptr nptr || negb (Ascii.eqb (peek endptr) NUL)
          || negb (Z.land val (Z.lnot mask) =? 0)
  then inr (Invalid_arg optarg name)
  else inl (u32 val).

Section DoArgsParse.

(** Modelled from the spec: the lookup of a port by its device name is
    DPDK's [rte_eth_dev_get_port_by_name (name, &port_id)] (not under
    [src/]); given the name and the port id held so far, it yields the
    [int] returned and the port id afterwards. *)
Variable rte_eth_dev_get_port_by_name : string -> Z -> Z * Z.

(** The body of the [switch] for one option that [getopt_long] returned:
    [opt] is the value returned and [optarg] the argument of the option. *)
Definition do_args_parse_case (opt : Z) (optarg : string) (conf : cmdline_config)
  : args_result :=
  if opt =? LARG_MPLS_LABEL then
    match strtol_masked MPLS_HDR_LABEL_MASK "mpls-label" optarg with
    | inr e => Args_exit EXIT_FAILURE false (Some e)
    | inl v => Args_parsed (set_mpls_label conf v)
    end
  else if opt =? LARG_MPLS_TTL then
    match strtol_masked MPLS_HDR_TTL_MASK "mpls-ttl" optarg with
    | inr e => Args_exit EXIT_FAILURE false (Some e)
    | inl v => Args_parsed (set_mpls_ttl conf v)
    end
  else if opt =? LARG_MPLS_ON_DEV then
    let strlen := Z.of_nat (String.length optarg) in
    if (strlen =? 0) || (strlen + 1 >? DEV_NAME_MAX_LEN)
    then Args_exit EXIT_FAILURE false (Some (Invalid_device_name_length optarg))
    else
      let '(r, port) := rte_eth_dev_get_port_by_name optarg (mpls_in_port conf) in
      if r <? 0 then Args_exit EXIT_FAILURE false (Some (Port_not_found optarg (- r)))
      else Args_parsed (set_mpls_in_port conf port)
  else if opt =? LARG_NUM_CORES then
    match parse_core_list optarg (cores conf) (Z.of_nat (length (cores conf))) with
    | Some (Returns n cores') =>
        if n =? 0
        then Args_exit EXIT_FAILURE false (Some (Invalid_arg optarg "core-list"))
        else Args_parsed (set_cores conf cores' n)
    | Some Undefined_behaviour => Args_undefined
    | None => Args_undefined
    end
  else if opt =? LARG_GABBY then Args_parsed (set_print conf 1)
  else if opt =? code "h"%char then Args_exit EXIT_SUCCESS true None
  else if opt =? code "?"%char then Args_exit EXIT_FAILURE true (Some Unknown_option)
  else if opt =? code ":"%char then Args_exit EXIT_FAILURE true (Some Missing_option)
  else Args_exit EXIT_FAILURE false (Some (Unrecognized_code opt)).

(** Modelled from the spec: the options are recognised by the C library's
    [getopt_long], which is not under [src/]; [opts] lists what its
    successive calls return, the value and [optarg], up to the -1 that ends
    the loop.  The variables [opterr] and [optind] of the library, which
    the function saves and resets, are left out. *)
Fixpoint do_args_parse (opts : list (Z * string)) (conf : cmdline_config) : args_result :=
  match opts with
  | [] => Args_parsed conf
  | (opt, optarg) :: opts' =>
      match do_args_parse_case opt optarg conf with
      | Args_parsed conf' => do_args_parse opts' conf'
      | r => r
      end
  end.

End DoArgsParse.

(** A configuration the forwarder can use as it is: the label fits its 20
    bits and the TTL its 8, and the cores chosen stand in strictly ascending
    order at the front of the array. *)
Definition config_valid (conf : cmdline_config) : Prop :=
  0 <= mpls_label conf <= MPLS_HDR_LABEL_MASK
  /\ 0 <= mpls_ttl conf <= MPLS_HDR_TTL_MASK
  /\ 0 <= num_cores conf <= Z.of_nat (length (cores conf))
  /\ StronglySorted Z.lt (take (Z.to_nat (num_cores conf)) (cores conf)).

End Cmdline.

(** ** [src/common.h] and [src/start.c] *)

Module Start.

(** [(portid_t)(~((portid_t)0))] and [(queueid_t)(~((queueid_t)0))]. *)
Definition PORTID_MAX : Z := u16 (Z.lnot (u16 0)).
Definition QUEUEID_MAX : Z := u16 (Z.lnot (u16 0)).

Definition MBUF_DATA_LEN : Z := 2048.
Definition MBUF_IN_MEMPOOL : Z := 8191.
Definition MEMPOOL_CACHE_SIZE : Z := 128.
Definition NUM_RX_QUEUE_DESC : Z := 1024.
Definition NUM_TX_QUEUE_DESC : Z := 1024.
Definition QUEUE_INITIAL_IDX : Z := 0.
Definition NUM_SUPPORTED_PORTS : Z := 2.

Inductive port_role : Type := PORT_INGRESS | PORT_EGRESS | PORT_UNUSED.

(** [struct port_params], without the queue configurations and the MAC
    address, which only DPDK reads. *)
Record port_params : Type := {
  id : Z;
  role : port_role;
  n_rx_queue_desc : Z;
  n_tx_queue_desc : Z
}.

(** The initial value of [g_app_config]; [cores_max_num] is
    [CORES_MAX_NUM], which the DPDK build fixes. *)
Definition g_app_config (cores_max_num : nat) : Cmdline.cmdline_config :=
  {| Cmdline.mpls_label := Cmdline.MPLS_DEFAULT_LABEL;
     Cmdline.mpls_ttl := Cmdline.MPLS_DEFAULT_TTL;
     Cmdline.mpls_in_port := PORTID_MAX;
     Cmdline.print := 0;
     Cmdline.cores := replicate cores_max_num 0;
     Cmdline.num_cores := 0 |}.

(** Lines written to [stderr]. *)
Inductive error_line : Type :=
| Stream_allocation_failed
| Invalid_argument
| Core_not_enabled (core : Z)
| No_core_available
| Rx_queue_setup_failure (q : Z) (errnum : Z)
| Tx_queue_setup_failure (q : Z) (errnum : Z)
| Socket_id_failure
| Port_already_configured
| Port_invalid (port : Z)
| Port_info_failure (port errnum : Z)
| Port_mac_failure (port errnum : Z)
| Port_configure_failure (port errnum : Z)
| Port_adjust_failure (port errnum : Z).

(** *** [signal_handler] *)

(** Modelled from the spec: the numbers of the two signals, from
    [signal.h] (not under [src/]). *)
Definition SIGINT : Z := 2.
Definition SIGTERM : Z := 15.

(** [signal_handler (signum)]: the value of the flag [lets_quit]
    afterwards. *)
Definition signal_handler (signum : Z) (lets_quit : Z) : Z :=
  if (signum =? SIGINT) || (signum =? SIGTERM) then fwd_engine_stop lets_quit
  else lets_quit.

(** The flag at instant [t] when it starts as [QUIT_FALSE] and the signal
    [signals i], if any, is handled at instant [i]. *)
Fixpoint lets_quit_after (signals : nat -> option Z) (t : nat) : Z :=
  match t with
  | O => QUIT_FALSE
  | S t' =>
      match signals t' with
      | Some signum => signal_handler signum (lets_quit_after signals t')
      | None => lets_quit_after signals t'
      end
  end.

(** Whether a signal is one of the two that [signal_handler] acts on. *)
Definition is_stop_signal (o : option Z) : bool :=
  match o with
  | Some signum => (signum =? SIGINT) || (signum =? SIGTERM)
  | None => false
  end.

(** *** [fwd_stream_alloc] and [fwd_stream_conf] *)

(** Modelled from the spec: the memory of the streams comes from the C
    library's [calloc], which is not under [src/]: NULL, or as many zeroed
    objects as were asked for. *)
Definition calloc_fwd_stream (enomem : bool) (nmemb : Z) : option (list fwd_stream) :=
  if enomem then None
  else
    Some (replicate (Z.to_nat nmemb)
            {| input_port := {| FwdEngine.id := 0; rx_queue_id := 0; tx_queue_id := 0 |};
               output_port := {| FwdEngine.id := 0; rx_queue_id := 0; tx_queue_id := 0 |};
               mpls_label := 0; mpls_ttl := 0; print := 0 |}).

(** The four assignments to [strm[s]] in the loop of [fwd_stream_alloc]. *)
Definition fwd_stream_alloc_body (x : fwd_stream) : fwd_stream :=
  {| input_port := {| FwdEngine.id := PORTID_MAX; rx_queue_id := QUEUEID_MAX;
                      tx_queue_id := tx_queue_id (input_port x) |};
     output_port := {| FwdEngine.id := PORTID_MAX; rx_queue_id := QUEUEID_MAX;
                       tx_queue_id := tx_queue_id (output_port x) |};
     mpls_label := mpls_label x; mpls_ttl := mpls_ttl x; print := print x |}.

(** The loop [for (s = 0; s < n_cores; s++)] from [s] on; it runs at most
    [n_cores] times, which is what [fuel] is given. *)
Fixpoint fwd_stream_alloc_for (fuel : nat) (s n_cores : Z) (strm : list fwd_stream)
  : list fwd_stream :=
  match fuel with
  | O => strm
  | S fuel' =>
      if s <? n_cores
      then fwd_stream_alloc_for fuel' (u32 (s + 1)) n_cores
             (alter fwd_stream_alloc_body (Z.to_nat s) strm)
      else strm
  end.

(** [fwd_stream_alloc (n_cores)]: NULL or the array, and what was written to
    [stderr]. *)
Definition fwd_stream_alloc (enomem : bool) (n_cores : Z)
  : option (list fwd_stream) * list error_line :=
  match calloc_fwd_stream enomem n_cores with
  | None => (None, [Stream_allocation_failed])
  | Some strm => (Some (fwd_stream_alloc_for (Z.to_nat n_cores) 0 n_cores strm), [])
  end.

(** The assignments to [strm[s]] in the loop of [fwd_stream_conf]. *)
Definition fwd_stream_conf_body (g_app_config : Cmdline.cmdline_config)
    (port_in port_out : port_params) (q_id : Z) (x : fwd_stream) : fwd_stream :=
  {| input_port := {| FwdEngine.id := id port_in; rx_queue_id := q_id; tx_queue_id := q_id |};
     output_port := {| FwdEngine.id := id port_out; rx_queue_id := q_id; tx_queue_id := q_id |};
     mpls_label := Cmdline.mpls_label g_app_config;
     mpls_ttl := Cmdline.mpls_ttl g_app_config;
     print := print x |}.

(** The loop [for (s = 0; s < n_stream; s++)] from [s] on; [q_id] is a
    [queueid_t], 16 bits wide. *)
Fixpoint fwd_stream_conf_for (fuel : nat) (g_app_config : Cmdline.cmdline_config)
    (port_in port_out : port_params) (s n_stream q_id : Z) (strm : list fwd_stream)
  : list fwd_stream :=
  match fuel with
  | O => strm
  | S fuel' =>
      if s <? n_stream
      then fwd_stream_conf_for fuel' g_app_config port_in port_out
             (u32 (s + 1)) n_stream (u16 (q_id + 1))
             (alter (fwd_stream_conf_body g_app_config port_in port_out q_id)
                (Z.to_nat s) strm)
      else strm
  end.

(** [fwd_stream_conf (port_in, port_out, strm, n_stream)]: the [int]
    returned, the array afterwards and what was written to [stderr]; a
    NULL pointer is [None]. *)
Definition fwd_stream_conf (g_app_config : Cmdline.cmdline_config)
    (port_in port_out : option port_params) (strm : option (list fwd_stream))
    (n_stream : Z) : Z * option (list fwd_stream) * list error_line :=
  match port_in, port_out, strm with
  | Some p_in, Some p_out, Some st =>
      if n_stream =? 0 then (-1, strm, [Invalid_argument])
      else (0,
            Some (fwd_stream_conf_for (Z.to_nat n_stream) g_app_config p_in p_out
                    0 n_stream QUEUE_INITIAL_IDX st),
            [])
  | _, _, _ => (-1, strm, [Invalid_argument])
  end.

(** *** The choice of the cores in [main] *)

Section Cores.

(** Modelled from the spec: the execution units come from DPDK's
    [rte_get_main_lcore] and [rte_lcore_is_enabled] (not under [src/]). *)
Variable rte_get_main_lcore : Z.
Variable rte_lcore_is_enabled : Z -> Z.

(** The loop [for (n = 0; n < num_cores && n < RTE_DIM (cores); n++)] of
    [main] from [n] on: the array, [valid] and the warnings written. *)
Fixpoint main_valid_cores_for (fuel : nat) (n valid num_cores : Z) (cores : list Z)
  : list Z * Z * list error_line :=
  match fuel with
  | O => (cores, valid, [])
  | S fuel' =>
      if (n <? num_cores) && (n <? Z.of_nat (length cores)) then
        if rte_lcore_is_enabled (aget cores n) =? 0 then
          let '(cores', valid', ws) :=
            main_valid_cores_for fuel' (u32 (n + 1)) valid num_cores cores in
          (cores', valid', Core_not_enabled (aget cores n) :: ws)
        else
          main_valid_cores_for fuel' (u32 (n + 1)) (u32 (valid + 1)) num_cores
            (aset cores valid (aget cores n))
      else (cores, valid, [])
  end.

(** The part of [main] that settles the cores to run on: the
    configuration afterwards, or [None] where [main] leaves through
    [__exit_error], and what was written to [stderr]. *)
Definition main_select_cores (conf : Cmdline.cmdline_config)
  : option Cmdline.cmdline_config * list error_line :=
  if Cmdline.num_cores conf =? 0 then
    (Some (Cmdline.set_cores conf (aset (Cmdline.cores conf) 0 rte_get_main_lcore) 1), [])
  else
    let '(cores', valid, ws) :=
      main_valid_cores_for (Z.to_nat (Cmdline.num_cores conf)) 0 0
        (Cmdline.num_cores conf) (Cmdline.cores conf) in
    if valid =? 0 then (None, ws ++ [No_core_available])
    else (Some (Cmdline.set_cores conf cores' valid), ws).

End Cores.

(** The cores of a list that are enabled and those that are not, in the
    order of the list. *)
Definition enabled_of (en : Z -> Z) (l : list Z) : list Z :=
  List.filter (fun c => negb (en c =? 0)) l.

Definition disabled_of (en : Z -> Z) (l : list Z) : list Z :=
  List.filter (fun c => en c =? 0) l.

(** *** [port_params_init] and the roles of the ports in [main] *)

Definition port_role_eqb (a b : port_role) : bool :=
  match a, b with
  | PORT_INGRESS, PORT_INGRESS | PORT_EGRESS, PORT_EGRESS | PORT_UNUSED, PORT_UNUSED => true
  | _, _ => false
  end.

(** The initial value of an element of [g_ports]. *)
Definition unused_port : port_params :=
  {| id := PORTID_MAX; role := PORT_UNUSED; n_rx_queue_desc := 0; n_tx_queue_desc := 0 |}.

Section Ports.

(** Modelled from the spec: the ports are configured through DPDK's
    [rte_eth_dev_is_valid_port], [rte_eth_dev_info_get],
    [rte_eth_macaddr_get], [rte_eth_dev_configure] (port and the two
    queue counts) and [rte_eth_dev_adjust_nb_rx_tx_desc] (port and the two
    descriptor counts), which are not under [src/]: the [int] each
    returns and, for the last, the descriptor counts it leaves. *)
Variable rte_eth_dev_is_valid_port : Z -> Z.
Variable rte_eth_dev_info_get : Z -> Z.
Variable rte_eth_macaddr_get : Z -> Z.
Variable rte_eth_dev_configure : Z -> Z -> Z -> Z.
Variable rte_eth_dev_adjust_nb_rx_tx_desc : Z -> Z -> Z -> Z * Z * Z.

(** [port_params_init (port, p_id, p_role, n_cores)]: the [int] returned,
    the object [port] points to afterwards and what was written to
    [stderr]. *)
Definition port_params_init (port : port_params) (p_id : Z) (p_role : port_role)
    (n_cores : Z) : Z * port_params * list error_line :=
  if negb (id port =? PORTID_MAX) || negb (port_role_eqb (role port) PORT_UNUSED)
  then (-1, port, [Port_already_configured])
  else
    let port := {| id := p_id; role := p_role;
                   n_rx_queue_desc := n_rx_queue_desc port;
                   n_tx_queue_desc := n_tx_queue_desc port |} in
    if rte_eth_dev_is_valid_port (id port) =? 0
    then (-1, port, [Port_invalid (id port)])
    else
      let r := rte_eth_dev_info_get (id port) in
      if negb (r =? 0) then (-1, port, [Port_info_failure (id port) (- r)])
      else
        let r := rte_eth_macaddr_get (id port) in
        if negb (r =? 0) then (-1, port, [Port_mac_failure (id port) (- r)])
        else
          let r := rte_eth_dev_configure (id port) (u16 n_cores) (u16 n_cores) in
          if r <? 0 then (-1, port, [Port_configure_failure (id port) (- r)])
          else
            let '(r, rx, tx) :=
              rte_eth_dev_adjust_nb_rx_tx_desc (id port) NUM_RX_QUEUE_DESC NUM_TX_QUEUE_DESC in
            let port := {| id := id port; role := role port;
                           n_rx_queue_desc := rx; n_tx_queue_desc := tx |} in
            if r <? 0 then (-1, port, [Port_adjust_failure (id port) (- r)])
            else (0, port, []).

(** The loop [RTE_ETH_FOREACH_DEV (port_id)] of [main] over the port ids
    [devs] that the macro yields, in its order; the pair holds
    [g_ports[PORT_INGRESS]] and [g_ports[PORT_EGRESS]].  [None] is the
    jump to [__exit_error]. *)
Fixpoint main_foreach_dev (devs : list Z) (n_cores : Z) (g_ports : port_params * port_params)
  : option (port_params * port_params) * list error_line :=
  match devs with
  | [] => (Some g_ports, [])
  | port_id :: devs' =>
      if id (fst g_ports) =? port_id then main_foreach_dev devs' n_cores g_ports
      else if id (fst g_ports) =? PORTID_MAX then
        let '(r, port, errs) := port_params_init (fst g_ports) port_id PORT_INGRESS n_cores in
        if negb (r =? 0) then (None, errs)
        else main_foreach_dev devs' n_cores (port, snd g_ports)
      else if id (snd g_ports) =? PORTID_MAX then
        let '(r, port, errs) := port_params_init (snd g_ports) port_id PORT_EGRESS n_cores in
        if negb (r =? 0) then (None, errs)
        else main_foreach_dev devs' n_cores (fst g_ports, port)
      else main_foreach_dev devs' n_cores g_ports
  end.

(** The part of [main] that gives the ports their roles. *)
Definition main_assign_ports (devs : list Z) (mpls_in_port n_cores : Z)
    (g_ports : port_params * port_params)
  : option (port_params * port_params) * list error_line :=
  if negb (mpls_in_port =? PORTID_MAX) then
    let '(r, port, errs) := port_params_init (fst g_ports) mpls_in_port PORT_INGRESS n_cores in
    if negb (r =? 0) then (None, errs)
    else main_foreach_dev devs n_cores (port, snd g_ports)
  else main_foreach_dev devs n_cores g_ports.

End Ports.

(** *** [port_queue_allocate] *)

(** A call of [rte_eth_rx_queue_setup] or [rte_eth_tx_queue_setup], with
    its arguments converted to the types of the parameters. *)
Inductive queue_setup : Type :=
| Rx_queue_setup (port_id rx_queue_id nb_rx_desc socket_id : Z)
| Tx_queue_setup (port_id tx_queue_id nb_tx_desc socket_id : Z).

Section Queues.

(** Modelled from the spec: the queues are set up by DPDK's
    [rte_eth_dev_socket_id], [rte_eth_rx_queue_setup] and
    [rte_eth_tx_queue_setup] (not under [src/]): the socket of a port with
    the value of [rte_errno], and the [int] a setup call returns, which may
    depend on the calls made before it. *)
Variable rte_eth_dev_socket_id : Z -> Z * Z.
Variable queue_setup_result : list queue_setup -> queue_setup -> Z.

(** The loop over the receive queues from [q] on: the [int] with which the
    function goes on (0) or returns (-1), the calls made so far and what
    was written to [stderr]. *)
Fixpoint rx_queues_for (fuel : nat) (port : port_params) (socket_id q n_cores : Z)
    (made : list queue_setup) : Z * list queue_setup * list error_line :=
  match fuel with
  | O => (0, made, [])
  | S fuel' =>
      if q <? n_cores then
        let call :=
          Rx_queue_setup (id port) (u16 q) (n_rx_queue_desc port) (to_unsigned socket_id) in
        let r := queue_setup_result made call in
        if r <? 0 then (-1, made ++ [call], [Rx_queue_setup_failure q (- r)])
        else rx_queues_for fuel' port socket_id (u32 (q + 1)) n_cores (made ++ [call])
      else (0, made, [])
  end.

(** The loop over the transmit queues. *)
Fixpoint tx_queues_for (fuel : nat) (port : port_params) (socket_id q n_cores : Z)
    (made : list queue_setup) : Z * list queue_setup * list error_line :=
  match fuel with
  | O => (0, made, [])
  | S fuel' =>
      if q <? n_cores then
        let call :=
          Tx_queue_setup (id port) (u16 q) (n_tx_queue_desc port) (to_unsigned socket_id) in
        let r := queue_setup_result made call in
        if r <? 0 then (-1, made ++ [call], [Tx_queue_setup_failure q (- r)])
        else tx_queues_for fuel' port socket_id (u32 (q + 1)) n_cores (made ++ [call])
      else (0, made, [])
  end.

(** [port_queue_allocate (port, mb_pool, n_cores)]: the [int] returned, the
    setup calls made (after those of [made]) and what was written to
    [stderr]; [mb_pool_null] tells whether [mb_pool] is NULL. *)
Definition port_queue_allocate (port : option port_params) (mb_pool_null : bool)
    (n_cores : Z) (made : list queue_setup) : Z * list queue_setup * list error_line :=
  match port with
  | None => (-1, made, [Invalid_argument])
  | Some port =>
      if mb_pool_null then (-1, made, [Invalid_argument])
      else
        let '(socket_id, rte_errno) := rte_eth_dev_socket_id (id port) in
        if (socket_id <? 0) && (rte_errno =? EINVAL) then (-1, made, [Socket_id_failure])
        else
          match rx_queues_for (Z.to_nat n_cores) port socket_id QUEUE_INITIAL_IDX n_cores made with
          | (0, made, _) =>
              tx_queues_for (Z.to_nat n_cores) port socket_id QUEUE_INITIAL_IDX n_cores made
          | failed => failed
          end
  end.

End Queues.

(** The setup calls for the [k] queues from [q] on of a port, in ascending
    order of the queue. *)
Definition rx_setups (port : port_params) (socket_id : Z) (q : Z) (k : nat)
  : list queue_setup :=
  map (fun i => Rx_queue_setup (id port) (u16 i) (n_rx_queue_desc port)
                  (to_unsigned socket_id))
    (seqZ q (Z.of_nat k)).

Definition tx_setups (port : port_params) (socket_id : Z) (q : Z) (k : nat)
  : list queue_setup :=
  map (fun i => Tx_queue_setup (id port) (u16 i) (n_tx_queue_desc port)
                  (to_unsigned socket_id))
    (seqZ q (Z.of_nat k)).

(** *** [init_mem_pool] *)

(** The arguments of a call of [rte_pktmbuf_pool_create], converted to the
    types of its parameters; the name of the pool is
    [MBUF_POOL_NAME_PREFIX], an underscore and [name_suffix] in decimal. *)
Record pool_request : Type := {
  name_suffix : Z;
  n : Z;
  cache_size : Z;
  priv_size : Z;
  data_room_size : Z;
  socket_id : Z
}.

Section MemPool.

(** Modelled from the spec: three constants of the DPDK build
    ([rte_config.h], not under [src/]). *)
Variable RTE_MAX_ETHPORTS : Z.
Variable RTE_MAX_LCORE : Z.
Variable RTE_PKTMBUF_HEADROOM : Z.

Definition MBUF_HEADROOM : Z := RTE_PKTMBUF_HEADROOM.
Definition MBUF_BUF_SIZE : Z := MBUF_DATA_LEN + MBUF_HEADROOM.

(** The loop that adds up the descriptors of the ports. *)
Definition sum_queue_desc (g_ports : list port_params) : Z :=
  foldl (fun n_queue_desc p =>
           u32 (u32 (n_queue_desc + n_rx_queue_desc p) + n_tx_queue_desc p))
    0 g_ports.

(** [init_mem_pool (n_lcores, socket_id)] up to its call of
    [rte_pktmbuf_pool_create], whose result it returns: the pool it asks
    for, or [None] where it returns NULL without asking.  [g_ports] is the
    global array of that name. *)
Definition init_mem_pool (g_ports : list port_params) (n_lcores socket_id : Z)
  : option pool_request :=
  let n_ports := Z.of_nat (length g_ports) in
  if (n_ports =? 0) || (n_ports >=? RTE_MAX_ETHPORTS)
     || (n_lcores =? 0) || (n_lcores >=? RTE_MAX_LCORE)
  then None
  else
    let n_queue_desc := sum_queue_desc g_ports in
    let n_queue_desc := u32 (n_queue_desc * n_lcores) in
    let n_mbufs := u32 ((MAX_PKT_BURST + MEMPOOL_CACHE_SIZE) * n_lcores) in
    let n_mbufs := u32 (n_mbufs * n_ports) in
    let n_mbufs := u32 (n_mbufs + n_queue_desc) in
    let n_mbufs := Z.max n_mbufs MBUF_IN_MEMPOOL in
    Some {| name_suffix := u16 socket_id; n := n_mbufs;
            cache_size := MEMPOOL_CACHE_SIZE; priv_size := 0;
            data_room_size := u16 MBUF_BUF_SIZE; socket_id := to_int socket_id |}.

End MemPool.

(** The descriptors of all ports added up as integers, and the ports whose
    descriptor counts fit their 16 bits. *)
Definition total_queue_desc (g_ports : list port_params) : Z :=
  foldr (fun p acc => n_rx_queue_desc p + n_tx_queue_desc p + acc) 0 g_ports.

Definition desc_16_bit (p : port_params) : Prop :=
  0 <= n_rx_queue_desc p < 2 ^ 16 /\ 0 <= n_tx_queue_desc p < 2 ^ 16.

End Start.

(** ** Sample buffers *)

Module Samples.

(** A frame of the minimum size: two link-layer addresses, the two bytes of
    the ethertype, the first byte of the payload, zero padding. *)
Definition frame (etype_hi etype_lo first : Z) : list Z :=
  [0x02; 0; 0; 0; 0; 0x01; 0x02; 0; 0; 0; 0; 0x02; etype_hi; etype_lo; first]
  ++ replicate 49 0.

(** A single-segment buffer that holds [fr] behind 128 bytes of headroom. *)
Definition mbuf_of (fr : list Z) (refs flags : Z) : rte_mbuf :=
  {| buf := replicate 128 0 ++ fr ++ replicate 64 0;
     data_off := 128; refcnt := refs; nb_segs := 1; ol_flags := flags;
     pkt_len := Z.of_nat (length fr); data_len := Z.of_nat (length fr);
     next_lens := [] |}.

(** An IPv4 frame, owned by the worker alone. *)
Definition ipv4_mbuf : rte_mbuf := mbuf_of (frame 0x08 0x00 0x45) 1 0.

(** The same frame in a buffer that has a second holder. *)
Definition shared_mbuf : rte_mbuf := mbuf_of (frame 0x08 0x00 0x45) 2 0.

(** The IPv4 frame as the first of two segments: a direct buffer with a
    single holder whose packet goes on for 100 bytes in a second buffer. *)
Definition two_segment_mbuf : rte_mbuf :=
  {| buf := replicate 128 0 ++ frame 0x08 0x00 0x45 ++ replicate 64 0;
     data_off := 128; refcnt := 1; nb_segs := 2; ol_flags := 0;
     pkt_len := 164; data_len := 64; next_lens := [100] |}.

(** A VLAN-tagged frame (ethertype 0x8100) whose tag starts with priority 2,
    so that the byte behind the link-layer header is 0x40. *)
Definition vlan_mbuf : rte_mbuf := mbuf_of (frame 0x81 0x00 0x40) 1 0.

(** Label 16, End-of-Stack, TTL 64. *)
Definition sample_hdr : mpls_header_t := 0x00010140.

(** A stream from port 0 to port 1 on queue 0, with the default label and
    TTL of the command line; its header is [sample_hdr]. *)
Definition sample_stream : fwd_stream :=
  {| input_port := {| id := 0; rx_queue_id := 0; tx_queue_id := 0 |};
     output_port := {| id := 1; rx_queue_id := 0; tx_queue_id := 0 |};
     mpls_label := 16; mpls_ttl := 64; print := 0 |}.

(** Surroundings in which port 0 always delivers the shared buffer followed
    by the IPv4 one, port 1 delivers nothing, every transmit takes the whole
    batch and [fwd_engine_stop] is called at instant [T]. *)
Definition sample_world (T : nat) : world :=
  {| lets_quit_at := lets_quit_stopped_at T;
     rx_burst_at := fun _ port _ => if port =? 0 then [shared_mbuf; ipv4_mbuf] else [];
     tx_burst_at := fun _ _ _ pkts => Z.of_nat (length pkts) |}.

(** An MPLS frame of the minimum size: the MPLS ethertype, the header
    [sample_hdr] and a payload that starts like an IPv4 packet. *)
Definition mpls_mbuf : rte_mbuf :=
  mbuf_of ([0x02; 0; 0; 0; 0; 0x01; 0x02; 0; 0; 0; 0; 0x02; 0x88; 0x47;
            0x00; 0x01; 0x01; 0x40; 0x45] ++ replicate 45 0) 1 0.

(** Surroundings in which nobody ever calls [fwd_engine_stop]; port 0
    delivers one frame at a time and no transmit queue takes anything. *)
Definition running_world : world :=
  {| lets_quit_at := fun _ => QUIT_FALSE;
     rx_burst_at := fun _ port _ => if port =? 0 then [ipv4_mbuf] else [];
     tx_burst_at := fun _ _ _ _ => 0 |}.

(** Signal 1 at instant 1 and [SIGTERM] at instant 3. *)
Definition sample_signals (i : nat) : option Z :=
  if (i =? 1)%nat then Some 1 else if (i =? 3)%nat then Some Start.SIGTERM else None.

(** The surroundings of [sample_world] with the flag under the control of
    [signal_handler]. *)
Definition signalled_world (signals : nat -> option Z) : world :=
  {| lets_quit_at := Start.lets_quit_after signals;
     rx_burst_at := fun _ port _ => if port =? 0 then [shared_mbuf; ipv4_mbuf] else [];
     tx_burst_at := fun _ _ _ pkts => Z.of_nat (length pkts) |}.

(** Two ports with the descriptors [port_params_init] asks for. *)
Definition sample_port_in : Start.port_params :=
  {| Start.id := 0; Start.role := Start.PORT_INGRESS;
     Start.n_rx_queue_desc := Start.NUM_RX_QUEUE_DESC;
     Start.n_tx_queue_desc := Start.NUM_TX_QUEUE_DESC |}.

Definition sample_port_out : Start.port_params :=
  {| Start.id := 1; Start.role := Start.PORT_EGRESS;
     Start.n_rx_queue_desc := Start.NUM_RX_QUEUE_DESC;
     Start.n_tx_queue_desc := Start.NUM_TX_QUEUE_DESC |}.

(** The configuration after [--core-list=5,2,9] on a machine with an array
    of four places. *)
Definition sample_config : Cmdline.cmdline_config :=
  Cmdline.set_cores (Start.g_app_config 4) [2; 5; 9; 0] 3.

(** Every queue set up on socket 0 without an error. *)
Definition sample_socket_of (port : Z) : Z * Z := (0, 0).
Definition sample_setup_result (made : list Start.queue_setup) (call : Start.queue_setup) : Z := 0.

(** Setup succeeds for every queue but transmit queue 1, which fails with
    [-EIO]. *)
Definition failing_setup_result (made : list Start.queue_setup) (call : Start.queue_setup) : Z :=
  match call with
  | Start.Tx_queue_setup _ 1 _ _ => -5
  | _ => 0
  end.


(** An MPLS frame and a clone of it: two objects, at addresses 0 and 1,
    that name the same data, at address 0. *)
Definition cloned_store : Store.store :=
  {| Store.objs := [Store.without_data 0 mpls_mbuf; Store.without_data 0 mpls_mbuf];
     Store.bufs := [buf mpls_mbuf] |}.

(** The same two objects, each with data of its own. *)
Definition unshared_store : Store.store :=
  {| Store.objs := [Store.without_data 0 mpls_mbuf; Store.without_data 1 mpls_mbuf];
     Store.bufs := [buf mpls_mbuf; buf mpls_mbuf] |}.

End Samples.
Import Samples.

(* ===================================================================== *)
(** * Part II: properties                                                *)
(* ===================================================================== *)

(** ** Bit-level reasoning *)

Lemma u32_testbit x n : 0 <= n -> Z.testbit (u32 x) n = (n <? 32) && Z.testbit x n.
Proof. intros Hn. unfold u32. now rewrite Z.testbit_mod_pow2 by lia. Qed.

Lemma is_u32_testbit_high x n : is_u32 x -> 32 <= n -> Z.testbit x n = false.
Proof.
  intros Hx Hn. rewrite <- (Z.mod_small x (2 ^ 32)) by exact Hx.
  apply Z.mod_pow2_bits_high. lia.
Qed.

Lemma mask_label : MPLS_HDR_LABEL_MASK = Z.ones 20. Proof. reflexivity. Qed.
Lemma mask_tc : MPLS_HDR_TC_MASK = Z.ones 3. Proof. reflexivity. Qed.
Lemma mask_eos : MPLS_HDR_EOS_MASK = Z.ones 1. Proof. reflexivity. Qed.
Lemma mask_ttl : MPLS_HDR_TTL_MASK = Z.ones 8. Proof. reflexivity. Qed.

(** Reduce an equation between bit-vector expressions to a statement about
    one bit, then split on the position of that bit. *)
Ltac unfold_codec :=
  unfold mpls_get, mpls_set, mpls_get_label, mpls_get_tc, mpls_get_eos, mpls_get_ttl,
    mpls_set_label, mpls_set_tc, mpls_set_eos, mpls_set_ttl,
    MPLS_HDR_LABEL_BITS, MPLS_HDR_TC_BITS, MPLS_HDR_EOS_BIT, MPLS_HDR_TTL_BITS,
    not32, shl32;
  rewrite ?mask_label, ?mask_tc, ?mask_eos, ?mask_ttl;
  unfold MPLS_HDR_LABEL_SHIFT, MPLS_HDR_TC_SHIFT, MPLS_HDR_EOS_SHIFT, MPLS_HDR_TTL_SHIFT.

Ltac bit_rewrite :=
  repeat first
    [ rewrite Z.land_spec | rewrite Z.lor_spec | rewrite Z.bits_0
    | match goal with
      | |- context [ Z.testbit ?x ?i ] => rewrite (Z.testbit_neg_r x i) by lia
      | |- context [ Z.testbit (Z.lnot ?x) ?i ] => rewrite (Z.lnot_spec x i) by lia
      | |- context [ Z.testbit (u32 ?x) ?i ] => rewrite (u32_testbit x i) by lia
      | |- context [ Z.testbit (?x mod 2 ^ ?k) ?i ] => rewrite (Z.testbit_mod_pow2 x k i) by lia
      | |- context [ Z.testbit (Z.shiftr ?x ?k) ?i ] => rewrite (Z.shiftr_spec x k i) by lia
      | |- context [ Z.testbit (Z.shiftl ?x ?k) ?i ] => rewrite (Z.shiftl_spec x k i) by lia
      | |- context [ Z.testbit (Z.ones ?k) ?i ] => rewrite (Z.testbit_ones k i) by lia
      end ].

Ltac norm_index :=
  repeat match goal with
    | |- context [ Z.testbit ?x (?n + ?k - ?k) ] => replace (n + k - k) with n by lia
    | |- context [ Z.testbit ?x (?n - ?k + ?k) ] => replace (n - k + k) with n by lia
    | |- context [ Z.testbit ?x (?n + 0) ] => replace (n + 0) with n by lia
    | |- context [ Z.testbit ?x (?n - 0) ] => replace (n - 0) with n by lia
    end.

Ltac bit_cases :=
  repeat match goal with
    | |- context [ ?a <? ?b ] => destruct (Z.ltb_spec a b)
    | |- context [ ?a <=? ?b ] => destruct (Z.leb_spec a b)
    end;
  norm_index; rewrite ?Z.bits_0; simpl;
  rewrite ?andb_true_r, ?andb_false_r, ?orb_false_r, ?orb_true_r;
  try reflexivity; try lia; try solve [f_equal; lia].

Ltac by_bits :=
  apply Z.bits_inj'; intros n Hn; repeat (progress (bit_rewrite; bit_cases)).

(** Bits of a 32-bit value above position 31 are clear. *)
Ltac clear_high h :=
  rewrite ?(is_u32_testbit_high h) by (assumption || lia); try reflexivity.

Lemma field_mask_pow2 f : field_mask f = 2 ^ field_width f - 1.
Proof. now destruct f. Qed.

(** Reading a field back after writing it. *)
Lemma mpls_get_set_same f h v :
  mpls_get f (mpls_set f h v) = Z.land v (field_mask f).
Proof. destruct f; unfold field_mask; unfold_codec; by_bits. Qed.

(** Writing one field does not change the bits outside that field. *)
Lemma mpls_set_other_bits f h v n :
  is_u32 h -> 0 <= n ->
  ~ (field_shift f <= n < field_shift f + field_width f) ->
  Z.testbit (mpls_set f h v) n = Z.testbit h n.
Proof.
  intros Hh Hn Hout.
  destruct f; unfold field_shift, field_width in Hout; revert Hout;
    unfold_codec; intros Hout; bit_rewrite; bit_cases; clear_high h.
Qed.

(** Writing one field does not change what the other getters return. *)
Lemma mpls_get_set_other f g h v :
  is_u32 h -> g <> f -> mpls_get g (mpls_set f h v) = mpls_get g h.
Proof.
  intros Hh Hne.
  destruct f, g; try congruence; unfold_codec; by_bits; clear_high h.
Qed.

(** The setters keep the header within 32 bits. *)
Lemma mpls_set_is_u32 f h v : is_u32 h -> is_u32 (mpls_set f h v).
Proof.
  intros Hh. unfold is_u32.
  assert (E : mpls_set f h v = u32 (mpls_set f h v)).
  { destruct f; unfold_codec; by_bits; clear_high h. }
  rewrite E. unfold u32. apply Z.mod_pos_bound. lia.
Qed.

(** C2: for every 32-bit header [h], field [f] and 32-bit input [v], the
    getter of [f] applied after the setter of [f] returns [v] masked to the
    width of [f] (20, 3, 1 and 8 bits), and the setter leaves every other
    field, and every bit outside the field, as it was in [h]. *)
Theorem mpls_codec_roundtrip_independence (h v : Z) (f : field) :
  is_u32 h -> is_u32 v ->
  mpls_get f (mpls_set f h v) = Z.land v (2 ^ field_width f - 1)
  /\ (forall g, g <> f -> mpls_get g (mpls_set f h v) = mpls_get g h)
  /\ (forall n, 0 <= n ->
        ~ (field_shift f <= n < field_shift f + field_width f) ->
        Z.testbit (mpls_set f h v) n = Z.testbit h n).
Proof.
  intros Hh _. split; [| split].
  - rewrite <- field_mask_pow2. apply mpls_get_set_same.
  - intros g Hg. now apply mpls_get_set_other.
  - intros n Hn Hout. now apply mpls_set_other_bits.
Qed.

Lemma mpls_codec_roundtrip_independence_witness :
  mpls_get Tc (mpls_set Tc 0xdeadbeef 0xffffffff) = Z.land 0xffffffff (2 ^ field_width Tc - 1)
  /\ (forall g, g <> Tc ->
        mpls_get g (mpls_set Tc 0xdeadbeef 0xffffffff) = mpls_get g 0xdeadbeef)
  /\ (forall n, 0 <= n ->
        ~ (field_shift Tc <= n < field_shift Tc + field_width Tc) ->
        Z.testbit (mpls_set Tc 0xdeadbeef 0xffffffff) n = Z.testbit 0xdeadbeef n).
Proof.
  apply (mpls_codec_roundtrip_independence 0xdeadbeef 0xffffffff Tc);
    unfold is_u32; lia.
Defined.

(** C10: the header a worker stamps on the packets of its stream is built
    from zero by setting the label, the End-of-Stack bit and the TTL only,
    so its Traffic Class field is 0, whatever the label and the TTL of the
    stream are; that header is the one [fwd_worker_loop] hands to every
    call of the encapsulating phase. *)
Theorem stream_header_tc_zero (s : fwd_stream) :
  mpls_get_tc (stream_mpls_hdr s) = 0
  /\ (forall bo w fuel,
        fwd_worker_loop bo w s fuel = fwd_worker_while bo w s fuel (stream_mpls_hdr s) 0).
Proof.
  split; [| reflexivity].
  unfold stream_mpls_hdr. unfold_codec. by_bits.
Qed.

(** The other three fields of the stamped header, for configured values in
    range. *)
Lemma stream_header_fields (s : fwd_stream) :
  0 <= mpls_label s < 2 ^ 20 -> 0 <= mpls_ttl s < 2 ^ 8 ->
  mpls_get_label (stream_mpls_hdr s) = mpls_label s
  /\ mpls_get_eos (stream_mpls_hdr s) = 1
  /\ mpls_get_ttl (stream_mpls_hdr s) = mpls_ttl s.
Proof.
  intros Hl Ht. unfold stream_mpls_hdr.
  set (h1 := mpls_set_label 0 (mpls_label s)).
  set (h2 := mpls_set_eos h1 1).
  assert (U0 : is_u32 0) by (unfold is_u32; lia).
  assert (U1 : is_u32 h1) by apply (mpls_set_is_u32 Label _ _ U0).
  assert (U2 : is_u32 h2) by apply (mpls_set_is_u32 Eos _ _ U1).
  repeat split.
  - rewrite (mpls_get_set_other Ttl Label h2) by (assumption || discriminate).
    unfold h2. rewrite (mpls_get_set_other Eos Label h1) by (assumption || discriminate).
    unfold h1. rewrite (mpls_get_set_same Label). simpl field_mask.
    rewrite mask_label, Z.land_ones by lia. apply Z.mod_small; lia.
  - rewrite (mpls_get_set_other Ttl Eos h2) by (assumption || discriminate).
    unfold h2. now rewrite (mpls_get_set_same Eos).
  - rewrite (mpls_get_set_same Ttl). simpl field_mask.
    rewrite mask_ttl, Z.land_ones by lia. apply Z.mod_small; lia.
Qed.

(** ** Frame transform *)

(** C3: a buffer that is not exclusively owned, that is, one whose reference
    count is above 1 or that is not a direct buffer (the test
    [RTE_MBUF_DIRECT] of the source), makes [mpls_header_insert] return
    [-EINVAL] (the SharedBuffer error) with the buffer exactly as it was:
    same lengths, same offsets, same bytes; nothing is written to stderr
    either. *)
Theorem insert_shared_buffer_rejected (bo : byte_order) (m : rte_mbuf) (hdr : mpls_header_t) :
  rte_mbuf_refcnt_read m > 1 \/ RTE_MBUF_DIRECT m = false ->
  mpls_header_insert bo m hdr = (- EINVAL, m, []).
Proof.
  intros H. unfold mpls_header_insert.
  destruct H as [H | H].
  - replace (rte_mbuf_refcnt_read m >? 1) with true by (symmetry; apply Z.gtb_lt; lia).
    now rewrite orb_true_r.
  - now rewrite H.
Qed.

(** *** Memory *)

Lemma length_store_bytes b a bs : length (store_bytes b a bs) = length b.
Proof. unfold store_bytes. destruct (a <? 0); [reflexivity | apply length_inserts]. Qed.

Lemma load8_store_bytes_out b a bs i :
  i < a \/ a + Z.of_nat (length bs) <= i ->
  load8 (store_bytes b a bs) i = load8 b i.
Proof.
  intros H. unfold load8, store_bytes.
  destruct (Z.ltb_spec a 0); [reflexivity |].
  destruct (Z.ltb_spec i 0); [reflexivity |].
  destruct H as [H | H].
  - now rewrite list_lookup_inserts_lt by lia.
  - now rewrite list_lookup_inserts_ge by lia.
Qed.

Lemma load8_store_bytes_in b a bs i :
  0 <= a <= i -> i < a + Z.of_nat (length bs) -> i < Z.of_nat (length b) ->
  load8 (store_bytes b a bs) i = default 0 (bs !! Z.to_nat (i - a)).
Proof.
  intros Ha Hi Hb. unfold load8, store_bytes.
  destruct (Z.ltb_spec a 0); [lia |].
  destruct (Z.ltb_spec i 0); [lia |].
  rewrite list_lookup_inserts by lia.
  do 2 f_equal. lia.
Qed.

Lemma length_load_bytes b a n :
  0 <= a -> 0 <= n -> a + n <= Z.of_nat (length b) ->
  length (load_bytes b a n) = Z.to_nat n.
Proof.
  intros Ha Hn Hb. unfold load_bytes.
  destruct (Z.ltb_spec a 0); [lia |].
  rewrite length_take, length_drop. lia.
Qed.

Lemma lookup_load_bytes b a n k :
  0 <= a -> 0 <= k < n ->
  default 0 (load_bytes b a n !! Z.to_nat k) = load8 b (a + k).
Proof.
  intros Ha Hk. unfold load_bytes, load8.
  destruct (Z.ltb_spec a 0); [lia |].
  destruct (Z.ltb_spec (a + k) 0); [lia |].
  rewrite lookup_take_lt by lia. rewrite lookup_drop.
  do 2 f_equal. lia.
Qed.

Lemma length_memmove b dst src n : length (memmove b dst src n) = length b.
Proof. apply length_store_bytes. Qed.

Lemma load8_memmove_in b dst src n i :
  0 <= dst -> 0 <= src -> 0 <= n ->
  src + n <= Z.of_nat (length b) -> dst + n <= Z.of_nat (length b) ->
  dst <= i < dst + n ->
  load8 (memmove b dst src n) i = load8 b (src + (i - dst)).
Proof.
  intros Hd Hs Hn Hsb Hdb Hi. unfold memmove.
  rewrite load8_store_bytes_in by (rewrite ?length_load_bytes by lia; lia).
  apply lookup_load_bytes; lia.
Qed.

Lemma load8_memmove_out b dst src n i :
  0 <= src -> 0 <= n -> src + n <= Z.of_nat (length b) ->
  i < dst \/ dst + n <= i ->
  load8 (memmove b dst src n) i = load8 b i.
Proof.
  intros Hs Hn Hsb Hi. unfold memmove.
  apply load8_store_bytes_out. rewrite length_load_bytes by lia. lia.
Qed.

(** *** Byte order *)

(** Storing [rte_cpu_to_be_16 v] puts the high byte of [v] first, on either
    host. *)
Lemma bytes16_be bo v :
  bytes16 bo (rte_cpu_to_be_16 bo v) = [Z.land (Z.shiftr v 8) 0xff; Z.land v 0xff].
Proof.
  destruct bo; [| reflexivity].
  unfold bytes16, rte_cpu_to_be_16, bswap16. f_equal; [| f_equal].
  - change 0xff with (Z.ones 8). by_bits.
  - change 0xff with (Z.ones 8). by_bits.
Qed.

Lemma bytes32_be bo v :
  bytes32 bo (rte_cpu_to_be_32 bo v)
  = [Z.land (Z.shiftr v 24) 0xff; Z.land (Z.shiftr v 16) 0xff;
     Z.land (Z.shiftr v 8) 0xff; Z.land v 0xff].
Proof.
  destruct bo; [| reflexivity].
  unfold bytes32, rte_cpu_to_be_32, bswap32.
  change 0xff with (Z.ones 8).
  f_equal; [| f_equal; [| f_equal; [| f_equal]]]; by_bits.
Qed.

(** *** The buffer invariant *)

Lemma sum_lens_bound l :
  forallb (fun x => (0 <=? x) && (x <? 2 ^ 16)) l = true ->
  0 <= sum_lens l <= (2 ^ 16 - 1) * Z.of_nat (length l).
Proof.
  induction l as [| x l IH]; intros H; [simpl; lia |].
  simpl in H. apply andb_true_iff in H as [Hx Hl]. apply andb_true_iff in Hx as [H0 H1].
  apply Z.leb_le in H0. apply Z.ltb_lt in H1.
  specialize (IH Hl). change (sum_lens (x :: l)) with (x + sum_lens l).
  cbn [length]. rewrite Nat2Z.inj_succ. lia.
Qed.

Lemma mbuf_ok_spec m :
  mbuf_ok m = true ->
  0 <= data_off m /\ 0 <= data_len m
  /\ data_off m + data_len m <= buf_len m /\ buf_len m < 2 ^ 16
  /\ 1 <= refcnt m < 2 ^ 16
  /\ nb_segs m = 1 + Z.of_nat (length (next_lens m)) /\ nb_segs m < 2 ^ 16
  /\ pkt_len m = data_len m + sum_lens (next_lens m)
  /\ 0 <= sum_lens (next_lens m) <= (2 ^ 16 - 1) * (2 ^ 16 - 2).
Proof.
  unfold mbuf_ok. rewrite !andb_true_iff.
  rewrite !Z.leb_le, !Z.ltb_lt, !Z.eqb_eq.
  intros [[[[[[[[[[[H1 H2] H3] H4] H5] H6] H7] H8] H9] H10] H11] H12].
  pose proof (sum_lens_bound _ H11) as Hs.
  repeat split; try lia; nia.
Qed.

Lemma mbuf_ok_intro m :
  0 <= data_off m -> 0 <= data_len m ->
  data_off m + data_len m <= buf_len m -> buf_len m < 2 ^ 16 ->
  1 <= refcnt m < 2 ^ 16 -> 0 <= ol_flags m < 2 ^ 64 ->
  nb_segs m = 1 + Z.of_nat (length (next_lens m)) -> nb_segs m < 2 ^ 16 ->
  forallb (fun l => (0 <=? l) && (l <? 2 ^ 16)) (next_lens m) = true ->
  pkt_len m = data_len m + sum_lens (next_lens m) ->
  mbuf_ok m = true.
Proof.
  intros. unfold mbuf_ok. rewrite !andb_true_iff.
  rewrite !Z.leb_le, !Z.ltb_lt, !Z.eqb_eq. repeat split; assumption || lia.
Qed.

Lemma mbuf_ok_flags m :
  mbuf_ok m = true ->
  0 <= ol_flags m < 2 ^ 64
  /\ forallb (fun l => (0 <=? l) && (l <? 2 ^ 16)) (next_lens m) = true.
Proof.
  unfold mbuf_ok. rewrite !andb_true_iff.
  rewrite !Z.leb_le, !Z.ltb_lt, !Z.eqb_eq. intuition lia.
Qed.

Lemma bswap16_range v : 0 <= bswap16 v < 2 ^ 16.
Proof.
  assert (E : bswap16 v = bswap16 v mod 2 ^ 16).
  { unfold bswap16. change 0xff with (Z.ones 8). by_bits. }
  rewrite E. apply Z.mod_pos_bound. lia.
Qed.

Lemma rte_cpu_to_be_16_range bo v :
  0 <= v < 2 ^ 16 -> 0 <= rte_cpu_to_be_16 bo v < 2 ^ 16.
Proof. intros Hv. destruct bo; simpl; [apply bswap16_range | exact Hv]. Qed.

Lemma load16_store16 bo b a v :
  0 <= a -> a + 1 < Z.of_nat (length b) -> 0 <= v < 2 ^ 16 ->
  load16 bo (store16 bo b a v) a = v.
Proof.
  intros Ha Hb Hv. unfold load16, store16.
  assert (Hlen : length (bytes16 bo v) = 2%nat) by now destruct bo.
  rewrite !load8_store_bytes_in by (rewrite ?Hlen; lia).
  replace (Z.to_nat (a - a)) with 0%nat by lia.
  replace (Z.to_nat (a + 1 - a)) with 1%nat by lia.
  assert (Hlo : Z.land v 0xff = v mod 2 ^ 8) by (change 0xff with (Z.ones 8); apply Z.land_ones; lia).
  assert (Hhi : Z.land (Z.shiftr v 8) 0xff = v / 2 ^ 8).
  { change 0xff with (Z.ones 8). rewrite Z.land_ones, Z.shiftr_div_pow2 by lia.
    apply Z.mod_small. split; [apply Z.div_pos; lia | apply Z.div_lt_upper_bound; lia]. }
  pose proof (Z.div_mod v (2 ^ 8)) as Hdm.
  destruct bo; simpl; rewrite Hlo, Hhi; lia.
Qed.

Lemma gtb_false a b : a <= b -> (a >? b) = false.
Proof. intros H. rewrite Z.gtb_ltb. apply Z.ltb_ge. exact H. Qed.

Lemma gtb_true a b : b < a -> (a >? b) = true.
Proof. intros H. rewrite Z.gtb_ltb. apply Z.ltb_lt. exact H. Qed.

(** *** Encapsulation *)

(** The buffer [mpls_header_insert] leaves behind when it succeeds. *)
Lemma insert_success bo m hdr :
  mbuf_ok m = true -> exclusively_owned m = true ->
  RTE_ETHER_MIN_LEN <= rte_pktmbuf_data_len m ->
  MPLS_HDR_LEN <= rte_pktmbuf_headroom m ->
  mpls_header_insert bo m hdr
  = (0,
     {| buf := store_bytes
                 (store_bytes
                    (memmove (buf m) (data_off m - 4) (data_off m) RTE_ETHER_HDR_LEN)
                    (data_off m - 4 + ETHER_TYPE_OFFSET) (be16_bytes RTE_ETHER_TYPE_MPLS))
                 (data_off m - 4 + RTE_ETHER_HDR_LEN) (be32_bytes hdr);
        data_off := data_off m - 4; refcnt := refcnt m; nb_segs := nb_segs m;
        ol_flags := ol_flags m; pkt_len := pkt_len m + 4; data_len := data_len m + 4;
        next_lens := next_lens m |},
     []).
Proof.
  intros Hok Hex Hlen Hroom.
  apply mbuf_ok_spec in Hok as (H1 & H2 & H3 & H4 & H5 & H6 & H7 & H8 & H9).
  apply andb_true_iff in Hex as [Hd Hr]. apply Z.leb_le in Hr.
  unfold rte_pktmbuf_data_len, rte_pktmbuf_headroom, MPLS_HDR_LEN, RTE_ETHER_MIN_LEN in *.
  unfold mpls_header_insert, rte_pktmbuf_prepend, rte_pktmbuf_data_len,
    rte_pktmbuf_headroom, rte_pktmbuf_mtod, MPLS_HDR_LEN, RTE_ETHER_MIN_LEN.
  rewrite Hd. simpl negb.
  rewrite (gtb_false (rte_mbuf_refcnt_read m) 1) by exact Hr.
  simpl orb.
  replace (data_len m <? 64) with false by (symmetry; apply Z.ltb_ge; lia).
  rewrite (gtb_false 4 (data_off m)) by lia.
  unfold buf_len in *.
  cbn [buf data_off set_buf refcnt nb_segs ol_flags pkt_len data_len next_lens].
  unfold u16, u32. rewrite !Z.mod_small by lia.
  unfold store16, store32. rewrite bytes16_be, bytes32_be.
  replace (data_off m - 4 + 4) with (data_off m) by lia.
  reflexivity.
Qed.

Ltac mem_side := cbn [length be16_bytes be32_bytes]; rewrite ?length_store_bytes, ?length_memmove; lia.

Lemma be32_value_bytes v : is_u32 v -> be32_value (be32_bytes v) = v.
Proof.
  intros Hv. unfold be32_value, be32_bytes. cbn [foldl].
  change 0xff with (Z.ones 8). rewrite !Z.land_ones, !Z.shiftr_div_pow2 by lia.
  unfold is_u32 in Hv.
  pose proof (Z.div_mod v (2 ^ 8)). pose proof (Z.div_mod (v / 2 ^ 8) (2 ^ 8)).
  pose proof (Z.div_mod (v / 2 ^ 16) (2 ^ 8)).
  pose proof (Z.div_div v (2 ^ 8) (2 ^ 8)). pose proof (Z.div_div v (2 ^ 16) (2 ^ 8)).
  change (2 ^ 8 * 2 ^ 8) with (2 ^ 16) in *. change (2 ^ 16 * 2 ^ 8) with (2 ^ 24) in *.
  assert (v / 2 ^ 24 < 2 ^ 8) by (apply Z.div_lt_upper_bound; lia).
  assert (0 <= v / 2 ^ 24) by (apply Z.div_pos; lia).
  rewrite (Z.mod_small (v / 2 ^ 24)) by lia. lia.
Qed.

(** What a successful [mpls_header_insert] does to the buffer. *)
Lemma insert_header_facts (bo : byte_order) (m : rte_mbuf) (hdr : mpls_header_t) :
  mbuf_ok m = true -> exclusively_owned m = true ->
  RTE_ETHER_MIN_LEN <= rte_pktmbuf_data_len m ->
  MPLS_HDR_LEN <= rte_pktmbuf_headroom m ->
  exists m',
    mpls_header_insert bo m hdr = (0, m', [])
    /\ pkt_len m' = pkt_len m + MPLS_HDR_LEN
    /\ data_len m' = data_len m + MPLS_HDR_LEN
    /\ rte_pktmbuf_mtod m' = rte_pktmbuf_mtod m - MPLS_HDR_LEN
    /\ (forall i, 0 <= i < ETHER_TYPE_OFFSET ->
          load8 (buf m') (rte_pktmbuf_mtod m' + i) = load8 (buf m) (rte_pktmbuf_mtod m + i))
    /\ ether_type_field bo m' = rte_cpu_to_be_16 bo RTE_ETHER_TYPE_MPLS
    /\ load8 (buf m') (rte_pktmbuf_mtod m' + ETHER_TYPE_OFFSET) = 0x88
    /\ load8 (buf m') (rte_pktmbuf_mtod m' + ETHER_TYPE_OFFSET + 1) = 0x47
    /\ (forall k, 0 <= k < MPLS_HDR_LEN ->
          load8 (buf m') (rte_pktmbuf_mtod m' + RTE_ETHER_HDR_LEN + k)
          = default 0 (be32_bytes hdr !! Z.to_nat k))
    /\ length (buf m') = length (buf m)
    /\ (forall i, RTE_ETHER_HDR_LEN <= i < data_len m ->
          load8 (buf m') (rte_pktmbuf_mtod m' + MPLS_HDR_LEN + i)
          = load8 (buf m) (rte_pktmbuf_mtod m + i))
    /\ mbuf_ok m' = true.
Proof.
  intros Hok Hex Hlen Hroom.
  rewrite (insert_success bo m hdr Hok Hex Hlen Hroom).
  pose proof (mbuf_ok_flags _ Hok) as [Hfl Hnl].
  apply mbuf_ok_spec in Hok as (H1 & H2 & H3 & H4 & H5 & H6 & H7 & H8 & H9).
  unfold rte_pktmbuf_data_len, rte_pktmbuf_headroom, buf_len in *.
  unfold MPLS_HDR_LEN, RTE_ETHER_MIN_LEN, RTE_ETHER_HDR_LEN, ETHER_TYPE_OFFSET in *.
  eexists. split; [reflexivity |].
  unfold ether_type_field, ether_type_at, rte_pktmbuf_mtod, ETHER_TYPE_OFFSET.
  cbn [buf data_off pkt_len data_len].
  set (off := data_off m) in *.
  set (b1 := memmove (buf m) (off - 4) off 14).
  set (b2 := store_bytes b1 (off - 4 + 12) (be16_bytes RTE_ETHER_TYPE_MPLS)).
  assert (L1 : length b1 = length (buf m)) by apply length_memmove.
  assert (L2 : length b2 = length (buf m)) by (unfold b2; now rewrite length_store_bytes).
  assert (E12 : load8 b2 (off - 4 + 12) = 0x88).
  { unfold b2. rewrite load8_store_bytes_in by mem_side.
    now replace (Z.to_nat (off - 4 + 12 - (off - 4 + 12))) with 0%nat by lia. }
  assert (E13 : load8 b2 (off - 4 + 12 + 1) = 0x47).
  { unfold b2. rewrite load8_store_bytes_in by mem_side.
    now replace (Z.to_nat (off - 4 + 12 + 1 - (off - 4 + 12))) with 1%nat by lia. }
  repeat split.
  - intros i Hi.
    rewrite load8_store_bytes_out by mem_side.
    unfold b2. rewrite load8_store_bytes_out by mem_side.
    unfold b1. rewrite load8_memmove_in by lia. f_equal. lia.
  - unfold load16. rewrite !load8_store_bytes_out by mem_side.
    rewrite E12, E13. now destruct bo.
  - rewrite load8_store_bytes_out by mem_side. exact E12.
  - rewrite load8_store_bytes_out by mem_side. exact E13.
  - intros k Hk. rewrite load8_store_bytes_in by mem_side.
    do 2 f_equal. lia.
  - now rewrite length_store_bytes.
  - intros i Hi.
    rewrite load8_store_bytes_out by mem_side.
    unfold b2. rewrite load8_store_bytes_out by mem_side.
    unfold b1. rewrite load8_memmove_out by lia. f_equal. lia.
  - apply mbuf_ok_intro; cbn [buf data_off pkt_len data_len refcnt ol_flags nb_segs next_lens];
      unfold buf_len; cbn [buf]; rewrite ?length_store_bytes, ?L2; try assumption; lia.
Qed.

(** C4: on a buffer that is exclusively owned, holds at least
    [RTE_ETHER_MIN_LEN] bytes of data and has at least 4 bytes of headroom,
    [mpls_header_insert] returns 0 and leaves a buffer whose total length
    and data length are 4 more, whose data starts 4 bytes earlier with the
    two link-layer addresses moved to the new front, whose ethertype field
    is the MPLS ethertype (bytes 0x88 0x47) and which carries the four bytes
    of the header, most significant first, right behind the link-layer
    header; the payload stays where it was. *)
Theorem insert_header_effect (bo : byte_order) (m : rte_mbuf) (hdr : mpls_header_t) :
  mbuf_ok m = true -> exclusively_owned m = true ->
  RTE_ETHER_MIN_LEN <= rte_pktmbuf_data_len m ->
  MPLS_HDR_LEN <= rte_pktmbuf_headroom m ->
  is_u32 hdr ->
  exists m',
    mpls_header_insert bo m hdr = (0, m', [])
    /\ pkt_len m' = pkt_len m + MPLS_HDR_LEN
    /\ data_len m' = data_len m + MPLS_HDR_LEN
    /\ rte_pktmbuf_mtod m' = rte_pktmbuf_mtod m - MPLS_HDR_LEN
    /\ (forall i, 0 <= i < ETHER_TYPE_OFFSET ->
          load8 (buf m') (rte_pktmbuf_mtod m' + i) = load8 (buf m) (rte_pktmbuf_mtod m + i))
    /\ ether_type_field bo m' = rte_cpu_to_be_16 bo RTE_ETHER_TYPE_MPLS
    /\ load8 (buf m') (rte_pktmbuf_mtod m' + ETHER_TYPE_OFFSET) = 0x88
    /\ load8 (buf m') (rte_pktmbuf_mtod m' + ETHER_TYPE_OFFSET + 1) = 0x47
    /\ (forall k, 0 <= k < MPLS_HDR_LEN ->
          load8 (buf m') (rte_pktmbuf_mtod m' + RTE_ETHER_HDR_LEN + k)
          = default 0 (be32_bytes hdr !! Z.to_nat k))
    /\ be32_value (be32_bytes hdr) = hdr
    /\ (forall i, RTE_ETHER_HDR_LEN <= i < data_len m ->
          load8 (buf m') (rte_pktmbuf_mtod m' + MPLS_HDR_LEN + i)
          = load8 (buf m) (rte_pktmbuf_mtod m + i)).
Proof.
  intros Hok Hex Hlen Hroom Hhdr.
  destruct (insert_header_facts bo m hdr Hok Hex Hlen Hroom)
    as (m' & E & F1 & F2 & F3 & F4 & F5 & F6 & F7 & F8 & _ & F10 & _).
  exists m'. repeat (split; [assumption |]).
  split; [now apply be32_value_bytes | assumption].
Qed.

(** *** Decapsulation after encapsulation *)

(** The decapsulation path applied to a buffer that [mpls_header_insert]
    has just filled: the ethertype field becomes the ethertype deduced from
    the first byte of the payload, and offsets and lengths are back to what
    they were. *)
Lemma decapsulate_after_insert (bo : byte_order) (m : rte_mbuf) (hdr : mpls_header_t) (etype : Z) :
  mbuf_ok m = true -> exclusively_owned m = true ->
  RTE_ETHER_MIN_LEN <= rte_pktmbuf_data_len m ->
  MPLS_HDR_LEN <= rte_pktmbuf_headroom m ->
  (Z.land (first_payload_byte m) IPVERSION_MASK = IP4_VERSION /\ etype = RTE_ETHER_TYPE_IPV4)
  \/ (Z.land (first_payload_byte m) IPVERSION_MASK = IP6_VERSION /\ etype = RTE_ETHER_TYPE_IPV6) ->
  exists m1 m2,
    mpls_header_insert bo m hdr = (0, m1, [])
    /\ mpls_remove_hdr_one bo 0 1 m1 = (m2, [])
    /\ ether_type_field bo m2 = rte_cpu_to_be_16 bo etype
    /\ pkt_len m2 = pkt_len m
    /\ data_len m2 = data_len m
    /\ rte_pktmbuf_mtod m2 = rte_pktmbuf_mtod m
    /\ (forall i, 0 <= i < data_len m ->
          i <> ETHER_TYPE_OFFSET -> i <> ETHER_TYPE_OFFSET + 1 ->
          load8 (buf m2) (rte_pktmbuf_mtod m2 + i) = load8 (buf m) (rte_pktmbuf_mtod m + i)).
Proof.
  intros Hok Hex Hlen Hroom Hip.
  destruct (insert_header_facts bo m hdr Hok Hex Hlen Hroom)
    as (m1 & E & F1 & F2 & F3 & F4 & F5 & F6 & F7 & F8 & F9 & F10 & Hok1).
  apply mbuf_ok_spec in Hok as (H1 & H2 & H3 & H4 & H5 & H6 & H7 & H8 & H9).
  unfold rte_pktmbuf_data_len, rte_pktmbuf_headroom, buf_len, first_payload_byte in *.
  unfold ether_type_field, MPLS_HDR_LEN, RTE_ETHER_MIN_LEN, RTE_ETHER_HDR_LEN,
    ETHER_TYPE_OFFSET, rte_pktmbuf_mtod in *.
  set (off := data_off m) in *.
  (* the deduced ethertype *)
  assert (Hded : mpls_deduce_ethertype bo m1 = etype).
  { unfold mpls_deduce_ethertype, rte_pktmbuf_mtod, RTE_ETHER_HDR_LEN, MPLS_HDR_LEN.
    rewrite F5, Z.eqb_refl.
    replace (data_off m1 + 14 + 4) with (data_off m1 + 4 + 14) by lia.
    rewrite F10 by lia. fold off.
    destruct Hip as [[Hv ->] | [Hv ->]]; rewrite Hv; reflexivity. }
  assert (Hnz : (etype =? 0) = false).
  { destruct Hip as [[_ ->] | [_ ->]]; reflexivity. }
  assert (Hrng : 0 <= etype < 2 ^ 16).
  { destruct Hip as [[_ ->] | [_ ->]]; unfold RTE_ETHER_TYPE_IPV4, RTE_ETHER_TYPE_IPV6; lia. }
  exists m1. eexists. split; [exact E |].
  unfold mpls_remove_hdr_one. rewrite Hded, Hnz.
  unfold mpls_header_strip, rte_pktmbuf_adj, rte_pktmbuf_mtod, MPLS_HDR_LEN,
    RTE_ETHER_HDR_LEN.
  rewrite F5, Z.eqb_refl. simpl negb. cbv iota.
  rewrite (gtb_false 4 (data_len m1)) by lia.
  cbn [buf data_off set_buf refcnt nb_segs ol_flags pkt_len data_len next_lens fst snd].
  rewrite F1, F2, F3. unfold u16, u32.
  replace (off - 4 + 4) with off by lia.
  replace (pkt_len m + 4 - 4) with (pkt_len m) by lia.
  replace (data_len m + 4 - 4) with (data_len m) by lia.
  rewrite !Z.mod_small by lia.
  change (0 <? 0) with false. cbv iota.
  split; [reflexivity |].
  unfold ether_type_field, ether_type_at, rte_pktmbuf_mtod, ETHER_TYPE_OFFSET.
  cbn [buf data_off pkt_len data_len set_buf].
  repeat split.
  - apply load16_store16; [lia | rewrite length_memmove, F9; lia |].
    now apply rte_cpu_to_be_16_range.
  - intros i Hi Hn12 Hn13.
    unfold store16.
    assert (Hl : length (bytes16 bo (rte_cpu_to_be_16 bo etype)) = 2%nat) by now destruct bo.
    rewrite load8_store_bytes_out by (rewrite Hl; lia).
    destruct (Z.lt_ge_cases i 14) as [Hlt | Hge].
    + rewrite load8_memmove_in by (rewrite ?F9; lia).
      replace (off - 4 + (off + i - off)) with (data_off m1 + i) by lia.
      apply F4. lia.
    + rewrite load8_memmove_out by (rewrite ?F9; lia).
      replace (off + i) with (data_off m1 + 4 + i) by lia.
      rewrite F10 by lia. f_equal. lia.
Qed.

(** C1 (amended): on a buffer that satisfies the preconditions of
    [mpls_header_insert], whose first payload byte has the top nibble 0x4 or
    0x6 and whose ethertype field is the IP ethertype of that nibble (IPv4
    for 0x4, IPv6 for 0x6), [mpls_header_insert] followed by the
    decapsulation path (deduce the ethertype, then strip) gives back the
    original ethertype field and the original total length. *)
Theorem encap_decap_restores (bo : byte_order) (m : rte_mbuf) (hdr : mpls_header_t) (etype : Z) :
  mbuf_ok m = true -> exclusively_owned m = true ->
  RTE_ETHER_MIN_LEN <= rte_pktmbuf_data_len m ->
  MPLS_HDR_LEN <= rte_pktmbuf_headroom m ->
  (Z.land (first_payload_byte m) IPVERSION_MASK = IP4_VERSION /\ etype = RTE_ETHER_TYPE_IPV4)
  \/ (Z.land (first_payload_byte m) IPVERSION_MASK = IP6_VERSION /\ etype = RTE_ETHER_TYPE_IPV6) ->
  ether_type_field bo m = rte_cpu_to_be_16 bo etype ->
  exists m1,
    mpls_header_insert bo m hdr = (0, m1, [])
    /\ ether_type_field bo (decapsulate bo m1) = ether_type_field bo m
    /\ pkt_len (decapsulate bo m1) = pkt_len m.
Proof.
  intros Hok Hex Hlen Hroom Hip Het.
  destruct (decapsulate_after_insert bo m hdr etype Hok Hex Hlen Hroom Hip)
    as (m1 & m2 & E1 & E2 & G1 & G2 & _).
  exists m1. unfold decapsulate. rewrite E2. cbn [fst].
  split; [exact E1 |]. split; [congruence | exact G2].
Qed.

Lemma encap_decap_restores_witness :
  exists m1,
    mpls_header_insert LittleEndian ipv4_mbuf sample_hdr = (0, m1, [])
    /\ ether_type_field LittleEndian (decapsulate LittleEndian m1)
       = ether_type_field LittleEndian ipv4_mbuf
    /\ pkt_len (decapsulate LittleEndian m1) = pkt_len ipv4_mbuf.
Proof.
  apply (encap_decap_restores LittleEndian ipv4_mbuf sample_hdr RTE_ETHER_TYPE_IPV4).
  - reflexivity.
  - reflexivity.
  - vm_compute. discriminate.
  - vm_compute. discriminate.
  - left. split; reflexivity.
  - reflexivity.
Defined.

(** C1 as stated does not hold: the VLAN-tagged frame of [vlan_mbuf]
    satisfies every precondition and its first payload byte has the top
    nibble 0x4, yet after [mpls_header_insert] and the decapsulation path
    its ethertype field is that of IPv4, not 0x8100. *)
Lemma encap_decap_changes_vlan_ethertype :
  mbuf_ok vlan_mbuf = true
  /\ exclusively_owned vlan_mbuf = true
  /\ RTE_ETHER_MIN_LEN <= rte_pktmbuf_data_len vlan_mbuf
  /\ MPLS_HDR_LEN <= rte_pktmbuf_headroom vlan_mbuf
  /\ Z.land (first_payload_byte vlan_mbuf) IPVERSION_MASK = IP4_VERSION
  /\ exists m1,
       mpls_header_insert LittleEndian vlan_mbuf sample_hdr = (0, m1, [])
       /\ ether_type_field LittleEndian vlan_mbuf = rte_cpu_to_be_16 LittleEndian 0x8100
       /\ ether_type_field LittleEndian (decapsulate LittleEndian m1)
          = rte_cpu_to_be_16 LittleEndian RTE_ETHER_TYPE_IPV4
       /\ ether_type_field LittleEndian (decapsulate LittleEndian m1)
          <> ether_type_field LittleEndian vlan_mbuf.
Proof.
  repeat (split; [vm_compute; (reflexivity || discriminate) |]).
  eexists. split; [vm_compute; reflexivity |].
  repeat split; vm_compute; (reflexivity || discriminate).
Qed.

Lemma insert_shared_buffer_rejected_witness :
  mpls_header_insert LittleEndian shared_mbuf sample_hdr = (- EINVAL, shared_mbuf, []).
Proof.
  apply (insert_shared_buffer_rejected LittleEndian shared_mbuf sample_hdr).
  left. vm_compute. reflexivity.
Defined.

(** C3 as stated does not hold: [two_segment_mbuf] is direct and has a
    reference count of 1, but it is the first of two segments, so it is
    not a direct single-segment buffer.  [mpls_header_insert] never reads
    [nb_segs]: it returns 0, not [-EINVAL], and the buffer is changed, its
    lengths 4 bytes larger and the MPLS ethertype in its frame. *)
Lemma insert_multi_segment_buffer_accepted :
  mbuf_ok two_segment_mbuf = true
  /\ nb_segs two_segment_mbuf = 2
  /\ RTE_MBUF_DIRECT two_segment_mbuf = true
  /\ rte_mbuf_refcnt_read two_segment_mbuf = 1
  /\ exists m',
       mpls_header_insert LittleEndian two_segment_mbuf sample_hdr = (0, m', [])
       /\ data_len m' = data_len two_segment_mbuf + MPLS_HDR_LEN
       /\ pkt_len m' = pkt_len two_segment_mbuf + MPLS_HDR_LEN
       /\ ether_type_field LittleEndian m'
          = rte_cpu_to_be_16 LittleEndian RTE_ETHER_TYPE_MPLS
       /\ ether_type_field LittleEndian m'
          <> ether_type_field LittleEndian two_segment_mbuf.
Proof.
  repeat (split; [vm_compute; reflexivity |]).
  eexists. split; [vm_compute; reflexivity |].
  repeat split; vm_compute; (reflexivity || discriminate).
Qed.

Lemma insert_header_effect_witness :
  exists m',
    mpls_header_insert LittleEndian ipv4_mbuf sample_hdr = (0, m', [])
    /\ pkt_len m' = pkt_len ipv4_mbuf + MPLS_HDR_LEN
    /\ ether_type_field LittleEndian m' = rte_cpu_to_be_16 LittleEndian RTE_ETHER_TYPE_MPLS.
Proof.
  destruct (insert_header_effect LittleEndian ipv4_mbuf sample_hdr)
    as (m' & E & F1 & _ & _ & _ & F5 & _).
  - reflexivity.
  - reflexivity.
  - vm_compute. discriminate.
  - vm_compute. discriminate.
  - unfold is_u32, sample_hdr. lia.
  - exists m'. auto.
Defined.

(** ** Batches *)

(** [mpls_header_insert] returns 0, [-EINVAL] or [-ENOSPC], and whenever it
    does not return 0 the buffer is the one it was given. *)
Lemma insert_failure_unchanged bo m hdr :
  fst (fst (mpls_header_insert bo m hdr)) = 0
  \/ (fst (fst (mpls_header_insert bo m hdr)) < 0
      /\ snd (fst (mpls_header_insert bo m hdr)) = m).
Proof.
  unfold mpls_header_insert.
  destruct (negb (RTE_MBUF_DIRECT m) || (rte_mbuf_refcnt_read m >? 1)).
  { right. split; [reflexivity | reflexivity]. }
  destruct (rte_pktmbuf_data_len m <? RTE_ETHER_MIN_LEN).
  { right. split; reflexivity. }
  destruct (rte_pktmbuf_prepend m MPLS_HDR_LEN).
  - left. reflexivity.
  - right. split; reflexivity.
Qed.

(** The loop of [mpls_add_hdr_burst] visits every element: element [k] of
    the result is what [mpls_header_insert] made of element [k], and the
    diagnostics of element [k] are among those of the batch. *)
Lemma add_hdr_burst_from_elements bo hdr pkts :
  forall n,
    fst (mpls_add_hdr_burst_from bo n pkts hdr)
    = map (fun m => snd (fst (mpls_header_insert bo m hdr))) pkts.
Proof.
  induction pkts as [| m rest IH]; intros n; [reflexivity |].
  cbn [mpls_add_hdr_burst_from]. unfold mpls_add_hdr_one.
  destruct (mpls_header_insert bo m hdr) as [[r m'] d] eqn:E.
  specialize (IH (n + 1)).
  destruct (mpls_add_hdr_burst_from bo (n + 1) rest hdr) as [rest' ds].
  cbn [fst snd] in *. subst rest'. cbn [map]. now rewrite E.
Qed.

Lemma add_hdr_burst_from_logged bo hdr pkts :
  forall n k m,
    pkts !! k = Some m ->
    fst (fst (mpls_header_insert bo m hdr)) < 0 ->
    In (Unable_to_add_header (n + Z.of_nat k) (- fst (fst (mpls_header_insert bo m hdr))))
       (snd (mpls_add_hdr_burst_from bo n pkts hdr)).
Proof.
  induction pkts as [| m0 rest IH]; intros n k m Hk Hr; [discriminate |].
  cbn [mpls_add_hdr_burst_from]. unfold mpls_add_hdr_one.
  destruct k as [| k].
  - injection Hk as ->.
    destruct (mpls_header_insert bo m hdr) as [[r m'] d] eqn:E.
    destruct (mpls_add_hdr_burst_from bo (n + 1) rest hdr) as [rest' ds].
    cbn [fst snd] in *. apply Z.ltb_lt in Hr. rewrite Hr.
    apply in_or_app. left. apply in_or_app. right.
    replace (n + Z.of_nat 0) with n by lia. now left.
  - specialize (IH (n + 1) k m Hk Hr).
    destruct (mpls_header_insert bo m0 hdr) as [[r m'] d].
    destruct (mpls_add_hdr_burst_from bo (n + 1) rest hdr) as [rest' ds].
    cbn [fst snd] in *. apply in_or_app. right.
    replace (n + Z.of_nat (S k)) with (n + 1 + Z.of_nat k) by lia. exact IH.
Qed.

Lemma rte_eth_tx_burst_range w t port queue pkts n :
  0 <= n -> 0 <= rte_eth_tx_burst w t port queue pkts n <= n.
Proof. unfold rte_eth_tx_burst. lia. Qed.

(** C6 (amended): in the encapsulating phase every buffer of the batch goes
    through [mpls_header_insert], whatever happened to the buffers before
    it; a buffer on which the insertion fails is reported on stderr with
    its index and stays, unmodified, at its place in the batch that is
    handed to the transmit queue together with the others. *)
Theorem failed_insert_logged_and_batch_continues
    (bo : byte_order) (w : world) (s : fwd_stream) (hdr : mpls_header_t) (t : nat) :
  let pkts := rte_eth_rx_burst w t (id (input_port s)) (rx_queue_id (input_port s)) in
  pkts <> [] ->
  exists pkts' ds num_tx,
    adding_label bo w s hdr t
    = Rx_burst (id (input_port s)) (rx_queue_id (input_port s)) pkts
      :: map Stderr ds
      ++ Tx_burst (id (output_port s)) (tx_queue_id (output_port s)) pkts' num_tx
         :: map Pktmbuf_free (drop (Z.to_nat num_tx) pkts')
    /\ length pkts' = length pkts
    /\ forall k m,
         pkts !! k = Some m ->
         pkts' !! k = Some (snd (fst (mpls_header_insert bo m hdr)))
         /\ (fst (fst (mpls_header_insert bo m hdr)) < 0 ->
             pkts' !! k = Some m
             /\ In (Unable_to_add_header (Z.of_nat k)
                      (- fst (fst (mpls_header_insert bo m hdr)))) ds).
Proof.
  intros pkts Hne. unfold adding_label. fold pkts.
  assert (Hnz : negb (Z.of_nat (length pkts) =? 0) = true).
  { destruct pkts; [congruence |]. reflexivity. }
  rewrite Hnz. unfold mpls_add_hdr_burst.
  pose proof (add_hdr_burst_from_elements bo hdr pkts 0) as Hel.
  pose proof (add_hdr_burst_from_logged bo hdr pkts 0) as Hlog.
  destruct (mpls_add_hdr_burst_from bo 0 pkts hdr) as [pkts' ds].
  cbn [fst snd] in *.
  eexists pkts', ds, _. split; [reflexivity |].
  subst pkts'. split; [apply length_map |].
  intros k m Hk.
  assert (Hk' : map (fun m0 => snd (fst (mpls_header_insert bo m0 hdr))) pkts !! k
                = Some (snd (fst (mpls_header_insert bo m hdr)))).
  { change (map ?f pkts) with (f <$> pkts). now rewrite list_lookup_fmap, Hk. }
  split; [exact Hk' |].
  intros Hr. split.
  - rewrite Hk'. f_equal.
    destruct (insert_failure_unchanged bo m hdr) as [H0 | [_ Hm]]; [lia | exact Hm].
  - apply (Hlog k m Hk Hr).
Qed.

Lemma failed_insert_logged_and_batch_continues_witness :
  exists pkts' ds num_tx,
    adding_label LittleEndian (sample_world 2) sample_stream sample_hdr 1
    = Rx_burst 0 0 [shared_mbuf; ipv4_mbuf]
      :: map Stderr ds
      ++ Tx_burst 1 0 pkts' num_tx :: map Pktmbuf_free (drop (Z.to_nat num_tx) pkts')
    /\ length pkts' = 2%nat
    /\ pkts' !! 0%nat = Some shared_mbuf
    /\ In (Unable_to_add_header 0 EINVAL) ds.
Proof.
  destruct (failed_insert_logged_and_batch_continues LittleEndian (sample_world 2)
              sample_stream sample_hdr 1) as (pkts' & ds & num_tx & E & L & H).
  - vm_compute. discriminate.
  - exists pkts', ds, num_tx. split; [exact E |]. split; [exact L |].
    destruct (H 0%nat shared_mbuf) as [_ H0]; [reflexivity |].
    destruct H0 as [H1 H2]; [vm_compute; reflexivity |].
    split; [exact H1 | exact H2].
Defined.

(** C6 as stated does not hold: with the shared buffer first in a batch of
    two, [mpls_header_insert] fails on it, and the phase still passes it to
    [rte_eth_tx_burst], which takes both buffers. *)
Lemma failed_insert_is_transmitted :
  fst (fst (mpls_header_insert LittleEndian shared_mbuf sample_hdr)) < 0
  /\ exists m',
       adding_label LittleEndian (sample_world 2) sample_stream sample_hdr 1
       = [Rx_burst 0 0 [shared_mbuf; ipv4_mbuf];
          Stderr (Unable_to_add_header 0 EINVAL);
          Tx_burst 1 0 [shared_mbuf; m'] 2].
Proof.
  split; [vm_compute; reflexivity |].
  eexists. vm_compute. reflexivity.
Qed.

(** ** The forwarding loop *)

Lemma remove_hdr_burst_from_length bo n n_pkts pkts :
  length (fst (mpls_remove_hdr_burst_from bo n n_pkts pkts)) = length pkts.
Proof.
  revert n. induction pkts as [| m rest IH]; intros n; [reflexivity |].
  cbn [mpls_remove_hdr_burst_from].
  destruct (mpls_remove_hdr_one bo n n_pkts m) as [m' d].
  specialize (IH (n + 1)).
  destruct (mpls_remove_hdr_burst_from bo (n + 1) n_pkts rest) as [rest' ds].
  cbn [fst length] in *. now rewrite IH.
Qed.

Lemma add_hdr_burst_from_length bo n pkts hdr :
  length (fst (mpls_add_hdr_burst_from bo n pkts hdr)) = length pkts.
Proof. rewrite add_hdr_burst_from_elements. apply length_map. Qed.

(** Both halves of the loop body run from their receive to the release of
    the last buffer the transmit did not take. *)
Lemma adding_label_whole bo w s hdr t : whole_phase (adding_label bo w s hdr t).
Proof.
  unfold adding_label.
  destruct (rte_eth_rx_burst w t (id (input_port s)) (rx_queue_id (input_port s)))
    as [| m pkts].
  - apply phase_idle.
  - replace (negb (Z.of_nat (length (m :: pkts)) =? 0)) with true by reflexivity.
    unfold mpls_add_hdr_burst.
    pose proof (add_hdr_burst_from_length bo 0 (m :: pkts) hdr) as HL.
    destruct (mpls_add_hdr_burst_from bo 0 (m :: pkts) hdr) as [pkts' ds].
    apply phase_batch; [discriminate | exact HL |].
    apply rte_eth_tx_burst_range. lia.
Qed.

Lemma label_removal_whole bo w s t : whole_phase (label_removal bo w s t).
Proof.
  unfold label_removal.
  destruct (rte_eth_rx_burst w t (id (output_port s)) (rx_queue_id (output_port s)))
    as [| m pkts].
  - apply phase_idle.
  - replace (negb (Z.of_nat (length (m :: pkts)) =? 0)) with true by reflexivity.
    unfold mpls_remove_hdr_burst.
    pose proof (remove_hdr_burst_from_length bo 0 (Z.of_nat (length (m :: pkts))) (m :: pkts)) as HL.
    destruct (mpls_remove_hdr_burst_from bo 0 (Z.of_nat (length (m :: pkts))) (m :: pkts))
      as [pkts' ds].
    apply phase_batch; [discriminate | exact HL |].
    apply rte_eth_tx_burst_range. lia.
Qed.

(** A run of the loop that ends is made of whole phases: the loop is left
    at its condition or between its two halves, never inside one. *)
Lemma worker_while_whole bo w s hdr :
  forall fuel t tr, fwd_worker_while bo w s fuel hdr t = Some tr -> whole_run tr.
Proof.
  induction fuel as [| fuel IH]; intros t tr H; [discriminate |].
  cbn [fwd_worker_while] in H.
  destruct (Z.eqb_spec (lets_quit_at w t) QUIT_FALSE) as [E0 | E0]; cbn [negb] in H.
  2: { injection H as <-. now apply run_exit_at_loop_condition. }
  rewrite E0 in H.
  pose proof (adding_label_whole bo w s hdr (t + 1)) as W1.
  remember (adding_label bo w s hdr (t + 1)) as ev1 eqn:Eev1.
  remember (t + 1 + length ev1)%nat as t1 eqn:Et1.
  destruct (Z.eqb_spec (lets_quit_at w t1) QUIT_TRUE) as [E1 | E1].
  { injection H as <-. rewrite E1. now apply run_exit_between_phases. }
  pose proof (label_removal_whole bo w s (t1 + 1)) as W2.
  remember (label_removal bo w s (t1 + 1)) as ev2 eqn:Eev2.
  destruct (fwd_worker_while bo w s fuel hdr (t1 + 1 + length ev2)) as [rest |] eqn:ER;
    [| discriminate].
  injection H as <-.
  apply run_iteration; [exact W1 | exact E1 | exact W2 | eapply IH, ER].
Qed.

Lemma phases_begun_app T t a b :
  phases_begun_since T t (a ++ b)
  = (phases_begun_since T t a + phases_begun_since T (t + length a) b)%nat.
Proof.
  revert t. induction a as [| e a IH]; intros t.
  - cbn. f_equal. lia.
  - cbn [app phases_begun_since length]. rewrite IH.
    replace (S t + length a)%nat with (t + S (length a))%nat by lia. lia.
Qed.

Lemma phases_begun_none T t l :
  forallb (fun e => negb (is_rx_burst e)) l = true -> phases_begun_since T t l = 0%nat.
Proof.
  revert t. induction l as [| e l IH]; intros t H; [reflexivity |].
  cbn in H. apply andb_true_iff in H as [He Hl].
  cbn [phases_begun_since]. rewrite (IH _ Hl).
  destruct (is_rx_burst e); [discriminate | reflexivity].
Qed.

Lemma forallb_map_const {A} (f : A -> event) (l : list A) :
  (forall a, is_rx_burst (f a) = false) ->
  forallb (fun e => negb (is_rx_burst e)) (map f l) = true.
Proof.
  intros Hf. induction l as [| a l IH]; [reflexivity |].
  cbn. now rewrite Hf, IH.
Qed.

(** A whole phase begins exactly once, with its first event. *)
Lemma whole_phase_begun T t ph :
  whole_phase ph ->
  phases_begun_since T t ph = (if (T <=? t)%nat then 1 else 0)%nat.
Proof.
  intros H. destruct H.
  - cbn. lia.
  - cbn [phases_begun_since is_rx_burst andb].
    rewrite phases_begun_app.
    rewrite phases_begun_none by (apply forallb_map_const; reflexivity).
    cbn [phases_begun_since is_rx_burst andb].
    rewrite phases_begun_none by (apply forallb_map_const; reflexivity).
    lia.
Qed.

Lemma whole_phase_no_read ph v : whole_phase ph -> ~ In (Read_lets_quit v) ph.
Proof.
  intros H Hin. destruct H.
  - destruct Hin as [Hin | []]. discriminate.
  - destruct Hin as [Hin | Hin]; [discriminate |].
    apply in_app_or in Hin as [Hin | Hin].
    + apply in_map_iff in Hin as (? & ? & _). discriminate.
    + destruct Hin as [Hin | Hin]; [discriminate |].
      apply in_map_iff in Hin as (? & ? & _). discriminate.
Qed.

Lemma whole_phase_nonempty ph : whole_phase ph -> (1 <= length ph)%nat.
Proof. intros H. destruct H; cbn [length]; lia. Qed.

Lemma stopped_before T t : (t < T)%nat -> lets_quit_stopped_at T t = QUIT_FALSE.
Proof.
  intros H. unfold lets_quit_stopped_at.
  now replace (t <? T)%nat with true by (symmetry; apply Nat.ltb_lt; lia).
Qed.

Lemma stopped_after T t : (T <= t)%nat -> lets_quit_stopped_at T t = QUIT_TRUE.
Proof.
  intros H. unfold lets_quit_stopped_at.
  now replace (t <? T)%nat with false by (symmetry; apply Nat.ltb_ge; lia).
Qed.

(** When [fwd_engine_stop] is called at instant [T], the loop entered at
    instant [t] ends; its last action is the one read of the flag that
    finds it set; and of the phases it runs, at most one begins at [T] or
    later, none if the loop was entered at [T] or later. *)
Lemma worker_while_stops bo w s hdr T :
  (forall t, lets_quit_at w t = lets_quit_stopped_at T t) ->
  forall fuel t,
    (T <= t + fuel)%nat -> (1 <= fuel)%nat ->
    exists tr0,
      fwd_worker_while bo w s fuel hdr t = Some (tr0 ++ [Read_lets_quit QUIT_TRUE])
      /\ (forall v, In (Read_lets_quit v) tr0 -> v = QUIT_FALSE)
      /\ (phases_begun_since T t (tr0 ++ [Read_lets_quit QUIT_TRUE])
          <= if (T <=? t)%nat then 0 else 1)%nat.
Proof.
  intros Hw. induction fuel as [| fuel IH]; intros t HT Hf; [lia |].
  cbn [fwd_worker_while]. rewrite !Hw.
  destruct (Nat.leb_spec T t) as [Hle | Hlt].
  { (* the flag is set when the loop condition is evaluated *)
    rewrite stopped_after by exact Hle.
    exists []. split; [reflexivity |]. split; [intros v [] |].
    cbn. lia. }
  rewrite stopped_before by exact Hlt.
  change (negb (QUIT_FALSE =? QUIT_FALSE)) with false. cbv iota.
  pose proof (adding_label_whole bo w s hdr (t + 1)) as W1.
  remember (adding_label bo w s hdr (t + 1)) as ev1 eqn:Eev1.
  remember (t + 1 + length ev1)%nat as t1 eqn:Et1.
  pose proof (whole_phase_nonempty _ W1) as L1.
  destruct (Nat.leb_spec T t1) as [Hle1 | Hlt1].
  { (* the flag is set when it is read between the two halves *)
    rewrite stopped_after by exact Hle1.
    change (QUIT_TRUE =? QUIT_TRUE) with true. cbv iota.
    exists (Read_lets_quit QUIT_FALSE :: ev1). split; [reflexivity |].
    split.
    - intros v [Hv | Hv]; [now injection Hv as <- |].
      now destruct (whole_phase_no_read _ v W1).
    - cbn [app phases_begun_since is_rx_burst andb]. rewrite phases_begun_app.
      rewrite (whole_phase_begun T (S t) ev1 W1).
      cbn [phases_begun_since is_rx_burst andb].
      destruct (T <=? S t)%nat; lia. }
  rewrite stopped_before by exact Hlt1.
  change (QUIT_FALSE =? QUIT_TRUE) with false. cbv iota.
  pose proof (label_removal_whole bo w s (t1 + 1)) as W2.
  remember (label_removal bo w s (t1 + 1)) as ev2 eqn:Eev2.
  pose proof (whole_phase_nonempty _ W2) as L2.
  destruct (IH (t1 + 1 + length ev2)%nat) as (tr0 & E & Hreads & Hcount); [lia | lia |].
  rewrite E.
  exists (Read_lets_quit QUIT_FALSE :: ev1 ++ Read_lets_quit QUIT_FALSE :: ev2 ++ tr0).
  split; [| split].
  - f_equal. cbn [app]. f_equal. rewrite <- !app_assoc. cbn [app].
    now rewrite <- app_assoc.
  - intros v [Hv | Hv]; [now injection Hv as <- |].
    apply in_app_or in Hv as [Hv | Hv]; [now destruct (whole_phase_no_read _ v W1) |].
    destruct Hv as [Hv | Hv]; [now injection Hv as <- |].
    apply in_app_or in Hv as [Hv | Hv]; [now destruct (whole_phase_no_read _ v W2) |].
    now apply Hreads.
  - cbn [app phases_begun_since is_rx_burst andb].
    rewrite <- !app_assoc. rewrite phases_begun_app.
    rewrite (whole_phase_begun T (S t) ev1 W1).
    cbn [app phases_begun_since is_rx_burst andb].
    rewrite <- app_assoc, phases_begun_app.
    rewrite (whole_phase_begun T (S (S t + length ev1)) ev2 W2).
    replace (S (S t + length ev1) + length ev2)%nat with (t1 + 1 + length ev2)%nat by lia.
    replace (S (S t + length ev1)) with (t1 + 1)%nat by lia.
    destruct (Nat.leb_spec T (S t)); [lia |].
    destruct (Nat.leb_spec T (t1 + 1)).
    + destruct (Nat.leb_spec T (t1 + 1 + length ev2)); lia.
    + destruct (Nat.leb_spec T (t1 + 1 + length ev2)); lia.
Qed.

(** C8: when [fwd_engine_stop] is called at instant [T], the loop of
    [fwd_worker_loop] ends (within [T + 1] iterations); the read of the flag
    that finds it set is the last thing the loop does, so no phase is
    started after it; the loop is left at its condition or between the
    encapsulating and the decapsulating phase, and each phase that was
    started ran from its receive to the release of the buffers the transmit
    did not take; and at most one phase, hence at most one
    encapsulating-plus-decapsulating cycle, begins at instant [T] or
    later. *)
Theorem stop_flag_ends_loop_within_one_cycle
    (bo : byte_order) (w : world) (s : fwd_stream) (T : nat) :
  (forall t, lets_quit_at w t = lets_quit_stopped_at T t) ->
  exists tr0,
    fwd_worker_loop bo w s (S T) = Some (tr0 ++ [Read_lets_quit QUIT_TRUE])
    /\ (forall v, In (Read_lets_quit v) tr0 -> v = QUIT_FALSE)
    /\ whole_run (tr0 ++ [Read_lets_quit QUIT_TRUE])
    /\ (phases_begun_since T 0 (tr0 ++ [Read_lets_quit QUIT_TRUE]) <= 1)%nat.
Proof.
  intros Hw. unfold fwd_worker_loop.
  destruct (worker_while_stops bo w s (stream_mpls_hdr s) T Hw (S T) 0%nat)
    as (tr0 & E & Hreads & Hcount); [lia | lia |].
  exists tr0. split; [exact E |]. split; [exact Hreads |].
  split; [eapply worker_while_whole, E |].
  destruct (T <=? 0)%nat; lia.
Qed.

Lemma stop_flag_ends_loop_within_one_cycle_witness :
  exists tr0,
    fwd_worker_loop LittleEndian (sample_world 5) sample_stream 6
    = Some (tr0 ++ [Read_lets_quit QUIT_TRUE])
    /\ (forall v, In (Read_lets_quit v) tr0 -> v = QUIT_FALSE)
    /\ whole_run (tr0 ++ [Read_lets_quit QUIT_TRUE])
    /\ (phases_begun_since 5 0 (tr0 ++ [Read_lets_quit QUIT_TRUE]) <= 1)%nat.
Proof.
  apply (stop_flag_ends_loop_within_one_cycle LittleEndian (sample_world 5) sample_stream 5).
  intros t. reflexivity.
Defined.

(** A run in which the flag is raised while the first encapsulating phase
    is under way: that phase is completed and the loop ends at the check
    between the two phases. *)
Example sample_run_stops_between_phases :
  exists m',
    fwd_worker_loop LittleEndian (sample_world 3) sample_stream 4
    = Some [Read_lets_quit QUIT_FALSE;
            Rx_burst 0 0 [shared_mbuf; ipv4_mbuf];
            Stderr (Unable_to_add_header 0 EINVAL);
            Tx_burst 1 0 [shared_mbuf; m'] 2;
            Read_lets_quit QUIT_TRUE].
Proof. eexists. vm_compute. reflexivity. Qed.

(** ** The core-list parser *)

(** *** The loop ends *)

Lemma skip_blank_length p : (length (skip_blank p) <= length p)%nat.
Proof.
  induction p as [| c r IH]; [reflexivity |].
  cbn [skip_blank]. destruct (isblank c); cbn [length]; lia.
Qed.

Lemma skip_space_length p : (length (skip_space p) <= length p)%nat.
Proof.
  induction p as [| c r IH]; [reflexivity |].
  cbn [skip_space]. destruct (isspace c); cbn [length]; lia.
Qed.

Lemma strtol_digits_length acc p :
  (length (snd (strtol_digits acc p)) <= length p)%nat.
Proof.
  revert acc. induction p as [| c r IH]; intros acc; [reflexivity |].
  cbn [strtol_digits]. destruct (isdigit c); [| reflexivity].
  specialize (IH (10 * acc + (code c - 48))). cbn [length]. lia.
Qed.

Lemma strtol_number_end_length neg p nptr :
  (length p <= length nptr)%nat ->
  (length (snd (fst (strtol_number neg p nptr))) <= length nptr)%nat.
Proof.
  intros Hp. unfold strtol_number.
  destruct (isdigit (peek p)); [| reflexivity].
  pose proof (strtol_digits_length 0 p) as Hd.
  destruct (strtol_digits 0 p) as [acc rest]. cbn [snd] in Hd.
  repeat match goal with |- context [ if ?c then _ else _ ] => destruct c end;
    cbn [fst snd]; lia.
Qed.

Lemma strtol_end_length p : (length (snd (fst (strtol p))) <= length p)%nat.
Proof.
  unfold strtol.
  pose proof (skip_space_length p) as Hs.
  destruct (skip_space p) as [| c r] eqn:E.
  { apply strtol_number_end_length. cbn. lia. }
  cbn [length] in Hs.
  destruct c as [[] [] [] [] [] [] [] []];
    apply strtol_number_end_length; cbn [length]; lia.
Qed.

(** With the fuel [parse_core_list] supplies, the loop always comes to a
    result: the model never runs out. *)
Lemma parse_loop_total fuel :
  forall p cores n count min,
    (length p < fuel)%nat ->
    exists r, parse_loop fuel p cores n count min = Some r.
Proof.
  induction fuel as [| fuel IH]; intros p cores n count min Hlen; [lia |].
  cbn [parse_loop].
  pose proof (skip_blank_length p) as H1.
  set (l1 := skip_blank p) in *.
  destruct (Ascii.eqb (peek l1) NUL); [eauto |].
  pose proof (strtol_end_length l1) as H2.
  destruct (strtol l1) as [[lval e] er]. cbn [fst snd] in H2.
  destruct (er || (to_int lval <? 0)); [eauto |].
  destruct ((to_int lval =? 0) && same_pointer l1 e); [eauto |].
  pose proof (skip_blank_length e) as H3.
  set (e2 := skip_blank e) in *.
  assert (Hadv : Ascii.eqb (peek e2) NUL = false -> (length (advance e2) < fuel)%nat).
  { destruct e2 as [| c r]; [cbn; discriminate |]. cbn [advance length] in *. lia. }
  destruct (Ascii.eqb (peek e2) ","%char || Ascii.eqb (peek e2) NUL) eqn:Ec.
  - destruct (insert_range _ _ _ _ _ _); eauto.
    destruct (Ascii.eqb (peek e2) NUL) eqn:En; [eauto |].
    apply IH, Hadv. reflexivity.
  - apply orb_false_iff in Ec as [_ En].
    destruct (Ascii.eqb (peek e2) "-"%char && (min =? INT_MAX)); [| eauto].
    apply IH, Hadv, En.
Qed.

(** [parse_core_list] returns on every input: the fuel it gives its loop
    is never used up. *)
Theorem parse_core_list_total (list_ : string) (cores : list Z) (cores_len : Z) :
  exists r, parse_core_list list_ cores cores_len = Some r.
Proof.
  unfold parse_core_list. destruct (cores_len =? 0); [eauto |].
  apply parse_loop_total.
  assert (H : forall s, length (list_ascii_of_string s) = String.length s).
  { induction s as [| c s IH]; [reflexivity | cbn; now rewrite IH]. }
  rewrite H. lia.
Qed.

(** *** Inputs on which the parser was run *)

Example parse_range : parse_core_list "0-3" [0; 0; 0; 0] 4 = Some (Returns 4 [0; 1; 2; 3]).
Proof. vm_compute. reflexivity. Qed.

Example parse_unordered : parse_core_list "3,1,2" [0; 0; 0; 0] 4 = Some (Returns 3 [1; 2; 3; 0]).
Proof. vm_compute. reflexivity. Qed.

Example parse_empty_token : parse_core_list "2,,3" [0; 0; 0; 0] 4 = Some (Returns 0 [2; 0; 0; 0]).
Proof. vm_compute. reflexivity. Qed.

Example parse_negative : parse_core_list "1,-2" [0; 0; 0; 0] 4 = Some (Returns 0 [1; 0; 0; 0]).
Proof. vm_compute. reflexivity. Qed.

Example parse_dangling_minus_inside :
  parse_core_list "2-,3" [0; 0; 0; 0] 4 = Some (Returns 0 [0; 0; 0; 0]).
Proof. vm_compute. reflexivity. Qed.

Example parse_unexpected_character :
  parse_core_list "2,=3" [0; 0; 0; 0] 4 = Some (Returns 0 [2; 0; 0; 0]).
Proof. vm_compute. reflexivity. Qed.

Example parse_range_opened_twice :
  parse_core_list "1-2-3" [0; 0; 0; 0] 4 = Some (Returns 0 [0; 0; 0; 0]).
Proof. vm_compute. reflexivity. Qed.

Example parse_over_capacity :
  parse_core_list "1,2,3" [0; 0] 2 = Some (Returns 0 [1; 2]).
Proof. vm_compute. reflexivity. Qed.

Example parse_trailing_comma :
  parse_core_list "2," [0; 0; 0; 0] 4 = Some (Returns 1 [2; 0; 0; 0]).
Proof. vm_compute. reflexivity. Qed.

Example parse_reversed_range :
  parse_core_list "5-3,7" [0; 0; 0; 0] 4 = Some (Returns 1 [7; 0; 0; 0]).
Proof. vm_compute. reflexivity. Qed.

Example parse_only_reversed_ranges :
  parse_core_list "5-3,9-8" [0; 0; 0; 0] 4 = Some (Returns 0 [0; 0; 0; 0]).
Proof. vm_compute. reflexivity. Qed.

Example parse_int_max_alone :
  parse_core_list "2147483647" [0; 0; 0; 0] 4 = Some Undefined_behaviour.
Proof. vm_compute. reflexivity. Qed.

(** C5: the input ["1,2-"] ends in a dangling ['-'], and [parse_core_list]
    returns 1, the number of values collected before it, not 0: the loop is
    left through the [break] taken at the end of the string, with the range
    still open. *)
Theorem dangling_minus_at_end_keeps_earlier_values :
  parse_core_list "1,2-" [0; 0; 0; 0] 4 = Some (Returns 1 [1; 0; 0; 0]).
Proof. vm_compute. reflexivity. Qed.

(** C9: in ["2147483647-3,7"] the range is reversed, yet [parse_core_list]
    inserts its high end 3: the low end is [INT_MAX], the value [min] holds
    when no range is open, so that [if (min == INT_MAX) min = val;] takes
    the range for a single number. *)
Theorem reversed_range_from_int_max_inserts_high_end :
  parse_core_list "2147483647-3,7" [0; 0; 0; 0] 4 = Some (Returns 2 [3; 7; 0; 0]).
Proof. vm_compute. reflexivity. Qed.

(** *** [put_in_order] inserts in ascending order *)

Lemma to_unsigned_to_int c : 0 <= c < 2 ^ 32 -> to_unsigned (to_int c) = c.
Proof.
  intros Hc. unfold to_unsigned, to_int.
  rewrite Zminus_mod_idemp_l.
  replace (c + 2 ^ 31 - 2 ^ 31) with c by lia. apply Z.mod_small. exact Hc.
Qed.

Lemma to_int_small c : 0 <= c < 2 ^ 31 -> to_int c = c.
Proof. intros Hc. unfold to_int. rewrite Z.mod_small by lia. lia. Qed.

Lemma aget_middle (A X : list Z) a : aget (A ++ a :: X) (Z.of_nat (length A)) = a.
Proof. unfold aget. rewrite Nat2Z.id, list_lookup_middle by reflexivity. reflexivity. Qed.

Lemma aset_middle (A X : list Z) a v :
  aset (A ++ a :: X) (Z.of_nat (length A)) v = A ++ v :: X.
Proof.
  unfold aset. rewrite Nat2Z.id.
  replace (length A) with (length A + 0)%nat at 1 by lia.
  now rewrite insert_app_r.
Qed.

Lemma scan_prefix_split v l :
  l = fst (fst (scan_prefix v l)) ++ snd (fst (scan_prefix v l)).
Proof.
  induction l as [| a r IH]; [reflexivity |].
  cbn [scan_prefix]. destruct (a >? v); [reflexivity |].
  destruct (a =? v); [reflexivity |].
  destruct (scan_prefix v r) as [[A B] f]. cbn [fst snd] in *. now rewrite IH at 1.
Qed.

Lemma insert_ascending_scan v l :
  insert_ascending v l
  = if snd (scan_prefix v l) then l
    else fst (fst (scan_prefix v l)) ++ v :: snd (fst (scan_prefix v l)).
Proof.
  induction l as [| a r IH]; [reflexivity |].
  cbn [scan_prefix insert_ascending]. destruct (a >? v); [reflexivity |].
  destruct (a =? v); [reflexivity |].
  rewrite IH. destruct (scan_prefix v r) as [[A B] f]. cbn [fst snd].
  destruct f; reflexivity.
Qed.

Lemma u32_small x : 0 <= x < 2 ^ 32 -> u32 x = x.
Proof. apply Z.mod_small. Qed.

Lemma put_scan_spec v R :
  forall l A0 fuel,
    (length l <= fuel)%nat ->
    Z.of_nat (length A0 + length l) < 2 ^ 32 ->
    put_scan fuel v (Z.of_nat (length A0 + length l)) (A0 ++ l ++ R) (Z.of_nat (length A0))
    = (Z.of_nat (length A0 + length (fst (fst (scan_prefix v l)))), snd (scan_prefix v l)).
Proof.
  induction l as [| a r IH]; intros A0 fuel Hf Hb.
  - cbn [scan_prefix fst snd length]. rewrite Nat.add_0_r.
    destruct fuel; [reflexivity |]. cbn [put_scan].
    now rewrite Z.ltb_irrefl.
  - destruct fuel as [| fuel]; [cbn in Hf; lia |].
    cbn [put_scan scan_prefix].
    replace (Z.of_nat (length A0) <? Z.of_nat (length A0 + length (a :: r))) with true
      by (symmetry; apply Z.ltb_lt; cbn [length]; lia).
    cbn [app]. rewrite aget_middle.
    destruct (a >? v); [cbn [fst snd length]; now rewrite Nat.add_0_r |].
    destruct (a =? v); [cbn [fst snd length]; now rewrite Nat.add_0_r |].
    rewrite u32_small by (cbn [length] in Hb; lia).
    specialize (IH (A0 ++ [a]) fuel).
    rewrite length_app in IH. cbn [length] in IH, Hf, Hb |- *.
    replace (Z.of_nat (length A0) + 1) with (Z.of_nat (length A0 + 1)) by lia.
    replace (length A0 + S (length r))%nat with (length A0 + 1 + length r)%nat by lia.
    rewrite <- app_assoc in IH. cbn [app] in IH.
    rewrite IH by lia.
    destruct (scan_prefix v r) as [[A B] f]. cbn [fst snd length]. f_equal. lia.
Qed.

Lemma put_shift_spec g R' :
  forall B A tmp fuel,
    (length B + 1 <= fuel)%nat ->
    Z.of_nat (length A + length B + 1) < 2 ^ 32 ->
    put_shift fuel (Z.of_nat (length A + length B + 1)) (A ++ B ++ g :: R')
      (Z.of_nat (length A)) tmp
    = A ++ tmp :: B ++ R'.
Proof.
  induction B as [| b B IH]; intros A tmp fuel Hf Hb.
  - destruct fuel as [| fuel]; [cbn in Hf; lia |].
    cbn [put_shift app length].
    replace (Z.of_nat (length A) <? Z.of_nat (length A + 0 + 1)) with true
      by (symmetry; apply Z.ltb_lt; lia).
    rewrite aset_middle, aget_middle.
    rewrite u32_small by (cbn [length] in Hb; lia).
    destruct fuel; [reflexivity |]. cbn [put_shift].
    replace (Z.of_nat (length A) + 1 <? Z.of_nat (length A + 0 + 1)) with false
      by (symmetry; apply Z.ltb_ge; lia).
    reflexivity.
  - destruct fuel as [| fuel]; [cbn in Hf; lia |].
    cbn [put_shift app length] in *.
    replace (Z.of_nat (length A) <? Z.of_nat (length A + S (length B) + 1)) with true
      by (symmetry; apply Z.ltb_lt; lia).
    rewrite aset_middle, aget_middle.
    rewrite u32_small by lia.
    specialize (IH (A ++ [tmp]) b fuel).
    rewrite length_app in IH. cbn [length] in IH.
    replace (Z.of_nat (length A) + 1) with (Z.of_nat (length A + 1)) by lia.
    replace (length A + S (length B) + 1)%nat with (length A + 1 + length B + 1)%nat by lia.
    rewrite <- !app_assoc in IH. cbn [app] in IH.
    apply IH; lia.
Qed.

(** [put_in_order] on an array that holds the sequence [P] in front of the
    unused places [R]: it leaves the array alone when [val] is found, fails
    when no place is left, and otherwise leaves [insert_ascending val P] in
    front of one unused place less. *)
Lemma put_in_order_spec v P R :
  Z.of_nat (length (P ++ R)) < 2 ^ 32 - 1 ->
  put_in_order v (Z.of_nat (length P)) (P ++ R) (Z.of_nat (length (P ++ R)))
  = if snd (scan_prefix v P) then (to_int (Z.of_nat (length P)), P ++ R)
    else match R with
         | [] => (-1, P ++ R)
         | g :: R' =>
             (to_int (Z.of_nat (length P) + 1), insert_ascending v P ++ R')
         end.
Proof.
  intros Hb. rewrite length_app in Hb. unfold put_in_order. rewrite Nat2Z.id.
  pose proof (put_scan_spec v R P [] (length P)) as Hs.
  cbn [app length] in Hs. rewrite !Nat.add_0_l in Hs.
  change (Z.of_nat 0) with 0 in Hs.
  rewrite Hs by lia. clear Hs.
  rewrite insert_ascending_scan.
  pose proof (scan_prefix_split v P) as Hsplit.
  destruct (scan_prefix v P) as [[A B] f]. cbn [fst snd] in *.
  destruct f; [reflexivity |].
  rewrite u32_small by lia. rewrite length_app.
  destruct R as [| g R'].
  { cbn [length]. rewrite (gtb_true (Z.of_nat (length P) + 1)) by lia. reflexivity. }
  cbn [length] in *.
  rewrite (gtb_false (Z.of_nat (length P) + 1)) by lia.
  f_equal. subst P. rewrite length_app in *. rewrite <- !app_assoc.
  rewrite Z2Nat.inj_add, !Nat2Z.id by lia.
  destruct B as [| b B].
  - cbn [app length] in *. rewrite Nat.add_0_r in *.
    rewrite aget_middle, aset_middle.
    rewrite u32_small by lia.
    change (Z.to_nat 1) with 1%nat.
    replace (length A + 1)%nat with (S (length A)) by lia. cbn [put_shift].
    replace (Z.of_nat (length A) + 1 <? Z.of_nat (length A) + 1) with false
      by (symmetry; apply Z.ltb_irrefl).
    reflexivity.
  - cbn [app]. rewrite aget_middle, aset_middle.
    rewrite u32_small by lia.
    pose proof (put_shift_spec g R' B (A ++ [v]) b (length A + length (b :: B) + Z.to_nat 1)) as Hsh.
    rewrite length_app in Hsh. cbn [length] in Hsh |- *.
    rewrite <- !app_assoc in Hsh. cbn [app] in Hsh.
    replace (Z.of_nat (length A) + 1) with (Z.of_nat (length A + 1)) by lia.
    replace (Z.of_nat (length A + S (length B)) + 1)
      with (Z.of_nat (length A + 1 + length B + 1)) by lia.
    cbn [length] in Hb. change (Z.to_nat 1) with 1%nat in *.
    apply Hsh; lia.
Qed.

(** *** The sequence that results *)

Lemma elem_of_insert_ascending v l x :
  x ∈ insert_ascending v l <-> x = v \/ x ∈ l.
Proof.
  induction l as [| a r IH].
  - cbn. rewrite list_elem_of_singleton, elem_of_nil. tauto.
  - cbn [insert_ascending]. destruct (a >? v).
    { rewrite elem_of_cons. tauto. }
    destruct (Z.eqb_spec a v) as [-> | Hne].
    { rewrite elem_of_cons. tauto. }
    rewrite !elem_of_cons, IH. tauto.
Qed.

Lemma length_insert_ascending v l :
  length (insert_ascending v l)
  = (length l + if snd (scan_prefix v l) then 0 else 1)%nat.
Proof.
  induction l as [| a r IH]; [reflexivity |].
  cbn [insert_ascending scan_prefix]. destruct (a >? v); [cbn; lia |].
  destruct (a =? v); [cbn; lia |].
  cbn [length]. rewrite IH. destruct (scan_prefix v r) as [[A B] f]. cbn [snd]. lia.
Qed.

Lemma insert_ascending_sorted v l :
  StronglySorted Z.lt l -> StronglySorted Z.lt (insert_ascending v l).
Proof.
  induction l as [| a r IH]; intros Hs.
  - cbn. repeat constructor.
  - apply StronglySorted_inv in Hs as [Hr Ha].
    cbn [insert_ascending].
    destruct (Z.gtb_spec a v) as [Hgt | Hle].
    { apply SSorted_cons; [now apply SSorted_cons |].
      constructor; [lia |]. eapply Forall_impl; [exact Ha |]. cbn. intros; lia. }
    destruct (Z.eqb_spec a v) as [-> | Hne]; [now apply SSorted_cons |].
    apply SSorted_cons; [now apply IH |].
    apply Forall_forall. intros x Hx. apply elem_of_insert_ascending in Hx as [-> | Hx].
    + lia.
    + rewrite Forall_forall in Ha. now apply Ha.
Qed.

Lemma sorted_NoDup l : StronglySorted Z.lt l -> NoDup l.
Proof.
  induction l as [| a r IH]; intros Hs; [constructor |].
  apply StronglySorted_inv in Hs as [Hr Ha].
  constructor; [| now apply IH].
  intros Hin. rewrite Forall_forall in Ha. specialize (Ha _ Hin). lia.
Qed.

Lemma length_insert_all_ge l vs : (length l <= length (insert_all l vs))%nat.
Proof.
  revert l. induction vs as [| v vs IH]; intros l; [reflexivity |].
  cbn [insert_all foldl]. etransitivity; [| apply IH].
  rewrite length_insert_ascending. lia.
Qed.

Lemma elem_of_insert_all l vs x : x ∈ insert_all l vs <-> x ∈ l \/ x ∈ vs.
Proof.
  revert l. induction vs as [| v vs IH]; intros l.
  - cbn. rewrite elem_of_nil. tauto.
  - cbn [insert_all foldl]. fold (insert_all (insert_ascending v l) vs).
    rewrite IH, elem_of_insert_ascending, elem_of_cons. tauto.
Qed.

Lemma insert_all_sorted l vs :
  StronglySorted Z.lt l -> StronglySorted Z.lt (insert_all l vs).
Proof.
  revert l. induction vs as [| v vs IH]; intros l Hs; [exact Hs |].
  cbn [insert_all foldl]. apply IH, insert_ascending_sorted, Hs.
Qed.

Lemma insert_all_app l vs ws :
  insert_all l (vs ++ ws) = insert_all (insert_all l vs) ws.
Proof. unfold insert_all. apply foldl_app. Qed.

Lemma length_insert_all_distinct vs :
  length (insert_all [] vs) = length (remove_dups vs).
Proof.
  apply Permutation_length, NoDup_Permutation.
  - apply sorted_NoDup, insert_all_sorted. constructor.
  - apply NoDup_remove_dups.
  - intros x. rewrite elem_of_insert_all, elem_of_remove_dups, elem_of_nil. tauto.
Qed.

(** *** The loop over a range *)

Lemma insert_range_spec :
  forall (k : nat) lo P R,
    0 <= lo -> lo + Z.of_nat k <= INT_MAX ->
    Z.of_nat (length (P ++ R)) < 2 ^ 32 - 1 ->
    (length (insert_all P (seqZ lo (Z.of_nat k))) <= length (P ++ R))%nat ->
    exists R',
      insert_range k lo (lo + Z.of_nat k - 1) (Z.of_nat (length P)) (P ++ R)
        (Z.of_nat (length (P ++ R)))
      = Range_done (Z.of_nat (length (insert_all P (seqZ lo (Z.of_nat k)))))
          (insert_all P (seqZ lo (Z.of_nat k)) ++ R')
      /\ length (insert_all P (seqZ lo (Z.of_nat k)) ++ R') = length (P ++ R).
Proof.
  induction k as [| k IH]; intros lo P R Hlo Hhi Hlen Hcap.
  - exists R. cbn. split; reflexivity.
  - cbn [insert_range]. unfold INT_MAX in *.
    replace (lo <=? lo + Z.of_nat (S k) - 1) with true by (symmetry; apply Z.leb_le; lia).
    unfold to_unsigned at 1. rewrite (Z.mod_small lo) by lia.
    rewrite put_in_order_spec by exact Hlen.
    rewrite seqZ_cons in * by lia.
    cbn [insert_all foldl] in *. fold (insert_all (insert_ascending lo P)) in *.
    replace (Z.pred (Z.of_nat (S k))) with (Z.of_nat k) in * by lia.
    replace (lo + Z.of_nat (S k) - 1) with (Z.succ lo + Z.of_nat k - 1) by lia.
    pose proof (length_insert_all_ge (insert_ascending lo P) (seqZ (Z.succ lo) (Z.of_nat k))) as Hge.
    pose proof (length_insert_ascending lo P) as Hli.
    pose proof (insert_ascending_scan lo P) as Hscan.
    rewrite length_app in Hlen, Hcap.
    destruct (snd (scan_prefix lo P)).
    + (* the value is already there *)
      rewrite to_unsigned_to_int by lia.
      replace (Z.of_nat (length P) =? to_unsigned (-1)) with false
        by (symmetry; apply Z.eqb_neq; change (to_unsigned (-1)) with (2 ^ 32 - 1); lia).
      replace (lo =? 2147483647) with false by (symmetry; apply Z.eqb_neq; lia).
      rewrite Hscan in *.
      replace (lo + 1) with (Z.succ lo) by lia.
      apply IH; rewrite ?length_app; try lia. exact Hcap.
    + destruct R as [| g R'].
      { cbn [length] in *. unfold insert_all in Hge. lia. }
      rewrite to_unsigned_to_int by (cbn [length] in Hlen; lia).
      cbn [length] in Hlen, Hcap.
      replace (Z.of_nat (length P) + 1 =? to_unsigned (-1)) with false
        by (symmetry; apply Z.eqb_neq; change (to_unsigned (-1)) with (2 ^ 32 - 1); lia).
      replace (lo =? 2147483647) with false by (symmetry; apply Z.eqb_neq; lia).
      replace (Z.of_nat (length P) + 1) with (Z.of_nat (length (insert_ascending lo P)))
        by (rewrite Hli; lia).
      replace (Z.of_nat (length (P ++ g :: R')))
        with (Z.of_nat (length (insert_ascending lo P ++ R')))
        by (rewrite !length_app, Hli; cbn [length]; lia).
      replace (length (P ++ g :: R')) with (length (insert_ascending lo P ++ R'))
        by (rewrite !length_app, Hli; cbn [length]; lia).
      replace (lo + 1) with (Z.succ lo) by lia.
      apply IH; rewrite ?length_app, ?Hli; try lia.
      etransitivity; [exact Hcap | lia].
Qed.

(** *** Reading a number *)

Lemma isblank_blank_char b : isblank (blank_char b) = true.
Proof. now destruct b. Qed.

Lemma isblank_digit_char d : isblank (digit_char d) = false.
Proof. now destruct d. Qed.

Lemma isspace_digit_char d : isspace (digit_char d) = false.
Proof. now destruct d. Qed.

Lemma isdigit_digit_char d : isdigit (digit_char d) = true.
Proof. now destruct d. Qed.

Lemma isdigit_blank_char b : isdigit (blank_char b) = false.
Proof. now destruct b. Qed.

Lemma digit_char_value d : code (digit_char d) - 48 = digit_value d.
Proof. now destruct d. Qed.

Lemma digit_char_not_nul d : Ascii.eqb (digit_char d) NUL = false.
Proof. now destruct d. Qed.

Lemma digit_value_range d : 0 <= digit_value d <= 9.
Proof. destruct d; cbn; lia. Qed.

Lemma digits_value_nonneg ds : forall acc, 0 <= acc -> 0 <= digits_value acc ds.
Proof.
  induction ds as [| d ds IH]; intros acc Ha; [exact Ha |].
  cbn [digits_value foldl]. apply IH. pose proof (digit_value_range d). lia.
Qed.

Lemma skip_blank_blanks bs p : skip_blank (map blank_char bs ++ p) = skip_blank p.
Proof.
  induction bs as [| b bs IH]; [reflexivity |].
  cbn [map app skip_blank]. now rewrite isblank_blank_char.
Qed.

Lemma skip_blank_separator p : at_separator p = true -> skip_blank p = p.
Proof.
  destruct p as [| c r]; [reflexivity |]. cbn [at_separator skip_blank]. intros H.
  apply orb_true_iff in H as [H | H]; apply Ascii.eqb_eq in H; subst c; reflexivity.
Qed.

Lemma isdigit_after_number bs p :
  at_separator p = true -> isdigit (peek (map blank_char bs ++ p)) = false.
Proof.
  intros H. destruct bs as [| b bs]; [| cbn; apply isdigit_blank_char].
  destruct p as [| c r]; [reflexivity |]. cbn [map app peek]. cbn [at_separator] in H.
  apply orb_true_iff in H as [H | H]; apply Ascii.eqb_eq in H; subst c; reflexivity.
Qed.

Lemma strtol_digits_spec ds :
  forall acc rest,
    isdigit (peek rest) = false ->
    strtol_digits acc (map digit_char ds ++ rest) = (digits_value acc ds, rest).
Proof.
  induction ds as [| d ds IH]; intros acc rest Hr.
  - cbn [map app digits_value foldl]. destruct rest as [| c r]; [reflexivity |].
    cbn [strtol_digits]. cbn [peek] in Hr. now rewrite Hr.
  - cbn [map app strtol_digits]. rewrite isdigit_digit_char, digit_char_value.
    now apply IH.
Qed.

Lemma strtol_spec d ds rest :
  isdigit (peek rest) = false ->
  digits_value 0 (d :: ds) <= LONG_MAX ->
  strtol (map digit_char (d :: ds) ++ rest) = (digits_value 0 (d :: ds), rest, false).
Proof.
  intros Hr Hmax.
  pose proof (digits_value_nonneg (d :: ds) 0 ltac:(lia)) as Hnn.
  assert (Hn : strtol_number false (map digit_char (d :: ds) ++ rest)
                 (map digit_char (d :: ds) ++ rest)
               = (digits_value 0 (d :: ds), rest, false)).
  { unfold strtol_number. cbn [map app peek]. rewrite isdigit_digit_char.
    change (digit_char d :: map digit_char ds ++ rest)
      with (map digit_char (d :: ds) ++ rest).
    rewrite strtol_digits_spec by exact Hr.
    rewrite (gtb_false _ LONG_MAX) by exact Hmax.
    replace (digits_value 0 (d :: ds) <? LONG_MIN) with false
      by (symmetry; apply Z.ltb_ge; unfold LONG_MIN; lia).
    reflexivity. }
  unfold strtol. cbn [map app skip_space]. rewrite isspace_digit_char.
  cbn [map app] in Hn. rewrite <- Hn. now destruct d.
Qed.

(** One iteration of the loop of [parse_core_list] on a number that is
    followed by the end of the string, a comma or a hyphen. *)
Lemma parse_loop_number fuel n tail cores len count min :
  at_separator tail = true ->
  number_value n < INT_MAX ->
  parse_loop (S fuel) (render_number n ++ tail) cores len count min
  = if Ascii.eqb (peek tail) ","%char || Ascii.eqb (peek tail) NUL then
      let min' := if min =? INT_MAX then number_value n else min in
      match insert_range (Z.to_nat (number_value n - min' + 1)) min' (number_value n)
              count cores len with
      | Range_full c => Some (Returns 0 c)
      | Range_overflow => Some Undefined_behaviour
      | Range_done count' c =>
          if Ascii.eqb (peek tail) NUL then Some (Returns count' c)
          else parse_loop fuel (advance tail) c len count' INT_MAX
      end
    else if Ascii.eqb (peek tail) "-"%char && (min =? INT_MAX) then
      parse_loop fuel (advance tail) cores len count (number_value n)
    else Some (Returns 0 cores).
Proof.
  intros Hsep Hmax. unfold INT_MAX in Hmax.
  pose proof (digits_value_nonneg (first_digit n :: more_digits n) 0 ltac:(lia)) as Hnn.
  fold (number_value n) in Hnn.
  cbn [parse_loop]. unfold render_number.
  rewrite <- !app_assoc, skip_blank_blanks.
  cbn [map app skip_blank]. rewrite isblank_digit_char.
  cbn [peek]. rewrite digit_char_not_nul.
  change (digit_char (first_digit n)
          :: map digit_char (more_digits n) ++ map blank_char (blanks_after n) ++ tail)
    with (map digit_char (first_digit n :: more_digits n)
          ++ map blank_char (blanks_after n) ++ tail).
  rewrite strtol_spec;
    [| now apply isdigit_after_number | fold (number_value n); unfold LONG_MAX; lia].
  fold (number_value n).
  rewrite to_int_small by lia.
  replace (number_value n <? 0) with false by (symmetry; apply Z.ltb_ge; lia).
  cbn [orb].
  replace (same_pointer _ _) with false.
  2: { symmetry. unfold same_pointer. apply Nat.eqb_neq.
       rewrite length_app. cbn [map length]. lia. }
  rewrite andb_false_r.
  rewrite skip_blank_blanks, skip_blank_separator by exact Hsep.
  reflexivity.
Qed.

(** *** The loop over the tokens *)

Lemma render_cons t ts :
  render (t :: ts)
  = render_token t ++ match ts with [] => [] | _ :: _ => ","%char :: render ts end.
Proof. destruct ts; cbn [render]; [now rewrite app_nil_r | reflexivity]. Qed.

Lemma render_number_nonempty n : (1 <= length (render_number n))%nat.
Proof. unfold render_number. rewrite !length_app. cbn [map length]. lia. Qed.

Lemma seqZ_one v : seqZ v 1 = [v].
Proof. rewrite seqZ_cons by lia. now rewrite seqZ_nil by lia. Qed.

Lemma number_value_nonneg n : 0 <= number_value n.
Proof. apply digits_value_nonneg. lia. Qed.

(** On well-formed input whose numbers are below [INT_MAX] and whose
    values fit the array, the loop leaves in the array the sequence obtained
    by inserting the denoted values in the order of the input, and returns
    its length. *)
Lemma parse_tokens :
  forall ts fuel P R,
    (length (render ts) < fuel)%nat ->
    numbers_below_int_max ts = true ->
    Z.of_nat (length (P ++ R)) < 2 ^ 32 - 1 ->
    (length (insert_all P (denoted ts)) <= length (P ++ R))%nat ->
    exists R',
      parse_loop fuel (render ts) (P ++ R) (Z.of_nat (length (P ++ R)))
        (Z.of_nat (length P)) INT_MAX
      = Some (Returns (Z.of_nat (length (insert_all P (denoted ts))))
                (insert_all P (denoted ts) ++ R'))
      /\ length (insert_all P (denoted ts) ++ R') = length (P ++ R).
Proof.
  induction ts as [| t ts IH]; intros fuel P R Hfuel Hnum Hlen Hcap.
  { destruct fuel; [cbn in Hfuel; lia |]. exists R. split; reflexivity. }
  rewrite render_cons in *.
  set (tail := match ts with [] => [] | _ :: _ => ","%char :: render ts end) in *.
  assert (Hsep : at_separator tail = true) by (destruct ts; reflexivity).
  assert (Hpk : Ascii.eqb (peek tail) ","%char || Ascii.eqb (peek tail) NUL = true)
    by (destruct ts; reflexivity).
  cbn [numbers_below_int_max forallb] in Hnum.
  apply andb_true_iff in Hnum as [Ht Hts]. fold (numbers_below_int_max ts) in Hts.
  cbn [denoted] in *. rewrite insert_all_app in *.
  pose proof (length_insert_all_ge (insert_all P (token_values t)) (denoted ts)) as Hmono.
  destruct fuel as [| fuel]; [lia |].
  (* what is left to do once the values of [t] are in the array *)
  assert (Hrest : forall P1 R1,
    P1 = insert_all P (token_values t) ->
    length (P1 ++ R1) = length (P ++ R) ->
    forall fuel', (length tail <= fuel')%nat ->
    exists R',
      (if Ascii.eqb (peek tail) NUL
       then Some (Returns (Z.of_nat (length P1)) (P1 ++ R1))
       else parse_loop fuel' (advance tail) (P1 ++ R1) (Z.of_nat (length (P ++ R)))
              (Z.of_nat (length P1)) INT_MAX)
      = Some (Returns (Z.of_nat (length (insert_all P1 (denoted ts))))
                (insert_all P1 (denoted ts) ++ R'))
      /\ length (insert_all P1 (denoted ts) ++ R') = length (P ++ R)).
  { intros P1 R1 HP1 L1 fuel' Hf'. subst tail. destruct ts as [| t' ts'].
    - exists R1. split; [reflexivity | exact L1].
    - change (Ascii.eqb (peek (","%char :: render (t' :: ts'))) NUL) with false.
      cbn [advance]. cbn [length] in Hf'.
      rewrite <- L1.
      apply IH; [lia | exact Hts | rewrite L1; exact Hlen |].
      rewrite L1, HP1. exact Hcap. }
  destruct t as [n | lo hi].
  - (* a single number *)
    cbn [render_token token_values token_numbers forallb] in *.
    rewrite andb_true_r in Ht. apply Z.ltb_lt in Ht.
    pose proof (number_value_nonneg n) as Hnn.
    rewrite parse_loop_number by assumption.
    rewrite Hpk. cbv zeta. rewrite Z.eqb_refl.
    replace (number_value n - number_value n + 1) with 1 by lia.
    change (Z.to_nat 1) with 1%nat.
    destruct (insert_range_spec 1 (number_value n) P R) as (R1 & E1 & L1);
      [lia | unfold INT_MAX in *; lia | exact Hlen | |].
    { change (Z.of_nat 1) with 1. rewrite seqZ_one. lia. }
    change (Z.of_nat 1) with 1 in E1, L1. rewrite seqZ_one in E1, L1.
    replace (number_value n + 1 - 1) with (number_value n) in E1 by lia.
    rewrite E1.
    apply (Hrest _ R1 eq_refl L1).
    rewrite !length_app in Hfuel. pose proof (render_number_nonempty n). lia.
  - (* a range *)
    cbn [render_token token_values token_numbers forallb] in *.
    rewrite andb_true_r in Ht. apply andb_true_iff in Ht as [Hlo Hhi].
    apply Z.ltb_lt in Hlo. apply Z.ltb_lt in Hhi.
    pose proof (number_value_nonneg lo) as Hlo0.
    pose proof (number_value_nonneg hi) as Hhi0.
    pose proof (render_number_nonempty lo) as Llo.
    pose proof (render_number_nonempty hi) as Lhi.
    rewrite <- !app_assoc in *. cbn [app] in *.
    rewrite !length_app in Hfuel. cbn [length] in Hfuel. rewrite length_app in Hfuel.
    rewrite parse_loop_number; [| reflexivity | assumption].
    change (Ascii.eqb (peek ("-"%char :: render_number hi ++ tail)) ","%char
            || Ascii.eqb (peek ("-"%char :: render_number hi ++ tail)) NUL) with false.
    change (Ascii.eqb (peek ("-"%char :: render_number hi ++ tail)) "-"%char) with true.
    rewrite Z.eqb_refl. cbn [andb advance]. cbv iota.
    destruct fuel as [| fuel]; [lia |].
    rewrite parse_loop_number by assumption.
    rewrite Hpk. cbv zeta.
    replace (number_value lo =? INT_MAX) with false
      by (symmetry; apply Z.eqb_neq; lia).
    destruct (Z.le_gt_cases (number_value lo) (number_value hi)) as [Hle | Hgt].
    + (* low <= high *)
      destruct (insert_range_spec (Z.to_nat (number_value hi - number_value lo + 1))
                  (number_value lo) P R) as (R1 & E1 & L1);
        [lia | unfold INT_MAX in *; lia | exact Hlen | |].
      { rewrite Z2Nat.id by lia. lia. }
      rewrite Z2Nat.id in E1, L1 by lia.
      replace (number_value lo + (number_value hi - number_value lo + 1) - 1)
        with (number_value hi) in E1 by lia.
      rewrite E1.
      apply (Hrest _ R1 eq_refl L1). lia.
    + (* low > high: the loop is not entered *)
      replace (Z.to_nat (number_value hi - number_value lo + 1)) with 0%nat by lia.
      cbn [insert_range].
      assert (E : insert_all P (seqZ (number_value lo) (number_value hi - number_value lo + 1)) = P)
        by (rewrite seqZ_nil by lia; reflexivity).
      rewrite E in *.
      destruct (Hrest P R eq_refl eq_refl fuel) as (R' & E' & L'); [lia |].
      exists R'. split; assumption.
Qed.

(** *** Well-formed input *)

Lemma elem_of_denoted ts x :
  x ∈ denoted ts <-> exists t, t ∈ ts /\ token_denotes t x.
Proof.
  induction ts as [| t ts IH].
  - cbn. rewrite elem_of_nil. split; [tauto |]. intros (t & Ht & _).
    now apply elem_of_nil in Ht.
  - cbn [denoted]. rewrite elem_of_app, IH. split.
    + intros [Hx | (t' & Ht' & Hx)].
      * exists t. split; [apply list_elem_of_here |].
        destruct t as [n | lo hi]; cbn [token_values token_denotes] in *.
        -- now apply list_elem_of_singleton in Hx.
        -- apply elem_of_seqZ in Hx. lia.
      * exists t'. split; [now apply list_elem_of_further | exact Hx].
    + intros (t' & Ht' & Hx). apply elem_of_cons in Ht' as [-> | Ht'].
      * left. destruct t as [n | lo hi]; cbn [token_values token_denotes] in *.
        -- now apply list_elem_of_singleton.
        -- apply elem_of_seqZ. lia.
      * right. exists t'. split; assumption.
Qed.

Lemma length_list_ascii_of_string s :
  length (list_ascii_of_string s) = String.length s.
Proof. induction s as [| c s IH]; [reflexivity | cbn; now rewrite IH]. Qed.

Lemma denoted_nil_of_no_distinct ts : remove_dups (denoted ts) = [] -> denoted ts = [].
Proof.
  intros E. destruct (denoted ts) as [| v vs] eqn:Ev; [reflexivity |].
  assert (Hin : v ∈ remove_dups (v :: vs)) by (apply elem_of_remove_dups, list_elem_of_here).
  rewrite E in Hin. now apply elem_of_nil in Hin.
Qed.

(** [parse_core_list] on well-formed input leaves at the front of the array
    the sequence [insert_all [] (denoted ts)]. *)
Lemma parse_well_formed (ts : list token) (cores : list Z) (cores_len : Z) :
  Z.of_nat (length cores) = cores_len ->
  cores_len < UINT_MAX ->
  numbers_below_int_max ts = true ->
  distinct_values ts <= cores_len ->
  exists cores',
    parse_core_list (string_of_list_ascii (render ts)) cores cores_len
    = Some (Returns (Z.of_nat (length (insert_all [] (denoted ts)))) cores')
    /\ take (length (insert_all [] (denoted ts))) cores' = insert_all [] (denoted ts).
Proof.
  intros Hlen Hmax Hnum Hcap. unfold distinct_values in *.
  unfold parse_core_list.
  destruct (Z.eqb_spec cores_len 0) as [H0 | H0].
  - (* no room at all: nothing may be denoted *)
    rewrite denoted_nil_of_no_distinct.
    + exists cores. split; reflexivity.
    + destruct (remove_dups (denoted ts)); [reflexivity | cbn [length] in Hcap; lia].
  - rewrite list_ascii_of_string_of_list_ascii.
    rewrite <- length_list_ascii_of_string, list_ascii_of_string_of_list_ascii.
    destruct (parse_tokens ts (S (length (render ts))) [] cores) as (R' & E & L).
    + lia.
    + exact Hnum.
    + cbn [app]. rewrite Hlen. unfold UINT_MAX in Hmax. lia.
    + cbn [app]. rewrite length_insert_all_distinct. lia.
    + cbn [app length] in E. change (Z.of_nat 0) with 0 in E.
      rewrite Hlen in E. rewrite E.
      eexists. split; [reflexivity |]. apply take_app_length.
Qed.

(** C7 (amended): for every well-formed input (numbers and [low-high]
    ranges separated by commas, with optional blanks around the numbers)
    whose numbers are all below [INT_MAX] and whose distinct values are at
    most as many as the array has places, [parse_core_list] returns the
    number of distinct values and leaves at the front of the array exactly
    the integers the tokens denote (every integer of [[low, high]] for a
    range), in strictly ascending order. *)
Theorem parse_core_list_ascending_set (ts : list token) (cores : list Z) (cores_len : Z) :
  Z.of_nat (length cores) = cores_len ->
  cores_len < UINT_MAX ->
  numbers_below_int_max ts = true ->
  distinct_values ts <= cores_len ->
  exists count cores',
    parse_core_list (string_of_list_ascii (render ts)) cores cores_len
    = Some (Returns count cores')
    /\ count = distinct_values ts
    /\ Z.of_nat (length (take (Z.to_nat count) cores')) = count
    /\ StronglySorted Z.lt (take (Z.to_nat count) cores')
    /\ (forall x, x ∈ take (Z.to_nat count) cores'
                  <-> exists t, t ∈ ts /\ token_denotes t x).
Proof.
  intros Hlen Hmax Hnum Hcap.
  destruct (parse_well_formed ts cores cores_len Hlen Hmax Hnum Hcap) as (cores' & E & Htake).
  exists (Z.of_nat (length (insert_all [] (denoted ts)))), cores'.
  rewrite Nat2Z.id, Htake.
  split; [exact E |].
  split; [unfold distinct_values; now rewrite length_insert_all_distinct |].
  split; [reflexivity |].
  split.
  - apply insert_all_sorted. constructor.
  - intros x. rewrite elem_of_insert_all, <- elem_of_denoted, elem_of_nil. tauto.
Qed.

Lemma parse_core_list_ascending_set_witness :
  exists count cores',
    parse_core_list
      (string_of_list_ascii
         (render [Single (plain D3 []); Range (plain D0 []) (plain D1 []); Single (plain D1 [])]))
      [0; 0; 0; 0] 4
    = Some (Returns count cores')
    /\ count = 3
    /\ StronglySorted Z.lt (take (Z.to_nat count) cores').
Proof.
  destruct (parse_core_list_ascending_set
              [Single (plain D3 []); Range (plain D0 []) (plain D1 []); Single (plain D1 [])]
              [0; 0; 0; 0] 4)
    as (count & cores' & E & Hc & _ & Hs & _).
  - reflexivity.
  - reflexivity.
  - reflexivity.
  - vm_compute. discriminate.
  - exists count, cores'. split; [exact E |]. split; [exact Hc | exact Hs].
Defined.

(** C7 as stated does not hold: ["0-3"] is well-formed and denotes 0, 1, 2
    and 3, but with an array of two places [parse_core_list] returns 0. *)
Lemma well_formed_input_beyond_capacity :
  string_of_list_ascii (render [Range (plain D0 []) (plain D3 [])]) = "0-3"%string
  /\ denoted [Range (plain D0 []) (plain D3 [])] = [0; 1; 2; 3]
  /\ parse_core_list "0-3" [0; 0] 2 = Some (Returns 0 [0; 1]).
Proof. repeat split; vm_compute; reflexivity. Qed.

(** X15: a reversed range (high end below low end) whose low end is below
    [INT_MAX] puts nothing into the array and does not end the parse: on
    well-formed input that holds one, [parse_core_list] returns the count
    and leaves the values that the tokens around the range denote. *)
Lemma reversed_range_skipped (ts1 ts2 : list token) (lo hi : number)
    (cores : list Z) (cores_len : Z) :
  number_value hi < number_value lo ->
  Z.of_nat (length cores) = cores_len ->
  cores_len < UINT_MAX ->
  numbers_below_int_max (ts1 ++ Range lo hi :: ts2) = true ->
  distinct_values (ts1 ++ ts2) <= cores_len ->
  exists cores',
    parse_core_list (string_of_list_ascii (render (ts1 ++ Range lo hi :: ts2))) cores cores_len
    = Some (Returns (distinct_values (ts1 ++ ts2)) cores')
    /\ take (Z.to_nat (distinct_values (ts1 ++ ts2))) cores'
       = insert_all [] (denoted (ts1 ++ ts2)).
Proof.
  intros Hrev Hlen Hmax Hnum Hcap.
  assert (Hden : denoted (ts1 ++ Range lo hi :: ts2) = denoted (ts1 ++ ts2)).
  { clear Hnum Hcap. induction ts1 as [| t ts1 IH]; cbn [app denoted token_values].
    - now rewrite seqZ_nil by lia.
    - now rewrite IH. }
  destruct (parse_well_formed (ts1 ++ Range lo hi :: ts2) cores cores_len)
    as (cores' & E & Htake); try assumption.
  { unfold distinct_values in *. now rewrite Hden. }
  rewrite Hden in E, Htake. unfold distinct_values.
  rewrite <- length_insert_all_distinct, Nat2Z.id.
  exists cores'. split; assumption.
Qed.

Lemma reversed_range_skipped_witness :
  exists cores',
    parse_core_list
      (string_of_list_ascii
         (render ([Single (plain D9 [])] ++ Range (plain D5 []) (plain D3 [])
                   :: [Single (plain D7 [])])))
      [0; 0; 0; 0] 4
    = Some (Returns (distinct_values ([Single (plain D9 [])] ++ [Single (plain D7 [])])) cores')
    /\ take (Z.to_nat (distinct_values ([Single (plain D9 [])] ++ [Single (plain D7 [])]))) cores'
       = insert_all [] (denoted ([Single (plain D9 [])] ++ [Single (plain D7 [])])).
Proof.
  apply (reversed_range_skipped [Single (plain D9 [])] [Single (plain D7 [])]
           (plain D5 []) (plain D3 []) [0; 0; 0; 0] 4).
  - vm_compute. reflexivity.
  - reflexivity.
  - reflexivity.
  - reflexivity.
  - vm_compute. discriminate.
Defined.

(** *** A full array *)

Lemma insert_range_full :
  forall (k : nat) lo P R,
    0 <= lo -> lo + Z.of_nat k <= INT_MAX ->
    Z.of_nat (length (P ++ R)) < 2 ^ 32 - 1 ->
    (length (P ++ R) < length (insert_all P (seqZ lo (Z.of_nat k))))%nat ->
    exists c,
      insert_range k lo (lo + Z.of_nat k - 1) (Z.of_nat (length P)) (P ++ R)
        (Z.of_nat (length (P ++ R)))
      = Range_full c.
Proof.
  induction k as [| k IH]; intros lo P R Hlo Hhi Hlen Hcap.
  - change (Z.of_nat 0) with 0 in Hcap. rewrite seqZ_nil in Hcap by lia.
    cbn [insert_all foldl] in Hcap. rewrite length_app in Hcap. lia.
  - cbn [insert_range]. unfold INT_MAX in *.
    replace (lo <=? lo + Z.of_nat (S k) - 1) with true by (symmetry; apply Z.leb_le; lia).
    unfold to_unsigned at 1. rewrite (Z.mod_small lo) by lia.
    rewrite put_in_order_spec by exact Hlen.
    rewrite seqZ_cons in Hcap by lia.
    cbn [insert_all foldl] in Hcap. fold (insert_all (insert_ascending lo P)) in Hcap.
    replace (Z.pred (Z.of_nat (S k))) with (Z.of_nat k) in Hcap by lia.
    replace (lo + Z.of_nat (S k) - 1) with (Z.succ lo + Z.of_nat k - 1) by lia.
    pose proof (length_insert_ascending lo P) as Hli.
    pose proof (insert_ascending_scan lo P) as Hscan.
    rewrite length_app in Hlen.
    destruct (snd (scan_prefix lo P)).
    + rewrite to_unsigned_to_int by lia.
      replace (Z.of_nat (length P) =? to_unsigned (-1)) with false
        by (symmetry; apply Z.eqb_neq; change (to_unsigned (-1)) with (2 ^ 32 - 1); lia).
      replace (lo =? 2147483647) with false by (symmetry; apply Z.eqb_neq; lia).
      rewrite Hscan in Hcap.
      replace (lo + 1) with (Z.succ lo) by lia.
      apply IH; try lia; [now rewrite length_app | exact Hcap].
    + destruct R as [| g R'].
      { eexists. reflexivity. }
      rewrite to_unsigned_to_int by (cbn [length] in Hlen; lia).
      cbn [length] in Hlen.
      replace (Z.of_nat (length P) + 1 =? to_unsigned (-1)) with false
        by (symmetry; apply Z.eqb_neq; change (to_unsigned (-1)) with (2 ^ 32 - 1); lia).
      replace (lo =? 2147483647) with false by (symmetry; apply Z.eqb_neq; lia).
      replace (Z.of_nat (length P) + 1) with (Z.of_nat (length (insert_ascending lo P)))
        by (rewrite Hli; lia).
      assert (HL : length (P ++ g :: R') = length (insert_ascending lo P ++ R'))
        by (rewrite !length_app, Hli; cbn [length]; lia).
      rewrite HL in *.
      replace (lo + 1) with (Z.succ lo) by lia.
      apply IH; try lia; [rewrite length_app, Hli; lia | exact Hcap].
Qed.

(** On well-formed input that denotes more distinct values than the array
    has places, the loop returns 0. *)
Lemma parse_tokens_full :
  forall ts fuel P R,
    (length (render ts) < fuel)%nat ->
    numbers_below_int_max ts = true ->
    Z.of_nat (length (P ++ R)) < 2 ^ 32 - 1 ->
    (length (P ++ R) < length (insert_all P (denoted ts)))%nat ->
    exists c,
      parse_loop fuel (render ts) (P ++ R) (Z.of_nat (length (P ++ R)))
        (Z.of_nat (length P)) INT_MAX
      = Some (Returns 0 c).
Proof.
  induction ts as [| t ts IH]; intros fuel P R Hfuel Hnum Hlen Hcap.
  { cbn [denoted insert_all foldl] in Hcap. rewrite length_app in Hcap. lia. }
  rewrite render_cons in *.
  set (tail := match ts with [] => [] | _ :: _ => ","%char :: render ts end) in *.
  assert (Hsep : at_separator tail = true) by (destruct ts; reflexivity).
  assert (Hpk : Ascii.eqb (peek tail) ","%char || Ascii.eqb (peek tail) NUL = true)
    by (destruct ts; reflexivity).
  cbn [numbers_below_int_max forallb] in Hnum.
  apply andb_true_iff in Hnum as [Ht Hts]. fold (numbers_below_int_max ts) in Hts.
  cbn [denoted] in *. rewrite insert_all_app in *.
  destruct fuel as [| fuel]; [lia |].
  (* what is left to do once the values of [t] are in the array *)
  assert (Hrest : forall R1,
    length (insert_all P (token_values t) ++ R1) = length (P ++ R) ->
    forall fuel', (length tail <= fuel')%nat ->
    exists c,
      (if Ascii.eqb (peek tail) NUL
       then Some (Returns (Z.of_nat (length (insert_all P (token_values t))))
                    (insert_all P (token_values t) ++ R1))
       else parse_loop fuel' (advance tail) (insert_all P (token_values t) ++ R1)
              (Z.of_nat (length (P ++ R)))
              (Z.of_nat (length (insert_all P (token_values t)))) INT_MAX)
      = Some (Returns 0 c)).
  { intros R1 L1 fuel' Hf'. subst tail. destruct ts as [| t' ts'].
    - cbn [denoted insert_all foldl] in Hcap. rewrite <- L1, length_app in Hcap. lia.
    - change (Ascii.eqb (peek (","%char :: render (t' :: ts'))) NUL) with false.
      cbn [advance]. cbn [length] in Hf'.
      rewrite <- L1.
      apply IH; [lia | exact Hts | rewrite L1; exact Hlen |].
      rewrite L1. exact Hcap. }
  (* the range loop on the values of [t], from [lo] to [hi] *)
  assert (Hrange : forall lo hi fuel',
    0 <= lo < INT_MAX -> hi < INT_MAX ->
    token_values t = seqZ lo (hi - lo + 1) ->
    (length tail <= fuel')%nat ->
    exists c,
      match insert_range (Z.to_nat (hi - lo + 1)) lo hi (Z.of_nat (length P)) (P ++ R)
              (Z.of_nat (length (P ++ R))) with
      | Range_full c => Some (Returns 0 c)
      | Range_overflow => Some Undefined_behaviour
      | Range_done count' c =>
          if Ascii.eqb (peek tail) NUL then Some (Returns count' c)
          else parse_loop fuel' (advance tail) c (Z.of_nat (length (P ++ R))) count' INT_MAX
      end = Some (Returns 0 c)).
  { intros lo hi fuel' Hlo Hhi Hval Hf'. rewrite Hval in *.
    destruct (Z.le_gt_cases lo hi) as [Hle | Hgt].
    - destruct (Nat.lt_ge_cases (length (P ++ R))
                  (length (insert_all P (seqZ lo (hi - lo + 1))))) as [Hfull | Hfits].
      + destruct (insert_range_full (Z.to_nat (hi - lo + 1)) lo P R) as (c & E);
          [lia | unfold INT_MAX in *; lia | exact Hlen | rewrite Z2Nat.id by lia; exact Hfull |].
        rewrite Z2Nat.id in E by lia.
        replace (lo + (hi - lo + 1) - 1) with hi in E by lia.
        rewrite E. eauto.
      + destruct (insert_range_spec (Z.to_nat (hi - lo + 1)) lo P R) as (R1 & E & L1);
          [lia | unfold INT_MAX in *; lia | exact Hlen | rewrite Z2Nat.id by lia; exact Hfits |].
        rewrite Z2Nat.id in E, L1 by lia.
        replace (lo + (hi - lo + 1) - 1) with hi in E by lia.
        rewrite E. exact (Hrest R1 L1 fuel' Hf').
    - replace (Z.to_nat (hi - lo + 1)) with 0%nat by lia. cbn [insert_range].
      assert (L0 : length (insert_all P (seqZ lo (hi - lo + 1)) ++ R) = length (P ++ R))
        by now rewrite seqZ_nil by lia.
      destruct (Hrest R L0 fuel' Hf') as (c & E).
      rewrite seqZ_nil in E by lia. eauto. }
  destruct t as [n | lo hi].
  - (* a single number *)
    cbn [render_token token_values token_numbers forallb] in *.
    rewrite andb_true_r in Ht. apply Z.ltb_lt in Ht.
    pose proof (number_value_nonneg n) as Hnn.
    rewrite parse_loop_number by assumption.
    rewrite Hpk. cbv zeta. rewrite Z.eqb_refl.
    apply Hrange; [lia | lia | | ].
    + replace (number_value n - number_value n + 1) with 1 by lia. now rewrite seqZ_one.
    + rewrite !length_app in Hfuel. pose proof (render_number_nonempty n). lia.
  - (* a range *)
    cbn [render_token token_values token_numbers forallb] in *.
    rewrite andb_true_r in Ht. apply andb_true_iff in Ht as [Hlo Hhi].
    apply Z.ltb_lt in Hlo. apply Z.ltb_lt in Hhi.
    pose proof (number_value_nonneg lo) as Hlo0.
    pose proof (render_number_nonempty lo) as Llo.
    pose proof (render_number_nonempty hi) as Lhi.
    rewrite <- !app_assoc in *. cbn [app] in *.
    rewrite !length_app in Hfuel. cbn [length] in Hfuel. rewrite length_app in Hfuel.
    rewrite parse_loop_number; [| reflexivity | assumption].
    change (Ascii.eqb (peek ("-"%char :: render_number hi ++ tail)) ","%char
            || Ascii.eqb (peek ("-"%char :: render_number hi ++ tail)) NUL) with false.
    change (Ascii.eqb (peek ("-"%char :: render_number hi ++ tail)) "-"%char) with true.
    rewrite Z.eqb_refl. cbn [andb advance]. cbv iota.
    destruct fuel as [| fuel]; [lia |].
    rewrite parse_loop_number by assumption.
    rewrite Hpk. cbv zeta.
    replace (number_value lo =? INT_MAX) with false
      by (symmetry; apply Z.eqb_neq; lia).
    apply Hrange; [lia | lia | reflexivity | lia].
Qed.

(** X16: on well-formed input whose numbers are below [INT_MAX],
    [parse_core_list] returns 0 whenever the tokens denote more distinct
    values than the array has places, however many of them it has stored
    by then. *)
Lemma parse_beyond_capacity (ts : list token) (cores : list Z) (cores_len : Z) :
  Z.of_nat (length cores) = cores_len ->
  cores_len < UINT_MAX ->
  numbers_below_int_max ts = true ->
  cores_len < distinct_values ts ->
  exists cores',
    parse_core_list (string_of_list_ascii (render ts)) cores cores_len
    = Some (Returns 0 cores').
Proof.
  intros Hlen Hmax Hnum Hcap. unfold distinct_values in *.
  unfold parse_core_list.
  destruct (Z.eqb_spec cores_len 0) as [H0 | H0]; [eauto |].
  rewrite list_ascii_of_string_of_list_ascii.
  rewrite <- length_list_ascii_of_string, list_ascii_of_string_of_list_ascii.
  destruct (parse_tokens_full ts (S (length (render ts))) [] cores) as (c & E).
  - lia.
  - exact Hnum.
  - cbn [app]. rewrite Hlen. unfold UINT_MAX in Hmax. lia.
  - cbn [app]. rewrite length_insert_all_distinct. lia.
  - cbn [app length] in E. change (Z.of_nat 0) with 0 in E.
    rewrite Hlen in E. rewrite E. eauto.
Qed.

Lemma parse_beyond_capacity_witness :
  exists cores',
    parse_core_list
      (string_of_list_ascii
         (render [Single (plain D7 []); Range (plain D1 []) (plain D3 [])]))
      [0; 0; 0] 3
    = Some (Returns 0 cores').
Proof.
  apply (parse_beyond_capacity
           [Single (plain D7 []); Range (plain D1 []) (plain D3 [])] [0; 0; 0] 3).
  - reflexivity.
  - reflexivity.
  - reflexivity.
  - vm_compute. reflexivity.
Defined.

(* ===================================================================== *)
(** * Part III: further properties of the code                           *)
(* ===================================================================== *)

(** ** The header codec *)

(** X1: a setter overwrites what an earlier call of the same setter
    stored: writing [v1] and then [v2] into a field gives the header that
    writing [v2] alone gives, for every header and all values. *)
Theorem mpls_set_last_write_wins (f : field) (h v1 v2 : Z) :
  mpls_set f (mpls_set f h v1) v2 = mpls_set f h v2.
Proof. destruct f; unfold_codec; by_bits. Qed.

(** X2: setters of two different fields commute: the header does not
    depend on the order in which the two fields were written. *)
Theorem mpls_set_commute (f g : field) (h v w : Z) :
  f <> g ->
  mpls_set f (mpls_set g h v) w = mpls_set g (mpls_set f h w) v.
Proof.
  intros Hne. destruct f, g; try congruence; unfold_codec; by_bits.
Qed.

Lemma mpls_set_commute_witness :
  mpls_set Label (mpls_set Ttl 0xdeadbeef 7) 5 = mpls_set Ttl (mpls_set Label 0xdeadbeef 5) 7.
Proof. apply (mpls_set_commute Label Ttl 0xdeadbeef 7 5). discriminate. Defined.

(** X3: the four getters lose nothing of a 32-bit header: each returns a
    value within the width of its field, and writing the four values read
    into a zero header with the four setters gives the header back. *)
Theorem mpls_header_rebuilt_from_fields (h : Z) :
  is_u32 h ->
  (forall f, 0 <= mpls_get f h < 2 ^ field_width f)
  /\ mpls_set_ttl
       (mpls_set_eos
          (mpls_set_tc (mpls_set_label 0 (mpls_get_label h)) (mpls_get_tc h))
          (mpls_get_eos h))
       (mpls_get_ttl h) = h.
Proof.
  intros Hh. split.
  - intros f. destruct f; unfold_codec; cbn [field_width].
    + unfold is_u32 in Hh. rewrite Z.shiftr_div_pow2 by lia. split.
      * apply Z.div_pos; lia.
      * apply Z.div_lt_upper_bound; lia.
    + rewrite Z.land_ones by lia. apply Z.mod_pos_bound. lia.
    + rewrite Z.land_ones by lia. apply Z.mod_pos_bound. lia.
    + rewrite Z.land_ones by lia. apply Z.mod_pos_bound. lia.
  - unfold_codec. by_bits; clear_high h.
Qed.

Lemma mpls_header_rebuilt_from_fields_witness :
  (forall f, 0 <= mpls_get f 0xdeadbeef < 2 ^ field_width f)
  /\ mpls_set_ttl
       (mpls_set_eos
          (mpls_set_tc (mpls_set_label 0 (mpls_get_label 0xdeadbeef)) (mpls_get_tc 0xdeadbeef))
          (mpls_get_eos 0xdeadbeef))
       (mpls_get_ttl 0xdeadbeef) = 0xdeadbeef.
Proof. apply (mpls_header_rebuilt_from_fields 0xdeadbeef). unfold is_u32. lia. Defined.

(** X4: whatever label and TTL a stream holds, the header its worker
    stamps fits 32 bits and carries the label cut to 20 bits, the
    End-of-Stack bit and the TTL cut to 8 bits: a value out of range is
    truncated, not refused. *)
Theorem stream_header_masked_fields (s : fwd_stream) :
  is_u32 (stream_mpls_hdr s)
  /\ mpls_get_label (stream_mpls_hdr s) = Z.land (mpls_label s) MPLS_HDR_LABEL_MASK
  /\ mpls_get_eos (stream_mpls_hdr s) = 1
  /\ mpls_get_ttl (stream_mpls_hdr s) = Z.land (mpls_ttl s) MPLS_HDR_TTL_MASK.
Proof.
  assert (U0 : is_u32 0) by (unfold is_u32; lia).
  split.
  - unfold stream_mpls_hdr.
    apply (mpls_set_is_u32 Ttl), (mpls_set_is_u32 Eos), (mpls_set_is_u32 Label), U0.
  - unfold stream_mpls_hdr. repeat split; unfold_codec; by_bits;
      symmetry; apply Z.bits_above_log2; simpl; lia.
Qed.

(** ** The frame transform *)

(** X5: what [mpls_header_insert] returns is decided by three tests on the
    buffer: [-EINVAL] exactly when the buffer is not exclusively owned,
    [-ENOSPC] exactly when it is but holds less than a minimum frame or has
    less than 4 bytes of headroom, and 0 in the remaining case; whenever
    the result is not 0 the buffer is left as it was. *)
Theorem insert_outcome_decided_by_buffer
    (bo : byte_order) (m : rte_mbuf) (hdr : mpls_header_t) :
  let r := fst (fst (mpls_header_insert bo m hdr)) in
  (r = - EINVAL <-> exclusively_owned m = false)
  /\ (r = - ENOSPC <->
        exclusively_owned m = true
        /\ (rte_pktmbuf_data_len m < RTE_ETHER_MIN_LEN
            \/ rte_pktmbuf_headroom m < MPLS_HDR_LEN))
  /\ (r = 0 <->
        exclusively_owned m = true
        /\ RTE_ETHER_MIN_LEN <= rte_pktmbuf_data_len m
        /\ MPLS_HDR_LEN <= rte_pktmbuf_headroom m)
  /\ (r <> 0 -> snd (fst (mpls_header_insert bo m hdr)) = m).
Proof.
  cbv zeta. unfold mpls_header_insert, exclusively_owned, rte_pktmbuf_prepend.
  destruct (RTE_MBUF_DIRECT m); cbn [negb orb andb].
  2: { unfold EINVAL, ENOSPC. cbn [fst snd].
       repeat split; intros; try lia; intuition (try discriminate; try lia). }
  rewrite Z.gtb_ltb.
  destruct (Z.ltb_spec 1 (rte_mbuf_refcnt_read m)) as [Hr | Hr];
    destruct (Z.leb_spec (rte_mbuf_refcnt_read m) 1) as [Hr' | Hr']; try lia.
  { unfold EINVAL, ENOSPC. cbn [fst snd].
    repeat split; intros; try lia; intuition (try discriminate; try lia). }
  destruct (Z.ltb_spec (rte_pktmbuf_data_len m) RTE_ETHER_MIN_LEN) as [Hd | Hd].
  { unfold EINVAL, ENOSPC. cbn [fst snd].
    repeat split; intros; try lia; intuition (try discriminate; try lia). }
  rewrite Z.gtb_ltb.
  destruct (Z.ltb_spec (rte_pktmbuf_headroom m) MPLS_HDR_LEN) as [Hh | Hh].
  { unfold EINVAL, ENOSPC. cbn [fst snd].
    repeat split; intros; try lia; intuition (try discriminate; try lia). }
  unfold EINVAL, ENOSPC. cbn [fst snd].
  repeat split; intros; try lia; intuition (try discriminate; try lia).
Qed.

(** *** Decapsulation *)

(** What [mpls_header_strip] does to a buffer that holds an MPLS frame. *)
Lemma strip_header_facts (bo : byte_order) (m : rte_mbuf) (ethertype : Z) :
  mbuf_ok m = true ->
  ether_type_field bo m = rte_cpu_to_be_16 bo RTE_ETHER_TYPE_MPLS ->
  RTE_ETHER_HDR_LEN + MPLS_HDR_LEN <= rte_pktmbuf_data_len m ->
  0 <= ethertype < 2 ^ 16 ->
  exists m',
    mpls_header_strip bo m ethertype = (0, m')
    /\ pkt_len m' = pkt_len m - MPLS_HDR_LEN
    /\ data_len m' = data_len m - MPLS_HDR_LEN
    /\ rte_pktmbuf_mtod m' = rte_pktmbuf_mtod m + MPLS_HDR_LEN
    /\ (forall i, 0 <= i < ETHER_TYPE_OFFSET ->
          load8 (buf m') (rte_pktmbuf_mtod m' + i) = load8 (buf m) (rte_pktmbuf_mtod m + i))
    /\ ether_type_field bo m' = rte_cpu_to_be_16 bo ethertype
    /\ (forall i, RTE_ETHER_HDR_LEN <= i < data_len m' ->
          load8 (buf m') (rte_pktmbuf_mtod m' + i)
          = load8 (buf m) (rte_pktmbuf_mtod m + MPLS_HDR_LEN + i))
    /\ buf m' = store_bytes
                  (memmove (buf m) (data_off m + 4) (data_off m) RTE_ETHER_HDR_LEN)
                  (data_off m + 4 + ETHER_TYPE_OFFSET) (be16_bytes ethertype)
    /\ mbuf_ok m' = true.
Proof.
  intros Hok Het Hlen Hrng.
  pose proof (mbuf_ok_flags _ Hok) as [Hfl Hnl].
  apply mbuf_ok_spec in Hok as (H1 & H2 & H3 & H4 & H5 & H6 & H7 & H8 & H9).
  unfold rte_pktmbuf_data_len, buf_len in *.
  unfold mpls_header_strip, rte_pktmbuf_adj.
  unfold ether_type_field in Het. rewrite Het, Z.eqb_refl. simpl negb. cbv iota.
  unfold MPLS_HDR_LEN, RTE_ETHER_HDR_LEN, ETHER_TYPE_OFFSET, rte_pktmbuf_mtod in *.
  rewrite (gtb_false 4 (data_len m)) by lia.
  cbn [buf data_off set_buf refcnt nb_segs ol_flags pkt_len data_len next_lens].
  unfold u16, u32. rewrite !Z.mod_small by lia.
  eexists. split; [reflexivity |].
  unfold ether_type_field, ether_type_at, rte_pktmbuf_mtod, ETHER_TYPE_OFFSET.
  cbn [buf data_off pkt_len data_len set_buf].
  set (off := data_off m) in *.
  replace (off + 4 - 4) with off by lia.
  assert (Hl : length (bytes16 bo (rte_cpu_to_be_16 bo ethertype)) = 2%nat) by now destruct bo.
  repeat split.
  - intros i Hi. unfold store16.
    rewrite load8_store_bytes_out by (rewrite Hl; lia).
    rewrite load8_memmove_in by lia. f_equal. lia.
  - apply load16_store16; [lia | rewrite length_memmove; lia |].
    now apply rte_cpu_to_be_16_range.
  - intros i Hi. unfold store16.
    rewrite load8_store_bytes_out by (rewrite Hl; lia).
    now rewrite load8_memmove_out by lia.
  - unfold store16. now rewrite bytes16_be.
  - apply mbuf_ok_intro;
      cbn [buf data_off pkt_len data_len refcnt ol_flags nb_segs next_lens set_buf];
      unfold buf_len; cbn [buf set_buf]; unfold store16;
      rewrite ?length_store_bytes, ?length_memmove; try assumption; lia.
Qed.

(** X6: on a buffer whose frame has the MPLS ethertype and holds at least a
    link-layer header and a label, [mpls_header_strip] returns 0 and leaves
    a buffer whose total length and data length are 4 less, whose data
    starts 4 bytes later with the two link-layer addresses moved up to the
    new front, whose ethertype field holds the given ethertype, most
    significant byte first, and whose bytes behind the link-layer header
    are the bytes that stood behind the label. *)
Theorem strip_header_effect (bo : byte_order) (m : rte_mbuf) (ethertype : Z) :
  mbuf_ok m = true ->
  ether_type_field bo m = rte_cpu_to_be_16 bo RTE_ETHER_TYPE_MPLS ->
  RTE_ETHER_HDR_LEN + MPLS_HDR_LEN <= rte_pktmbuf_data_len m ->
  0 <= ethertype < 2 ^ 16 ->
  exists m',
    mpls_header_strip bo m ethertype = (0, m')
    /\ pkt_len m' = pkt_len m - MPLS_HDR_LEN
    /\ data_len m' = data_len m - MPLS_HDR_LEN
    /\ rte_pktmbuf_mtod m' = rte_pktmbuf_mtod m + MPLS_HDR_LEN
    /\ (forall i, 0 <= i < ETHER_TYPE_OFFSET ->
          load8 (buf m') (rte_pktmbuf_mtod m' + i) = load8 (buf m) (rte_pktmbuf_mtod m + i))
    /\ load8 (buf m') (rte_pktmbuf_mtod m' + ETHER_TYPE_OFFSET) = ethertype / 2 ^ 8
    /\ load8 (buf m') (rte_pktmbuf_mtod m' + ETHER_TYPE_OFFSET + 1) = ethertype mod 2 ^ 8
    /\ (forall i, RTE_ETHER_HDR_LEN <= i < data_len m' ->
          load8 (buf m') (rte_pktmbuf_mtod m' + i)
          = load8 (buf m) (rte_pktmbuf_mtod m + MPLS_HDR_LEN + i)).
Proof.
  intros Hok Het Hlen Hrng.
  destruct (strip_header_facts bo m ethertype Hok Het Hlen Hrng)
    as (m' & E & F1 & F2 & F3 & F4 & _ & F6 & Hbuf & _).
  exists m'. repeat (split; [assumption |]).
  apply mbuf_ok_spec in Hok as (H1 & H2 & H3 & H4 & _).
  unfold rte_pktmbuf_data_len, buf_len, rte_pktmbuf_mtod in *.
  unfold MPLS_HDR_LEN, RTE_ETHER_HDR_LEN, ETHER_TYPE_OFFSET in *.
  assert (Hhi : Z.land (Z.shiftr ethertype 8) 255 = ethertype / 2 ^ 8).
  { change 255 with (Z.ones 8). rewrite Z.land_ones, Z.shiftr_div_pow2 by lia.
    apply Z.mod_small. split; [apply Z.div_pos; lia | apply Z.div_lt_upper_bound; lia]. }
  assert (Hlo : Z.land ethertype 255 = ethertype mod 2 ^ 8).
  { change 255 with (Z.ones 8). now rewrite Z.land_ones by lia. }
  split; [| split; [| exact F6]]; rewrite F3, Hbuf.
  - rewrite load8_store_bytes_in by mem_side.
    replace (Z.to_nat (data_off m + 4 + 12 - (data_off m + 4 + 12))) with 0%nat by lia.
    exact Hhi.
  - rewrite load8_store_bytes_in by mem_side.
    replace (Z.to_nat (data_off m + 4 + 12 + 1 - (data_off m + 4 + 12))) with 1%nat by lia.
    exact Hlo.
Qed.

Lemma strip_header_effect_witness :
  exists m',
    mpls_header_strip LittleEndian mpls_mbuf RTE_ETHER_TYPE_IPV4 = (0, m')
    /\ pkt_len m' = pkt_len mpls_mbuf - MPLS_HDR_LEN
    /\ load8 (buf m') (rte_pktmbuf_mtod m' + ETHER_TYPE_OFFSET) = 0x08.
Proof.
  destruct (strip_header_effect LittleEndian mpls_mbuf RTE_ETHER_TYPE_IPV4)
    as (m' & E & F1 & _ & _ & _ & F5 & _).
  - reflexivity.
  - reflexivity.
  - vm_compute. discriminate.
  - unfold RTE_ETHER_TYPE_IPV4. lia.
  - exists m'. split; [exact E |]. split; [exact F1 | exact F5].
Defined.

(** A frame that does not carry the MPLS ethertype passes one step of
    [mpls_remove_hdr_burst] as it is. *)
Lemma remove_hdr_one_non_mpls bo n n_pkts m :
  ether_type_field bo m <> rte_cpu_to_be_16 bo RTE_ETHER_TYPE_MPLS ->
  mpls_remove_hdr_one bo n n_pkts m = (m, []).
Proof.
  intros Hm. unfold mpls_remove_hdr_one.
  destruct (mpls_deduce_ethertype bo m =? 0); [reflexivity |].
  unfold mpls_header_strip. unfold ether_type_field in Hm.
  apply Z.eqb_neq in Hm. rewrite Hm. reflexivity.
Qed.

(** X7: the label removal leaves a buffer exactly as it is, and writes
    nothing to stderr, when the frame does not carry the MPLS ethertype,
    and also when it does but the byte behind the label starts with
    neither 4 nor 6: such a frame is forwarded with its label. *)
Theorem label_removal_leaves_other_frames
    (bo : byte_order) (n n_pkts : Z) (m : rte_mbuf) :
  ether_type_field bo m <> rte_cpu_to_be_16 bo RTE_ETHER_TYPE_MPLS
  \/ (Z.land (load8 (buf m) (rte_pktmbuf_mtod m + RTE_ETHER_HDR_LEN + MPLS_HDR_LEN))
        IPVERSION_MASK <> IP4_VERSION
      /\ Z.land (load8 (buf m) (rte_pktmbuf_mtod m + RTE_ETHER_HDR_LEN + MPLS_HDR_LEN))
           IPVERSION_MASK <> IP6_VERSION) ->
  mpls_remove_hdr_one bo n n_pkts m = (m, []).
Proof.
  intros H.
  destruct (Z.eq_dec (ether_type_field bo m) (rte_cpu_to_be_16 bo RTE_ETHER_TYPE_MPLS))
    as [Hm | Hm]; [| now apply remove_hdr_one_non_mpls].
  destruct H as [H | [H4 H6]]; [contradiction |].
  unfold mpls_remove_hdr_one, mpls_deduce_ethertype. unfold ether_type_field in Hm.
  rewrite Hm, Z.eqb_refl.
  apply Z.eqb_neq in H4, H6. rewrite H4, H6. reflexivity.
Qed.

Lemma label_removal_leaves_other_frames_witness :
  mpls_remove_hdr_one LittleEndian 0 1 vlan_mbuf = (vlan_mbuf, []).
Proof.
  apply (label_removal_leaves_other_frames LittleEndian 0 1 vlan_mbuf).
  left. vm_compute. discriminate.
Defined.

Lemma be16_not_mpls bo etype :
  etype = RTE_ETHER_TYPE_IPV4 \/ etype = RTE_ETHER_TYPE_IPV6 ->
  rte_cpu_to_be_16 bo etype <> rte_cpu_to_be_16 bo RTE_ETHER_TYPE_MPLS.
Proof. intros [-> | ->]; destruct bo; vm_compute; discriminate. Qed.

Lemma deduce_ethertype_cases bo m :
  mpls_deduce_ethertype bo m = 0
  \/ mpls_deduce_ethertype bo m = RTE_ETHER_TYPE_IPV4
  \/ mpls_deduce_ethertype bo m = RTE_ETHER_TYPE_IPV6.
Proof.
  unfold mpls_deduce_ethertype.
  repeat match goal with |- context [if ?c then _ else _] => destruct c end; auto.
Qed.

(** X8: the decapsulation path removes at most one label: applied a second
    time to a buffer it has been applied to, it changes nothing. *)
Theorem decapsulate_idempotent (bo : byte_order) (m : rte_mbuf) :
  mbuf_ok m = true ->
  RTE_ETHER_HDR_LEN + MPLS_HDR_LEN <= rte_pktmbuf_data_len m ->
  decapsulate bo (decapsulate bo m) = decapsulate bo m.
Proof.
  intros Hok Hlen.
  destruct (Z.eq_dec (ether_type_field bo m) (rte_cpu_to_be_16 bo RTE_ETHER_TYPE_MPLS))
    as [Hm | Hm].
  - destruct (deduce_ethertype_cases bo m) as [E | E].
    + assert (D : decapsulate bo m = m).
      { unfold decapsulate, mpls_remove_hdr_one. now rewrite E. }
      now rewrite !D.
    + assert (Hr : 0 <= mpls_deduce_ethertype bo m < 2 ^ 16).
      { destruct E as [-> | ->]; unfold RTE_ETHER_TYPE_IPV4, RTE_ETHER_TYPE_IPV6; lia. }
      destruct (strip_header_facts bo m _ Hok Hm Hlen Hr)
        as (m' & Es & _ & _ & _ & _ & Het & _).
      assert (D : decapsulate bo m = m').
      { unfold decapsulate, mpls_remove_hdr_one. rewrite Es.
        destruct E as [-> | ->]; reflexivity. }
      rewrite D. unfold decapsulate at 1.
      rewrite remove_hdr_one_non_mpls; [reflexivity |].
      rewrite Het. now apply be16_not_mpls.
  - assert (D : decapsulate bo m = m).
    { unfold decapsulate. now rewrite remove_hdr_one_non_mpls. }
    now rewrite !D.
Qed.

Lemma decapsulate_idempotent_witness :
  decapsulate LittleEndian (decapsulate LittleEndian mpls_mbuf)
  = decapsulate LittleEndian mpls_mbuf.
Proof.
  apply (decapsulate_idempotent LittleEndian mpls_mbuf).
  - reflexivity.
  - vm_compute. discriminate.
Defined.

(** The buffer a step of [mpls_remove_hdr_burst] leaves does not depend on
    the position in the batch. *)
Lemma remove_hdr_one_position bo n n_pkts m :
  fst (mpls_remove_hdr_one bo n n_pkts m) = decapsulate bo m.
Proof.
  unfold decapsulate, mpls_remove_hdr_one.
  destruct (mpls_deduce_ethertype bo m =? 0); [reflexivity |].
  now destruct (mpls_header_strip bo m (mpls_deduce_ethertype bo m)).
Qed.

(** [mpls_header_strip] cannot fail on a buffer that holds 4 bytes. *)
Lemma strip_result_zero bo m e :
  MPLS_HDR_LEN <= rte_pktmbuf_data_len m -> fst (mpls_header_strip bo m e) = 0.
Proof.
  intros H. unfold mpls_header_strip, rte_pktmbuf_adj.
  destruct (negb _); [reflexivity |].
  unfold rte_pktmbuf_data_len in H. now rewrite (gtb_false _ _ H).
Qed.

(** The loop of [mpls_remove_hdr_burst] on values: the decapsulation path
    on each buffer, and nothing on stderr when every buffer holds at least
    4 bytes of data. *)
Lemma remove_hdr_burst_values (bo : byte_order) (pkts : list rte_mbuf) :
  fst (mpls_remove_hdr_burst bo pkts) = map (decapsulate bo) pkts
  /\ (Forall (fun m => MPLS_HDR_LEN <= rte_pktmbuf_data_len m) pkts ->
      snd (mpls_remove_hdr_burst bo pkts) = []).
Proof.
  unfold mpls_remove_hdr_burst.
  generalize (Z.of_nat (length pkts)) as n_pkts. generalize 0 as n.
  induction pkts as [| m rest IH]; intros n n_pkts.
  - split; reflexivity.
  - cbn [mpls_remove_hdr_burst_from map].
    destruct (IH (n + 1) n_pkts) as [IH1 IH2].
    pose proof (remove_hdr_one_position bo n n_pkts m) as E1.
    destruct (mpls_remove_hdr_one bo n n_pkts m) as [m' d] eqn:Em.
    destruct (mpls_remove_hdr_burst_from bo (n + 1) n_pkts rest) as [rest' ds].
    cbn [fst snd] in *. split.
    + now rewrite E1, IH1.
    + intros Hall. apply Forall_cons in Hall as [Hm Hrest].
      rewrite (IH2 Hrest), app_nil_r.
      unfold mpls_remove_hdr_one in Em.
      destruct (mpls_deduce_ethertype bo m =? 0); [now inversion Em |].
      pose proof (strip_result_zero bo m (mpls_deduce_ethertype bo m) Hm) as Hs.
      destruct (mpls_header_strip bo m (mpls_deduce_ethertype bo m)) as [r m''].
      cbn [fst] in Hs. subst r. now inversion Em.
Qed.

(** *** Buffers in memory *)

Section BuffersInMemory.
Import Store.

Lemma with_without_data a m : with_data (without_data a m) (buf m) = m.
Proof. now destruct m. Qed.

Lemma data_of_assign st p m q : data_of (assign st p m) q = data_of st q.
Proof.
  unfold assign, data_of. destruct (objs st !! p) as [o |] eqn:Ep; [| reflexivity].
  cbn [objs]. destruct (decide (q = p)) as [-> | Hne].
  - rewrite list_lookup_insert_eq by (eapply lookup_lt_Some, Ep). now rewrite Ep.
  - now rewrite list_lookup_insert_ne by congruence.
Qed.

Lemma deref_assign_same st p m m' : deref st p = Some m -> deref (assign st p m') p = Some m'.
Proof.
  unfold deref, assign. destruct (objs st !! p) as [o |] eqn:Ep; [| discriminate].
  destruct (bufs st !! buf_addr o) as [b |] eqn:Eb; [| discriminate]. intros _.
  cbn [objs bufs].
  rewrite list_lookup_insert_eq by (eapply lookup_lt_Some, Ep). cbn [buf_addr without_data].
  rewrite list_lookup_insert_eq by (eapply lookup_lt_Some, Eb).
  f_equal. apply with_without_data.
Qed.

Lemma objs_assign_other st p m q : q <> p -> objs (assign st p m) !! q = objs st !! q.
Proof.
  intros Hne. unfold assign. destruct (objs st !! p) as [o |]; [| reflexivity].
  cbn [objs]. now rewrite list_lookup_insert_ne by congruence.
Qed.

Lemma bufs_assign_other st p m a :
  Some a <> data_of st p -> bufs (assign st p m) !! a = bufs st !! a.
Proof.
  unfold assign, data_of. destruct (objs st !! p) as [o |]; [| reflexivity].
  intros Hne. cbn [bufs]. rewrite list_lookup_insert_ne; [reflexivity | congruence].
Qed.

(** What a pointer gives access to depends on its object and on the data
    of that object only. *)
Lemma deref_frame st st' q :
  objs st' !! q = objs st !! q ->
  (forall a, data_of st q = Some a -> bufs st' !! a = bufs st !! a) ->
  deref st' q = deref st q.
Proof.
  unfold deref, data_of. intros -> H.
  destruct (objs st !! q) as [o |]; [| reflexivity].
  now rewrite (H _ eq_refl).
Qed.

Lemma data_of_ne_ptr st p q : data_of st q <> data_of st p -> q <> p.
Proof. congruence. Qed.

(** On a batch whose buffers share no data the loop of
    [mpls_remove_hdr_burst] does to the store what the loop on values does
    to the values. *)
Lemma remove_hdr_burst_from_unshared bo n_pkts :
  forall pkts n st ms,
    Forall2 (fun p m => deref st p = Some m) pkts ms ->
    NoDup (map (data_of st) pkts) ->
    exists st',
      Store.mpls_remove_hdr_burst_from bo n n_pkts st pkts
      = Some (st', snd (FwdEngine.mpls_remove_hdr_burst_from bo n n_pkts ms))
      /\ Forall2 (fun p m' => deref st' p = Some m') pkts
           (fst (FwdEngine.mpls_remove_hdr_burst_from bo n n_pkts ms))
      /\ (forall q, data_of st' q = data_of st q)
      /\ (forall q, q ∉ pkts -> objs st' !! q = objs st !! q)
      /\ (forall a, Some a ∉ map (data_of st) pkts -> bufs st' !! a = bufs st !! a).
Proof.
  induction pkts as [| p rest IH]; intros n st ms Hms Hnd.
  - apply Forall2_nil_inv_l in Hms as ->. exists st. cbn. repeat split; auto.
  - apply Forall2_cons_inv_l in Hms as (m & ms' & Hm & Hrest & ->).
    cbn [map] in Hnd. apply NoDup_cons in Hnd as [Hp Hnd].
    cbn [Store.mpls_remove_hdr_burst_from FwdEngine.mpls_remove_hdr_burst_from].
    unfold Store.mpls_deduce_ethertype, Store.mpls_header_strip, mpls_remove_hdr_one.
    rewrite Hm.
    set (etype := FwdEngine.mpls_deduce_ethertype bo m).
    set (step := if etype =? 0 then (0, m) else FwdEngine.mpls_header_strip bo m etype).
    set (st1 := if etype =? 0 then st else assign st p (snd step)).
    assert (D1 : forall q, data_of st1 q = data_of st q).
    { intros q. unfold st1. destruct (etype =? 0); [reflexivity | apply data_of_assign]. }
    assert (O1 : forall q, q <> p -> objs st1 !! q = objs st !! q).
    { intros q Hq. unfold st1. destruct (etype =? 0); [reflexivity |].
      now apply objs_assign_other. }
    assert (B1 : forall a, Some a <> data_of st p -> bufs st1 !! a = bufs st !! a).
    { intros a Ha. unfold st1. destruct (etype =? 0); [reflexivity |].
      now apply bufs_assign_other. }
    assert (P1 : deref st1 p = Some (snd step)).
    { unfold st1, step. destruct (etype =? 0); [exact Hm |].
      eapply deref_assign_same, Hm. }
    assert (Hrest1 : Forall2 (fun q m0 => deref st1 q = Some m0) rest ms').
    { clear IH. induction Hrest as [| q m0 rest ms' Hq Hrest IHr]; constructor.
      - rewrite <- Hq. apply deref_frame.
        + apply O1. intros ->. apply Hp. cbn [map]. apply list_elem_of_here.
        + intros a Ha. apply B1. intros Heq. apply Hp. cbn [map].
          rewrite Ha, Heq. apply list_elem_of_here.
      - apply IHr.
        + intros Hin. apply Hp. cbn [map]. now apply list_elem_of_further.
        + cbn [map] in Hnd. now apply NoDup_cons in Hnd as [_ Hnd]. }
    assert (Hnd1 : NoDup (map (data_of st1) rest)).
    { erewrite map_ext; [exact Hnd | intros q; apply D1]. }
    destruct (IH (n + 1) st1 ms' Hrest1 Hnd1) as (st' & E & Hres & D & O & B).
    assert (Hmap : map (data_of st1) rest = map (data_of st) rest)
      by (apply map_ext; intros q; apply D1).
    rewrite Hmap in B.
    exists st'.
    assert (P' : deref st' p = Some (snd step)).
    { rewrite <- P1. apply deref_frame.
      - apply O. intros Hin. apply Hp. apply list_elem_of_In, in_map, list_elem_of_In, Hin.
      - intros a Ha. apply B. rewrite <- Ha, D1. exact Hp. }
    assert (Frames :
              (forall q, data_of st' q = data_of st q)
              /\ (forall q, q ∉ p :: rest -> objs st' !! q = objs st !! q)
              /\ (forall a, Some a ∉ map (data_of st) (p :: rest) ->
                    bufs st' !! a = bufs st !! a)).
    { split; [intros q; now rewrite D, D1 |]. split.
      - intros q Hq. apply not_elem_of_cons in Hq as [Hqp Hq]. rewrite O by exact Hq.
        now apply O1.
      - intros a Ha. cbn [map] in Ha. apply not_elem_of_cons in Ha as [Hap Ha].
        rewrite B by exact Ha. now apply B1. }
    unfold st1, step in *. clear st1 step.
    destruct (etype =? 0) eqn:Ez.
    + rewrite E.
      destruct (FwdEngine.mpls_remove_hdr_burst_from bo (n + 1) n_pkts ms') as [rest' ds].
      cbn [fst snd app] in *. split; [reflexivity |]. split; [| exact Frames].
      constructor; [exact P' | exact Hres].
    + destruct (FwdEngine.mpls_header_strip bo m etype) as [r m'] eqn:Es.
      cbn [snd] in *. rewrite E.
      destruct (FwdEngine.mpls_remove_hdr_burst_from bo (n + 1) n_pkts ms') as [rest' ds].
      cbn [fst snd] in *. split; [reflexivity |]. split; [| exact Frames].
      constructor; [exact P' | exact Hres].
Qed.


(** X9: on a batch whose buffers share no data, [mpls_remove_hdr_burst]
    treats every buffer on its own.  When the pointers of [pkts] refer to
    the buffers [ms] and no two of them name the same data, the function
    returns, every pointer then refers to its buffer with the
    decapsulation path applied to it, objects outside the batch and data
    that no buffer of the batch names are as they were, and stderr holds
    what the loop on the values writes: nothing, when every buffer holds
    at least 4 bytes of data. *)
Theorem remove_hdr_burst_elementwise
    (bo : byte_order) (st : store) (pkts : list nat) (ms : list rte_mbuf) :
  Forall2 (fun p m => deref st p = Some m) pkts ms ->
  NoDup (map (data_of st) pkts) ->
  exists st' ds,
    Store.mpls_remove_hdr_burst bo st pkts = Some (st', ds)
    /\ Forall2 (fun p m' => deref st' p = Some m') pkts (map (decapsulate bo) ms)
    /\ ds = snd (FwdEngine.mpls_remove_hdr_burst bo ms)
    /\ (Forall (fun m => MPLS_HDR_LEN <= rte_pktmbuf_data_len m) ms -> ds = [])
    /\ (forall q, q ∉ pkts -> objs st' !! q = objs st !! q)
    /\ (forall a, Some a ∉ map (data_of st) pkts -> bufs st' !! a = bufs st !! a).
Proof.
  intros Hms Hnd. unfold Store.mpls_remove_hdr_burst, FwdEngine.mpls_remove_hdr_burst.
  rewrite (Forall2_length _ _ _ Hms).
  destruct (remove_hdr_burst_from_unshared bo (Z.of_nat (length ms)) pkts 0 st ms Hms Hnd)
    as (st' & E & Hres & _ & O & B).
  destruct (remove_hdr_burst_values bo ms) as [Hv Hs].
  unfold FwdEngine.mpls_remove_hdr_burst in Hv, Hs.
  exists st', (snd (FwdEngine.mpls_remove_hdr_burst_from bo 0 (Z.of_nat (length ms)) ms)).
  split; [exact E |]. split; [now rewrite <- Hv |].
  split; [reflexivity |]. split; [exact Hs |]. split; [exact O | exact B].
Qed.

Lemma remove_hdr_burst_elementwise_witness :
  exists st' ds,
    Store.mpls_remove_hdr_burst LittleEndian unshared_store [0; 1]%nat = Some (st', ds)
    /\ deref st' 0 = Some (decapsulate LittleEndian mpls_mbuf)
    /\ deref st' 1 = Some (decapsulate LittleEndian mpls_mbuf)
    /\ ds = [].
Proof.
  destruct (remove_hdr_burst_elementwise LittleEndian unshared_store [0; 1]%nat
              [mpls_mbuf; mpls_mbuf])
    as (st' & ds & E & Hres & _ & Hs & _).
  - repeat constructor.
  - cbn. apply NoDup_cons. split; [| apply NoDup_singleton].
    intros H. inversion H as [| ? ? ? H']. inversion H'.
  - exists st', ds. split; [exact E |].
    apply Forall2_cons_1 in Hres as [H0 Hres]. apply Forall2_cons_1 in Hres as [H1 _].
    split; [exact H0 |]. split; [exact H1 |].
    apply Hs. repeat constructor; vm_compute; discriminate.
Defined.

(** Without the hypothesis the conclusion fails.  When a buffer and its
    clone are in one batch, the strip of the first moves the link-layer
    header in the data they share; the second then finds bytes of the
    source address where it looks for the ethertype and is left as it
    was, apart from the data. *)
Example clones_are_not_treated_alike :
  deref cloned_store 0 = Some mpls_mbuf
  /\ deref cloned_store 1 = Some mpls_mbuf
  /\ exists st',
       Store.mpls_remove_hdr_burst LittleEndian cloned_store [0; 1]%nat = Some (st', [])
       /\ deref st' 0 = Some (decapsulate LittleEndian mpls_mbuf)
       /\ data_len <$> deref st' 1 = Some (data_len mpls_mbuf)
       /\ deref st' 1 <> Some (decapsulate LittleEndian mpls_mbuf).
Proof.
  split; [reflexivity |]. split; [reflexivity |].
  eexists. split; [vm_compute; reflexivity |].
  split; [vm_compute; reflexivity |]. split; [vm_compute; reflexivity |].
  vm_compute. discriminate.
Qed.

End BuffersInMemory.

(** *** Encapsulation of a batch *)

(** A successful [mpls_header_insert] writes nothing to stderr. *)
Lemma insert_zero_silent bo m hdr :
  fst (fst (mpls_header_insert bo m hdr)) = 0 -> snd (mpls_header_insert bo m hdr) = [].
Proof.
  unfold mpls_header_insert.
  destruct (negb (RTE_MBUF_DIRECT m) || (rte_mbuf_refcnt_read m >? 1)); [reflexivity |].
  destruct (rte_pktmbuf_data_len m <? RTE_ETHER_MIN_LEN); [discriminate |].
  now destruct (rte_pktmbuf_prepend m MPLS_HDR_LEN).
Qed.

(** X28: [mpls_add_hdr_burst] writes nothing to stderr exactly when
    [mpls_header_insert] returned 0 for every buffer of the batch: no
    failure goes unreported and no success is reported as a failure. *)
Theorem add_hdr_burst_silent_iff_all_inserted
    (bo : byte_order) (pkts : list rte_mbuf) (hdr : mpls_header_t) :
  snd (mpls_add_hdr_burst bo pkts hdr) = []
  <-> Forall (fun m => fst (fst (mpls_header_insert bo m hdr)) = 0) pkts.
Proof.
  unfold mpls_add_hdr_burst. generalize 0 at 1 as n.
  induction pkts as [| m rest IH]; intros n.
  - split; [constructor | reflexivity].
  - cbn [mpls_add_hdr_burst_from]. unfold mpls_add_hdr_one.
    rewrite Forall_cons, <- (IH (n + 1)). clear IH.
    pose proof (insert_zero_silent bo m hdr) as Hsil.
    pose proof (insert_failure_unchanged bo m hdr) as Hcase.
    destruct (mpls_header_insert bo m hdr) as [[r m'] d].
    destruct (mpls_add_hdr_burst_from bo (n + 1) rest hdr) as [rest' ds].
    cbn [fst snd] in *. split.
    + intros H. apply app_eq_nil in H as [H1 H2].
      apply app_eq_nil in H1 as [_ H1].
      split; [| exact H2].
      destruct Hcase as [H0 | [Hneg _]]; [exact H0 |].
      apply Z.ltb_lt in Hneg. rewrite Hneg in H1. discriminate.
    + intros [H0 H2]. rewrite (Hsil H0), H2. subst r. reflexivity.
Qed.

(** ** The forwarding loop *)











(** X11: nothing but the stop flag ends the loop: as long as [lets_quit]
    reads [QUIT_FALSE] at every instant, [fwd_worker_loop] has not returned
    after any number of iterations, whatever is received and however the
    transmit queues answer. *)
Theorem worker_runs_until_stopped
    (bo : byte_order) (w : world) (s : fwd_stream) (fuel : nat) :
  (forall t, lets_quit_at w t = QUIT_FALSE) ->
  fwd_worker_loop bo w s fuel = None.
Proof.
  intros Hq. unfold fwd_worker_loop. generalize 0%nat as t.
  induction fuel as [| fuel IH]; intros t; [reflexivity |].
  cbn [fwd_worker_while]. rewrite !Hq.
  change (QUIT_FALSE =? QUIT_FALSE) with true. change (QUIT_FALSE =? QUIT_TRUE) with false.
  cbv iota. cbn [negb]. now rewrite IH.
Qed.

Lemma worker_runs_until_stopped_witness :
  fwd_worker_loop LittleEndian running_world sample_stream 7 = None.
Proof.
  apply (worker_runs_until_stopped LittleEndian running_world sample_stream 7).
  reflexivity.
Defined.

(** ** The core list *)

(** In an ascending sequence the scan stops on the value exactly when the
    value is there. *)
Lemma scan_prefix_found v l :
  StronglySorted Z.lt l -> (snd (scan_prefix v l) = true <-> v ∈ l).
Proof.
  induction 1 as [| a r Hr IH Ha]; cbn [scan_prefix].
  - split; [discriminate | intros H; now apply elem_of_nil in H].
  - destruct (Z.gtb_spec a v) as [Hgt | Hle]; cbn [snd].
    + split; [discriminate |]. intros Hin. apply elem_of_cons in Hin as [-> | Hin]; [lia |].
      rewrite Forall_forall in Ha. specialize (Ha v Hin). lia.
    + destruct (Z.eqb_spec a v) as [-> | Hne]; cbn [snd].
      * split; [intros _; apply list_elem_of_here | reflexivity].
      * destruct (scan_prefix v r) as [[A B] f]. cbn [snd] in *.
        rewrite IH. split; [apply list_elem_of_further |].
        intros Hin. apply elem_of_cons in Hin as [-> | Hin]; [congruence | exact Hin].
Qed.

(** X12: when the first [curr_n_elem] places of the array are strictly
    ascending, do not hold [val] and are not the whole array,
    [put_in_order] returns [curr_n_elem + 1] and leaves one place more in
    use: the places in use are strictly ascending again and hold [val] and
    what they held before, and the places behind them are untouched. *)
Theorem put_in_order_adds_new_value (val g : Z) (P R : list Z) :
  StronglySorted Z.lt P ->
  ~ val ∈ P ->
  Z.of_nat (length P) < INT_MAX ->
  Z.of_nat (length (P ++ g :: R)) < UINT_MAX ->
  exists P',
    put_in_order val (Z.of_nat (length P)) (P ++ g :: R) (Z.of_nat (length (P ++ g :: R)))
    = (Z.of_nat (length P) + 1, P' ++ R)
    /\ length P' = S (length P)
    /\ StronglySorted Z.lt P'
    /\ (forall x, x ∈ P' <-> x = val \/ x ∈ P).
Proof.
  intros Hs Hnin Hn Hlen. unfold INT_MAX, UINT_MAX in *.
  rewrite put_in_order_spec by lia.
  pose proof (scan_prefix_found val P Hs) as Hf.
  pose proof (length_insert_ascending val P) as Hl.
  destruct (snd (scan_prefix val P)).
  - exfalso. apply Hnin, Hf. reflexivity.
  - exists (insert_ascending val P).
    rewrite to_int_small by lia.
    split; [reflexivity |].
    split; [rewrite Hl; lia |].
    split; [now apply insert_ascending_sorted | apply elem_of_insert_ascending].
Qed.

Lemma put_in_order_adds_new_value_witness :
  exists P',
    put_in_order 5 (Z.of_nat (length [2; 7])) ([2; 7] ++ 0 :: [0])
      (Z.of_nat (length ([2; 7] ++ 0 :: [0])))
    = (Z.of_nat (length [2; 7]) + 1, P' ++ [0])
    /\ length P' = 3%nat
    /\ StronglySorted Z.lt P'.
Proof.
  destruct (put_in_order_adds_new_value 5 0 [2; 7] [0]) as (P' & E & L & S & _).
  - repeat constructor.
  - intros H. apply list_elem_of_In in H. cbn in H. intuition discriminate.
  - vm_compute. reflexivity.
  - vm_compute. reflexivity.
  - exists P'. split; [exact E |]. split; [exact L | exact S].
Defined.

(** X13: [put_in_order] leaves the array as it is in two cases: when [val]
    is already among the strictly ascending places in use, where it returns
    their number, full array or not; and when [val] is not among them and
    they are the whole array, where it returns -1. *)
Theorem put_in_order_leaves_array (val : Z) (P R : list Z) :
  StronglySorted Z.lt P ->
  Z.of_nat (length P) < INT_MAX ->
  Z.of_nat (length (P ++ R)) < UINT_MAX ->
  (val ∈ P ->
   put_in_order val (Z.of_nat (length P)) (P ++ R) (Z.of_nat (length (P ++ R)))
   = (Z.of_nat (length P), P ++ R))
  /\ (~ val ∈ P ->
      put_in_order val (Z.of_nat (length P)) P (Z.of_nat (length P)) = (-1, P)).
Proof.
  intros Hs Hn Hlen. unfold INT_MAX, UINT_MAX in *.
  pose proof (scan_prefix_found val P Hs) as Hf.
  split.
  - intros Hin. rewrite put_in_order_spec by lia.
    apply Hf in Hin. rewrite Hin. now rewrite to_int_small by lia.
  - intros Hnin. pose proof (put_in_order_spec val P []) as E.
    rewrite app_nil_r in E. rewrite E by (rewrite length_app in Hlen; lia).
    destruct (snd (scan_prefix val P)); [| reflexivity].
    exfalso. apply Hnin, Hf. reflexivity.
Qed.

Lemma put_in_order_leaves_array_witness :
  put_in_order 7 (Z.of_nat (length [2; 7])) ([2; 7] ++ [])
    (Z.of_nat (length ([2; 7] ++ [])))
  = (Z.of_nat (length [2; 7]), [2; 7] ++ []).
Proof.
  apply (put_in_order_leaves_array 7 [2; 7] []).
  - repeat constructor.
  - vm_compute. reflexivity.
  - vm_compute. reflexivity.
  - apply list_elem_of_further, list_elem_of_here.
Defined.

(** *** On every input *)

Lemma ascending_prefix_split N P R :
  length (P ++ R) = N -> StronglySorted Z.lt P ->
  ascending_prefix N (Z.of_nat (length P)) (P ++ R).
Proof.
  intros HN Hs. split; [exact HN |]. split.
  - rewrite <- HN, length_app. lia.
  - rewrite Nat2Z.id, take_app_length. exact Hs.
Qed.

(** The range loop keeps the places in use strictly ascending. *)
Lemma insert_range_keeps_ascending :
  forall fuel min max P R,
    0 <= min -> max <= INT_MAX ->
    StronglySorted Z.lt P ->
    Z.of_nat (length (P ++ R)) < UINT_MAX ->
    match insert_range fuel min max (Z.of_nat (length P)) (P ++ R)
            (Z.of_nat (length (P ++ R))) with
    | Range_done count cores =>
        exists P' R', cores = P' ++ R' /\ count = Z.of_nat (length P')
                      /\ StronglySorted Z.lt P' /\ length cores = length (P ++ R)
    | Range_full cores => length cores = length (P ++ R)
    | Range_overflow => True
    end.
Proof.
  induction fuel as [| fuel IH]; intros min max P R Hmin Hmax Hs Hlen.
  - cbn [insert_range]. exists P, R. auto.
  - cbn [insert_range]. unfold INT_MAX, UINT_MAX in *.
    destruct (Z.leb_spec min max) as [Hle | Hgt]; [| exists P, R; auto].
    unfold to_unsigned at 1. rewrite (Z.mod_small min) by lia.
    rewrite put_in_order_spec by lia.
    pose proof (length_insert_ascending min P) as Hli.
    rewrite length_app in Hlen.
    destruct (snd (scan_prefix min P)).
    + rewrite to_unsigned_to_int by lia.
      replace (Z.of_nat (length P) =? to_unsigned (-1)) with false
        by (symmetry; apply Z.eqb_neq; change (to_unsigned (-1)) with (2 ^ 32 - 1); lia).
      destruct (Z.eqb_spec min 2147483647); [exact I |].
      apply IH; try lia; [exact Hs | rewrite length_app; lia].
    + destruct R as [| g R'].
      { change (to_unsigned (-1) =? to_unsigned (-1)) with true. reflexivity. }
      cbn [length] in Hlen.
      rewrite to_unsigned_to_int by lia.
      replace (Z.of_nat (length P) + 1 =? to_unsigned (-1)) with false
        by (symmetry; apply Z.eqb_neq; change (to_unsigned (-1)) with (2 ^ 32 - 1); lia).
      destruct (Z.eqb_spec min 2147483647); [exact I |].
      replace (Z.of_nat (length P) + 1) with (Z.of_nat (length (insert_ascending min P)))
        by (rewrite Hli; lia).
      assert (HL : length (P ++ g :: R') = length (insert_ascending min P ++ R'))
        by (rewrite !length_app, Hli; cbn [length]; lia).
      rewrite HL.
      apply IH; try lia; [now apply insert_ascending_sorted |].
      rewrite length_app, Hli. lia.
Qed.

Lemma to_int_range x : - 2 ^ 31 <= to_int x < 2 ^ 31.
Proof. unfold to_int. pose proof (Z.mod_pos_bound (x + 2 ^ 31) (2 ^ 32)). lia. Qed.

(** The loop of [parse_core_list] keeps the places in use strictly
    ascending, whatever it reads. *)
Lemma parse_loop_keeps_ascending :
  forall fuel p P R count min,
    count = Z.of_nat (length P) ->
    0 <= min <= INT_MAX ->
    StronglySorted Z.lt P ->
    Z.of_nat (length (P ++ R)) < UINT_MAX ->
    match parse_loop fuel p (P ++ R) (Z.of_nat (length (P ++ R))) count min with
    | Some (Returns c cores) => ascending_prefix (length (P ++ R)) c cores
    | _ => True
    end.
Proof.
  induction fuel as [| fuel IH]; intros p P R count min -> Hmin Hs Hlen; [exact I |].
  cbn [parse_loop].
  assert (Hfail : ascending_prefix (length (P ++ R)) 0 (P ++ R)).
  { split; [reflexivity |]. split; [lia |]. cbn [Z.to_nat take]. constructor. }
  destruct (Ascii.eqb (peek (skip_blank p)) NUL).
  { now apply ascending_prefix_split. }
  destruct (strtol (skip_blank p)) as [[lval end_] erange].
  pose proof (to_int_range lval) as Hval.
  destruct (erange || (to_int lval <? 0)) eqn:Eneg; [exact Hfail |].
  apply orb_false_iff in Eneg as [_ Eneg]. apply Z.ltb_ge in Eneg.
  destruct ((to_int lval =? 0) && same_pointer (skip_blank p) end_); [exact Hfail |].
  destruct (Ascii.eqb (peek (skip_blank end_)) ","%char || Ascii.eqb (peek (skip_blank end_)) NUL).
  - cbv zeta.
    set (min' := if min =? INT_MAX then to_int lval else min).
    assert (Hmin' : 0 <= min') by (unfold min'; destruct (min =? INT_MAX); lia).
    pose proof (insert_range_keeps_ascending
                  (Z.to_nat (to_int lval - min' + 1)) min' (to_int lval) P R Hmin') as Hr.
    unfold INT_MAX in Hr at 1.
    specialize (Hr ltac:(lia) Hs Hlen).
    destruct (insert_range _ min' (to_int lval) _ _ _) as [c cores | cores |].
    + destruct Hr as (P' & R' & -> & -> & Hs' & HL).
      destruct (Ascii.eqb (peek (skip_blank end_)) NUL).
      * rewrite <- HL. now apply ascending_prefix_split.
      * rewrite <- HL. apply IH; try reflexivity; try assumption.
        -- unfold INT_MAX. lia.
        -- now rewrite HL.
    + split; [exact Hr |]. split; [lia |]. cbn [Z.to_nat take]. constructor.
    + exact I.
  - destruct (Ascii.eqb (peek (skip_blank end_)) "-"%char && (min =? INT_MAX)); [| exact Hfail].
    apply IH; try reflexivity; try assumption. unfold INT_MAX. lia.
Qed.

(** What [parse_loop_keeps_ascending] gives for a whole call. *)
Lemma parse_core_list_keeps_ascending list_ cores count cores' :
  Z.of_nat (length cores) < UINT_MAX ->
  parse_core_list list_ cores (Z.of_nat (length cores)) = Some (Returns count cores') ->
  length cores' = length cores
  /\ 0 <= count <= Z.of_nat (length cores)
  /\ StronglySorted Z.lt (take (Z.to_nat count) cores').
Proof.
  intros Hlen E. unfold parse_core_list in E.
  destruct (Z.eqb_spec (Z.of_nat (length cores)) 0) as [H0 | H0].
  - injection E as <- <-. split; [reflexivity |]. split; [lia |]. constructor.
  - pose proof (parse_loop_keeps_ascending (S (String.length list_))
                  (list_ascii_of_string list_) [] cores 0 INT_MAX) as H.
    cbn [app length] in H. rewrite E in H.
    apply H; [reflexivity | unfold INT_MAX; lia | constructor | lia].
Qed.

(** X14: on every input string, well-formed or not, [parse_core_list]
    comes to an end, and unless it ran the range loop up to [INT_MAX]
    (undefined behaviour) it returns a count that is at most the capacity
    and leaves an array of the same size whose first [count] places are
    strictly ascending. *)
Theorem parse_core_list_result_ascending (list_ : string) (cores : list Z) :
  Z.of_nat (length cores) < UINT_MAX ->
  exists r,
    parse_core_list list_ cores (Z.of_nat (length cores)) = Some r
    /\ match r with
       | Returns count cores' =>
           length cores' = length cores
           /\ 0 <= count <= Z.of_nat (length cores)
           /\ StronglySorted Z.lt (take (Z.to_nat count) cores')
       | Undefined_behaviour => True
       end.
Proof.
  intros Hlen. unfold parse_core_list.
  destruct (Z.eqb_spec (Z.of_nat (length cores)) 0) as [H0 | H0].
  - eexists. split; [reflexivity |].
    split; [reflexivity |]. split; [lia |]. constructor.
  - destruct (parse_loop_total (S (String.length list_)) (list_ascii_of_string list_)
                cores (Z.of_nat (length cores)) 0 INT_MAX) as [r E].
    { rewrite length_list_ascii_of_string. lia. }
    exists r. split; [exact E |].
    destruct r as [c cores' |]; [| exact I].
    apply (parse_core_list_keeps_ascending list_); [exact Hlen |].
    unfold parse_core_list.
    replace (Z.of_nat (length cores) =? 0) with false by (symmetry; now apply Z.eqb_neq).
    exact E.
Qed.

Lemma parse_core_list_result_ascending_witness :
  exists r,
    parse_core_list "7, 3-5,x" [0; 0; 0; 0; 0] (Z.of_nat (length [0; 0; 0; 0; 0])) = Some r
    /\ match r with
       | Returns count cores' =>
           length cores' = length [0; 0; 0; 0; 0]
           /\ 0 <= count <= Z.of_nat (length [0; 0; 0; 0; 0])
           /\ StronglySorted Z.lt (take (Z.to_nat count) cores')
       | Undefined_behaviour => True
       end.
Proof.
  apply (parse_core_list_result_ascending "7, 3-5,x" [0; 0; 0; 0; 0]).
  vm_compute. reflexivity.
Defined.

(** ** The command line *)

Section CommandLine.

Import Cmdline.

(** The loop of [print_app_args], for every value of [flag]. *)
Lemma print_app_args_from_spec (p : list string) (flag : Z) :
  (fst (print_app_args_from p flag) = 1 <->
     exists pre a post,
       p = pre ++ a :: post /\ is_help a = true
       /\ Forall (fun x => is_help x = false) pre
       /\ (flag <> 0 \/ "--"%string ∈ pre))
  /\ snd (print_app_args_from p flag) = (if existsb is_help p then 1 else 0)%nat.
Proof.
  revert flag. induction p as [| a p IH]; intros flag; cbn [print_app_args_from existsb].
  - split; [| reflexivity]. split; [discriminate |].
    intros (pre & b & post & E & _). now destruct pre.
  - fold (is_help a). destruct (is_help a) eqn:Ha; cbn [orb fst snd].
    + split; [| reflexivity]. split.
      * intros H. exists [], a, p. repeat split; auto.
        left. intros ->. discriminate.
      * intros (pre & b & post & E & Hb & Hpre & Hsep).
        destruct pre as [| c pre].
        -- destruct Hsep as [Hf | Hin]; [| now apply elem_of_nil in Hin].
           destruct (Z.eqb_spec flag 0); [contradiction | reflexivity].
        -- cbn [app] in E. injection E as <- _.
           apply Forall_cons in Hpre as [Hc _]. congruence.
    + destruct (IH (if String.eqb a "--" then 1 else flag)) as [IH1 IH2].
      split; [| exact IH2]. rewrite IH1. split.
      * intros (pre & b & post & -> & Hb & Hpre & Hsep).
        exists (a :: pre), b, post. repeat split; auto.
        destruct (String.eqb_spec a "--") as [-> | Hne].
        -- right. apply list_elem_of_here.
        -- destruct Hsep as [Hf | Hin]; [now left | right; now apply list_elem_of_further].
      * intros (pre & b & post & E & Hb & Hpre & Hsep).
        destruct pre as [| c pre]; cbn [app] in E; injection E as <- ->; [congruence |].
        apply Forall_cons in Hpre as [_ Hpre].
        exists pre, b, post. repeat split; auto.
        destruct (String.eqb_spec a "--") as [-> | Hne]; [left; discriminate |].
        destruct Hsep as [Hf | Hin]; [now left |].
        apply elem_of_cons in Hin as [Hin | Hin]; [congruence | now right].
Qed.

(** X17: [print_app_args] returns 1 exactly when the first ["--help"] or
    ["-h"] of [argv] stands somewhere behind a ["--"], and 0 otherwise; it
    prints the usage text once whenever [argv] holds one of the two at
    all, so a help option in front of ["--"] prints the text and still
    returns 0. *)
Theorem print_app_args_help_behind_separator (argv : list string) :
  (fst (print_app_args argv) = 1 <->
     exists pre a post,
       argv = pre ++ a :: post /\ is_help a = true
       /\ Forall (fun x => is_help x = false) pre
       /\ "--"%string ∈ pre)
  /\ (fst (print_app_args argv) = 0 \/ fst (print_app_args argv) = 1)
  /\ snd (print_app_args argv) = (if existsb is_help argv then 1 else 0)%nat.
Proof.
  unfold print_app_args.
  destruct (print_app_args_from_spec argv 0) as [H1 H2].
  split; [| split; [| exact H2]].
  - rewrite H1. split; intros (pre & a & post & E & Ha & Hpre & Hsep);
      exists pre, a, post; repeat split; auto.
    destruct Hsep as [Hf | Hin]; [contradiction | exact Hin].
  - clear. generalize 0 at 1 3 as flag. induction argv as [| a p IH]; intros flag;
      cbn [print_app_args_from]; [now left |].
    destruct (String.eqb a "--help" || String.eqb a "-h"); [| apply IH].
    cbn [fst]. destruct (negb (flag =? 0)); auto.
Qed.

(** The bits of [v] outside the low [k] bits are clear exactly when [v]
    lies between 0 and [2 ^ k]. *)
Lemma land_lnot_ones_zero v k :
  0 <= k -> (Z.land v (Z.lnot (Z.ones k)) = 0 <-> 0 <= v < 2 ^ k).
Proof.
  intros Hk. split.
  - intros H.
    assert (E : v = v mod 2 ^ k).
    { apply Z.bits_inj'. intros n Hn. rewrite Z.testbit_mod_pow2 by lia.
      destruct (Z.ltb_spec n k) as [Hlt | Hge]; [reflexivity |].
      apply (f_equal (fun x => Z.testbit x n)) in H.
      rewrite Z.land_spec, Z.lnot_spec, Z.testbit_ones, Z.bits_0 in H by lia.
      replace (n <? k) with false in H by (symmetry; apply Z.ltb_ge; lia).
      replace (0 <=? n) with true in H by (symmetry; apply Z.leb_le; lia).
      cbn in H. now rewrite andb_true_r in H. }
    rewrite E. apply Z.mod_pos_bound. lia.
  - intros Hv. apply Z.bits_inj'. intros n Hn.
    rewrite Z.land_spec, Z.lnot_spec, Z.testbit_ones, Z.bits_0 by lia.
    destruct (Z.ltb_spec n k) as [Hlt | Hge].
    + replace (0 <=? n) with true by (symmetry; apply Z.leb_le; lia).
      cbn. apply andb_false_r.
    + rewrite <- (Z.mod_small v (2 ^ k)) by lia.
      rewrite Z.mod_pow2_bits_high by lia. reflexivity.
Qed.

(** What [strtol_masked] accepts lies within the mask. *)
Lemma strtol_masked_range k name optarg v :
  0 <= k <= 32 ->
  strtol_masked (Z.ones k) name optarg = inl v -> 0 <= v <= Z.ones k.
Proof.
  intros Hk. unfold strtol_masked.
  destruct (strtol (list_ascii_of_string optarg)) as [[val endptr] erange].
  destruct ((_ =? ERANGE) || _); [discriminate |].
  destruct (Z.eqb_spec (Z.land val (Z.lnot (Z.ones k))) 0) as [H0 | H0].
  2: { rewrite orb_true_r. discriminate. }
  destruct (_ || _); [discriminate |].
  intros E. injection E as <-.
  apply land_lnot_ones_zero in H0; [| lia].
  assert (2 ^ k <= 2 ^ 32) by (apply Z.pow_le_mono_r; lia).
  unfold u32. rewrite Z.mod_small by lia. rewrite Z.ones_equiv. lia.
Qed.

(** A string of decimal digits is accepted exactly when its value lies
    within the mask. *)
Lemma strtol_masked_digits k name d ds :
  0 <= k <= 32 ->
  strtol_masked (Z.ones k) name (string_of_list_ascii (map digit_char (d :: ds)))
  = if digits_value 0 (d :: ds) <=? Z.ones k
    then inl (digits_value 0 (d :: ds))
    else inr (if digits_value 0 (d :: ds) <=? LONG_MAX
              then Invalid_arg (string_of_list_ascii (map digit_char (d :: ds))) name
              else Strtol_failed (string_of_list_ascii (map digit_char (d :: ds)))).
Proof.
  intros Hk. unfold strtol_masked.
  rewrite list_ascii_of_string_of_list_ascii.
  set (v := digits_value 0 (d :: ds)).
  assert (Hv : 0 <= v) by (apply digits_value_nonneg; lia).
  assert (Hp : 2 ^ k <= 2 ^ 32) by (apply Z.pow_le_mono_r; lia).
  destruct (Z.leb_spec v LONG_MAX) as [Hlong | Hlong].
  - pose proof (strtol_spec d ds [] eq_refl Hlong) as E.
    rewrite app_nil_r in E. rewrite E. fold v.
    cbn [Z.eqb negb andb orb ERANGE].
    change (same_pointer [] (map digit_char (d :: ds))) with false.
    cbn [orb peek]. rewrite Ascii.eqb_refl. cbn [negb orb].
    destruct (Z.leb_spec v (Z.ones k)) as [Hin | Hout].
    + replace (Z.land v (Z.lnot (Z.ones k)) =? 0) with true.
      * cbn [negb]. unfold u32. rewrite Z.mod_small; [reflexivity |].
        rewrite Z.ones_equiv in Hin. lia.
      * symmetry. apply Z.eqb_eq. apply land_lnot_ones_zero; [lia |].
        rewrite Z.ones_equiv in Hin. lia.
    + replace (Z.land v (Z.lnot (Z.ones k)) =? 0) with false; [reflexivity |].
      symmetry. apply Z.eqb_neq. intros H0. apply land_lnot_ones_zero in H0; [| lia].
      rewrite Z.ones_equiv in Hout. lia.
  - replace (v <=? Z.ones k) with false.
    2: { symmetry. apply Z.leb_gt. rewrite Z.ones_equiv. unfold LONG_MAX in Hlong. lia. }
    unfold strtol. cbn [map]. rewrite <- (app_nil_r (map digit_char ds)).
    assert (Hsk : skip_space (digit_char d :: map digit_char ds ++ [])
                  = digit_char d :: map digit_char ds ++ []).
    { cbn [skip_space]. now rewrite isspace_digit_char. }
    rewrite Hsk.
    assert (Hnum : strtol_number false (digit_char d :: map digit_char ds ++ [])
                     (digit_char d :: map digit_char ds ++ [])
                   = (LONG_MAX, [], true)).
    { unfold strtol_number. cbn [peek]. rewrite isdigit_digit_char.
      change (digit_char d :: map digit_char ds ++ []) with (map digit_char (d :: ds) ++ []).
      rewrite strtol_digits_spec by reflexivity. fold v.
      now rewrite (gtb_true v LONG_MAX) by lia. }
    destruct d; cbn [digit_char]; cbn [digit_char] in Hnum; rewrite Hnum; reflexivity.
Qed.

(** X18: given a string of decimal digits, the option [--mpls-label]
    stores its value when the value is at most 1048575 (20 bits) and
    [--mpls-ttl] when it is at most 255; a larger value ends the process
    with [EXIT_FAILURE], and the configuration is changed in no other
    field. *)
Theorem label_and_ttl_options_accept_field_range
    (port_by_name : string -> Z -> Z * Z) (d : digit) (ds : list digit)
    (conf : cmdline_config) :
  let optarg := string_of_list_ascii (map digit_char (d :: ds)) in
  let v := digits_value 0 (d :: ds) in
  (do_args_parse_case port_by_name LARG_MPLS_LABEL optarg conf
   = if v <=? 1048575 then Args_parsed (set_mpls_label conf v)
     else Args_exit EXIT_FAILURE false
            (Some (if v <=? LONG_MAX then Invalid_arg optarg "mpls-label"
                   else Strtol_failed optarg)))
  /\ (do_args_parse_case port_by_name LARG_MPLS_TTL optarg conf
      = if v <=? 255 then Args_parsed (set_mpls_ttl conf v)
        else Args_exit EXIT_FAILURE false
               (Some (if v <=? LONG_MAX then Invalid_arg optarg "mpls-ttl"
                      else Strtol_failed optarg))).
Proof.
  cbv zeta. unfold do_args_parse_case.
  change (LARG_MPLS_LABEL =? LARG_MPLS_LABEL) with true.
  change (LARG_MPLS_TTL =? LARG_MPLS_LABEL) with false.
  change (LARG_MPLS_TTL =? LARG_MPLS_TTL) with true. cbv iota.
  rewrite mask_label, mask_ttl, !strtol_masked_digits by lia.
  change (Z.ones 20) with 1048575. change (Z.ones 8) with 255.
  split.
  - now destruct (digits_value 0 (d :: ds) <=? 1048575).
  - now destruct (digits_value 0 (d :: ds) <=? 255).
Qed.

(** X19: whatever options [getopt_long] hands over and whatever their
    arguments are, a configuration that [do_args_parse] returns with is
    valid when the one it started from was: the label fits 20 bits, the TTL
    8 bits, the number of cores is at most the size of the array and the
    cores stand in strictly ascending order at its front. *)
Theorem do_args_parse_keeps_config_valid
    (port_by_name : string -> Z -> Z * Z) (opts : list (Z * string))
    (conf conf' : cmdline_config) :
  config_valid conf ->
  Z.of_nat (length (cores conf)) < UINT_MAX ->
  do_args_parse port_by_name opts conf = Args_parsed conf' ->
  config_valid conf' /\ length (cores conf') = length (cores conf).
Proof.
  revert conf. induction opts as [| [opt optarg] opts IH]; intros conf Hv Hlen E.
  - cbn [do_args_parse] in E. injection E as <-. auto.
  - cbn [do_args_parse] in E.
    destruct (do_args_parse_case port_by_name opt optarg conf) as [conf1 | |] eqn:Ec;
      try discriminate.
    assert (H1 : config_valid conf1 /\ length (cores conf1) = length (cores conf)).
    { clear IH E. destruct Hv as (Hl & Ht & Hn & Hs). unfold do_args_parse_case in Ec.
      repeat match type of Ec with
        | (if ?c then _ else _) = _ => destruct c eqn:?
        | (match ?c with _ => _ end) = _ => destruct c eqn:?
        | Args_exit _ _ _ = _ => discriminate
        | Args_undefined = _ => discriminate
        | Args_parsed _ = _ => injection Ec as <-
        end.
      - (* label *)
        split; [| reflexivity]. rewrite mask_label in *.
        match goal with H : strtol_masked _ _ _ = inl _ |- _ =>
          apply strtol_masked_range in H; [| lia] end.
        repeat split; cbn; try rewrite mask_label; auto; lia.
      - (* TTL *)
        split; [| reflexivity]. rewrite mask_ttl in *.
        match goal with H : strtol_masked _ _ _ = inl _ |- _ =>
          apply strtol_masked_range in H; [| lia] end.
        repeat split; cbn; try rewrite mask_ttl; auto; lia.
      - (* device *)
        split; [| reflexivity]. repeat split; cbn; auto; lia.
      - (* core list *)
        match goal with H : parse_core_list _ _ _ = Some _ |- _ =>
          apply parse_core_list_keeps_ascending in H as (L & C & S); [| exact Hlen] end.
        split; [| exact L]. repeat split; cbn; auto; try lia.
      - (* gabby *)
        split; [| reflexivity]. repeat split; cbn; auto; lia. }
    destruct H1 as [Hv1 L1].
    destruct (IH conf1 Hv1 ltac:(rewrite L1; exact Hlen) E) as [Hv' L'].
    split; [exact Hv' | congruence].
Qed.

Lemma do_args_parse_keeps_config_valid_witness :
  exists conf',
    do_args_parse (fun _ port => (0, port))
      [(LARG_MPLS_LABEL, "100"%string); (LARG_NUM_CORES, "5,2,9"%string);
       (LARG_GABBY, EmptyString)]
      (Start.g_app_config 4)
    = Args_parsed conf'
    /\ config_valid conf'.
Proof.
  destruct (do_args_parse (fun _ port => (0, port))
              [(LARG_MPLS_LABEL, "100"%string); (LARG_NUM_CORES, "5,2,9"%string);
               (LARG_GABBY, EmptyString)]
              (Start.g_app_config 4)) as [conf' | |] eqn:E.
  - exists conf'. split; [reflexivity |].
    refine (proj1 (do_args_parse_keeps_config_valid (fun _ port => (0, port)) _
                     (Start.g_app_config 4) conf' _ _ E)).
    + unfold config_valid, Start.g_app_config.
      cbn [mpls_label mpls_ttl num_cores cores Z.to_nat take].
      split; [vm_compute; split; discriminate |].
      split; [vm_compute; split; discriminate |].
      split; [vm_compute; split; discriminate | constructor].
    + vm_compute. reflexivity.
  - vm_compute in E. discriminate.
  - vm_compute in E. discriminate.
Defined.

(** X20: a core list that holds nothing but blanks, the empty one
    included, makes [parse_core_list] return 0 with the array untouched,
    and the option [--core-list] end the process with [EXIT_FAILURE]. *)
Theorem blank_core_list_is_refused
    (port_by_name : string -> Z -> Z * Z) (bs : list blank) (conf : cmdline_config) :
  let optarg := string_of_list_ascii (map blank_char bs) in
  parse_core_list optarg (cores conf) (Z.of_nat (length (cores conf)))
  = Some (Returns 0 (cores conf))
  /\ do_args_parse_case port_by_name LARG_NUM_CORES optarg conf
     = Args_exit EXIT_FAILURE false (Some (Invalid_arg optarg "core-list")).
Proof.
  cbv zeta.
  assert (E : parse_core_list (string_of_list_ascii (map blank_char bs)) (cores conf)
                (Z.of_nat (length (cores conf)))
              = Some (Returns 0 (cores conf))).
  { unfold parse_core_list. destruct (_ =? 0); [reflexivity |].
    rewrite list_ascii_of_string_of_list_ascii. cbn [parse_loop].
    rewrite <- (app_nil_r (map blank_char bs)), skip_blank_blanks.
    reflexivity. }
  split; [exact E |].
  unfold do_args_parse_case. rewrite E. reflexivity.
Qed.

End CommandLine.

(** ** Start-up *)

Section Startup.

Import Start.

(** *** Streams *)

Lemma u16_succ s : u16 (u16 s + 1) = u16 (s + 1).
Proof. unfold u16. now rewrite Zplus_mod_idemp_l. Qed.

(** The loop of [fwd_stream_conf] configures the places from [s] up to
    [n_stream] and no other. *)
Lemma fwd_stream_conf_for_lookup conf p_in p_out n_stream :
  forall fuel s strm k,
    0 <= s <= n_stream -> n_stream < 2 ^ 32 ->
    (Z.to_nat (n_stream - s) <= fuel)%nat ->
    fwd_stream_conf_for fuel conf p_in p_out s n_stream (u16 s) strm !! k
    = if (s <=? Z.of_nat k) && (Z.of_nat k <? n_stream)
      then fwd_stream_conf_body conf p_in p_out (u16 (Z.of_nat k)) <$> strm !! k
      else strm !! k.
Proof.
  induction fuel as [| fuel IH]; intros s strm k Hs Hn Hfuel.
  - cbn [fwd_stream_conf_for].
    replace ((s <=? Z.of_nat k) && (Z.of_nat k <? n_stream)) with false; [reflexivity |].
    symmetry. apply andb_false_iff. destruct (Z.leb_spec s (Z.of_nat k)); [right | now left].
    apply Z.ltb_ge. lia.
  - cbn [fwd_stream_conf_for].
    destruct (Z.ltb_spec s n_stream) as [Hlt | Hge].
    + rewrite u16_succ, (u32_small (s + 1)) by lia.
      rewrite IH by lia.
      destruct (Nat.eq_dec (Z.to_nat s) k) as [<- | Hne].
      * rewrite Z2Nat.id by lia.
        replace (s + 1 <=? s) with false by (symmetry; apply Z.leb_gt; lia).
        rewrite Z.leb_refl. replace (s <? n_stream) with true by (symmetry; apply Z.ltb_lt; lia).
        cbn [andb]. apply list_lookup_alter_eq.
      * rewrite list_lookup_alter_ne by exact Hne.
        destruct (Z.leb_spec (s + 1) (Z.of_nat k)), (Z.leb_spec s (Z.of_nat k));
          try lia; reflexivity.
    + replace ((s <=? Z.of_nat k) && (Z.of_nat k <? n_stream)) with false; [reflexivity |].
      symmetry. apply andb_false_iff. destruct (Z.leb_spec s (Z.of_nat k)); [right | now left].
      apply Z.ltb_ge. lia.
Qed.

Lemma fwd_stream_conf_for_length conf p_in p_out n_stream :
  forall fuel s q strm,
    length (fwd_stream_conf_for fuel conf p_in p_out s n_stream q strm) = length strm.
Proof.
  induction fuel as [| fuel IH]; intros s q strm; cbn [fwd_stream_conf_for]; [reflexivity |].
  destruct (s <? n_stream); [| reflexivity]. now rewrite IH, length_alter.
Qed.

(** X21: for a stream count between 1 and the size of the array,
    [fwd_stream_conf] returns 0 and gives stream [s] the queue index [s]
    (as a 16-bit number) for receive and transmit on both ports, the ids of
    the two ports and the configured label and TTL; it keeps the [print]
    field of the stream and leaves the places behind the count as they
    were. *)
Theorem fwd_stream_conf_gives_stream_its_queue
    (conf : Cmdline.cmdline_config) (p_in p_out : port_params)
    (strm : list fwd_stream) (n_stream : Z) :
  0 < n_stream <= Z.of_nat (length strm) ->
  n_stream < 2 ^ 32 ->
  exists strm',
    fwd_stream_conf conf (Some p_in) (Some p_out) (Some strm) n_stream = (0, Some strm', [])
    /\ length strm' = length strm
    /\ (forall (s : nat) x,
          Z.of_nat s < n_stream -> strm !! s = Some x ->
          strm' !! s
          = Some {| input_port :=
                      {| FwdEngine.id := id p_in;
                         rx_queue_id := u16 (Z.of_nat s); tx_queue_id := u16 (Z.of_nat s) |};
                    output_port :=
                      {| FwdEngine.id := id p_out;
                         rx_queue_id := u16 (Z.of_nat s); tx_queue_id := u16 (Z.of_nat s) |};
                    mpls_label := Cmdline.mpls_label conf;
                    mpls_ttl := Cmdline.mpls_ttl conf;
                    print := print x |})
    /\ (forall s : nat, n_stream <= Z.of_nat s -> strm' !! s = strm !! s).
Proof.
  intros Hn Hmax. unfold fwd_stream_conf.
  replace (n_stream =? 0) with false by (symmetry; apply Z.eqb_neq; lia).
  eexists. split; [reflexivity |].
  split; [apply fwd_stream_conf_for_length |].
  unfold QUEUE_INITIAL_IDX. change 0 with (u16 0) at 2 4.
  split.
  - intros s x Hs Hx. rewrite fwd_stream_conf_for_lookup by lia.
    replace (0 <=? Z.of_nat s) with true by (symmetry; apply Z.leb_le; lia).
    replace (Z.of_nat s <? n_stream) with true by (symmetry; apply Z.ltb_lt; lia).
    cbn [andb]. rewrite Hx. reflexivity.
  - intros s Hs. rewrite fwd_stream_conf_for_lookup by lia.
    replace (Z.of_nat s <? n_stream) with false by (symmetry; apply Z.ltb_ge; lia).
    now rewrite andb_false_r.
Qed.

Lemma fwd_stream_conf_gives_stream_its_queue_witness :
  exists strm',
    fwd_stream_conf sample_config (Some sample_port_in) (Some sample_port_out)
      (Some [sample_stream; sample_stream; sample_stream]) 2
    = (0, Some strm', [])
    /\ length strm' = 3%nat.
Proof.
  destruct (fwd_stream_conf_gives_stream_its_queue sample_config
              sample_port_in sample_port_out
              [sample_stream; sample_stream; sample_stream] 2)
    as (strm' & E & L & _).
  - cbn [length]. lia.
  - lia.
  - exists strm'. split; [exact E | exact L].
Defined.

(** The loop of [fwd_stream_alloc] marks the places from [s] up to [n_cores]. *)
Lemma fwd_stream_alloc_for_lookup n_cores :
  forall fuel s strm (k : nat),
    0 <= s <= n_cores -> n_cores < 2 ^ 32 ->
    (Z.to_nat (n_cores - s) <= fuel)%nat ->
    fwd_stream_alloc_for fuel s n_cores strm !! k
    = if (s <=? Z.of_nat k) && (Z.of_nat k <? n_cores)
      then fwd_stream_alloc_body <$> strm !! k
      else strm !! k.
Proof.
  induction fuel as [| fuel IH]; intros s strm k Hs Hn Hfuel.
  - cbn [fwd_stream_alloc_for].
    replace ((s <=? Z.of_nat k) && (Z.of_nat k <? n_cores)) with false; [reflexivity |].
    symmetry. apply andb_false_iff. destruct (Z.leb_spec s (Z.of_nat k)); [right | now left].
    apply Z.ltb_ge. lia.
  - cbn [fwd_stream_alloc_for].
    destruct (Z.ltb_spec s n_cores) as [Hlt | Hge].
    + rewrite (u32_small (s + 1)) by lia.
      rewrite IH by lia.
      destruct (Nat.eq_dec (Z.to_nat s) k) as [<- | Hne].
      * rewrite Z2Nat.id by lia.
        replace (s + 1 <=? s) with false by (symmetry; apply Z.leb_gt; lia).
        rewrite Z.leb_refl. replace (s <? n_cores) with true by (symmetry; apply Z.ltb_lt; lia).
        cbn [andb]. apply list_lookup_alter_eq.
      * rewrite list_lookup_alter_ne by exact Hne.
        destruct (Z.leb_spec (s + 1) (Z.of_nat k)), (Z.leb_spec s (Z.of_nat k));
          try lia; reflexivity.
    + replace ((s <=? Z.of_nat k) && (Z.of_nat k <? n_cores)) with false; [reflexivity |].
      symmetry. apply andb_false_iff. destruct (Z.leb_spec s (Z.of_nat k)); [right | now left].
      apply Z.ltb_ge. lia.
Qed.

(** X22: for at most 65536 cores and a label and a TTL within their
    fields, [fwd_stream_alloc] followed by [fwd_stream_conf] yields one
    stream per core; the stream at position [q] uses queue [q] on both
    ports, so that no two streams share a queue, has [print] 0, and the
    header its worker stamps reads back the configured label and TTL. *)
Theorem streams_after_alloc_and_conf
    (conf : Cmdline.cmdline_config) (p_in p_out : port_params) (n_cores : Z) :
  0 < n_cores <= 2 ^ 16 ->
  0 <= Cmdline.mpls_label conf <= MPLS_HDR_LABEL_MASK ->
  0 <= Cmdline.mpls_ttl conf <= MPLS_HDR_TTL_MASK ->
  exists strm0 strm,
    fwd_stream_alloc false n_cores = (Some strm0, [])
    /\ fwd_stream_conf conf (Some p_in) (Some p_out) (Some strm0) n_cores = (0, Some strm, [])
    /\ Z.of_nat (length strm) = n_cores
    /\ forall q x,
         strm !! q = Some x ->
         x = {| input_port := {| FwdEngine.id := id p_in; rx_queue_id := Z.of_nat q;
                                 tx_queue_id := Z.of_nat q |};
                output_port := {| FwdEngine.id := id p_out; rx_queue_id := Z.of_nat q;
                                  tx_queue_id := Z.of_nat q |};
                mpls_label := Cmdline.mpls_label conf;
                mpls_ttl := Cmdline.mpls_ttl conf;
                print := 0 |}
         /\ mpls_get_label (stream_mpls_hdr x) = Cmdline.mpls_label conf
         /\ mpls_get_ttl (stream_mpls_hdr x) = Cmdline.mpls_ttl conf.
Proof.
  intros Hn Hl Ht. unfold fwd_stream_alloc, calloc_fwd_stream, fwd_stream_conf.
  replace (n_cores =? 0) with false by (symmetry; apply Z.eqb_neq; lia).
  do 2 eexists. split; [reflexivity |]. split; [reflexivity |].
  split.
  - rewrite fwd_stream_conf_for_length.
    assert (L : forall fuel s l, length (fwd_stream_alloc_for fuel s n_cores l) = length l).
    { induction fuel as [| fuel IH]; intros s l; cbn [fwd_stream_alloc_for]; [reflexivity |].
      destruct (s <? n_cores); [| reflexivity]. now rewrite IH, length_alter. }
    rewrite L, length_replicate. lia.
  - intros q x Hx. unfold QUEUE_INITIAL_IDX in Hx. change 0 with (u16 0) in Hx at 2.
    rewrite fwd_stream_conf_for_lookup in Hx by lia.
    rewrite fwd_stream_alloc_for_lookup in Hx by lia.
    destruct (Z.ltb_spec (Z.of_nat q) n_cores) as [Hq | Hq].
    + replace (0 <=? Z.of_nat q) with true in Hx by (symmetry; apply Z.leb_le; lia).
      cbn [andb] in Hx.
      rewrite lookup_replicate_2 in Hx by lia. cbn in Hx. injection Hx as <-.
      unfold u16. rewrite (Z.mod_small (Z.of_nat q)) by lia.
      unfold fwd_stream_conf_body, fwd_stream_alloc_body. cbn [print].
      split; [reflexivity |].
      match goal with |- context [stream_mpls_hdr ?y] =>
        destruct (stream_header_fields y) as (Hlab & _ & Httl) end;
        cbn [mpls_label mpls_ttl] in *; unfold MPLS_HDR_LABEL_MASK, MPLS_HDR_TTL_MASK in *;
        lia.
    + rewrite !andb_false_r in Hx.
      apply lookup_lt_Some in Hx. rewrite length_replicate in Hx. lia.
Qed.

Lemma streams_after_alloc_and_conf_witness :
  exists strm0 strm,
    fwd_stream_alloc false 3 = (Some strm0, [])
    /\ fwd_stream_conf sample_config (Some sample_port_in) (Some sample_port_out)
         (Some strm0) 3
       = (0, Some strm, [])
    /\ Z.of_nat (length strm) = 3.
Proof.
  destruct (streams_after_alloc_and_conf sample_config sample_port_in sample_port_out 3)
    as (strm0 & strm & E0 & E & L & _).
  - lia.
  - vm_compute. split; discriminate.
  - vm_compute. split; discriminate.
  - exists strm0, strm. split; [exact E0 |]. split; [exact E | exact L].
Defined.

(** *** Cores *)

Lemma main_valid_cores_for_spec (en : Z -> Z) (m : nat) :
  forall (fuel i j : nat) (cores : list Z),
    (j <= i)%nat -> (i <= m)%nat -> (m <= length cores)%nat ->
    Z.of_nat (length cores) < 2 ^ 32 ->
    (m - i <= fuel)%nat ->
    exists cores',
      main_valid_cores_for en fuel (Z.of_nat i) (Z.of_nat j) (Z.of_nat m) cores
      = (cores',
         Z.of_nat (j + length (enabled_of en (take (m - i) (drop i cores)))),
         map Core_not_enabled (disabled_of en (take (m - i) (drop i cores))))
      /\ length cores' = length cores
      /\ take (j + length (enabled_of en (take (m - i) (drop i cores)))) cores'
         = take j cores ++ enabled_of en (take (m - i) (drop i cores)).
Proof.
  induction fuel as [| fuel IH]; intros i j cores Hji Him Hml Hlen Hfuel.
  - replace (m - i)%nat with 0%nat by lia. cbn [take enabled_of disabled_of List.filter map length].
    exists cores. rewrite Nat.add_0_r, app_nil_r. auto.
  - cbn [main_valid_cores_for].
    destruct (Nat.eq_dec i m) as [-> | Hne].
    + rewrite Z.ltb_irrefl. cbn [andb].
      replace (m - m)%nat with 0%nat by lia.
      cbn [take enabled_of disabled_of List.filter map length].
      exists cores. rewrite Nat.add_0_r, app_nil_r. auto.
    + replace (Z.of_nat i <? Z.of_nat m) with true by (symmetry; apply Z.ltb_lt; lia).
      replace (Z.of_nat i <? Z.of_nat (length cores)) with true
        by (symmetry; apply Z.ltb_lt; lia).
      cbn [andb].
      destruct (lookup_lt_is_Some_2 cores i ltac:(lia)) as [x Hx].
      assert (Hget : aget cores (Z.of_nat i) = x) by (unfold aget; now rewrite Nat2Z.id, Hx).
      rewrite Hget.
      assert (Hdrop : take (m - i) (drop i cores) = x :: take (m - S i) (drop (S i) cores)).
      { rewrite (drop_S _ _ _ Hx). replace (m - i)%nat with (S (m - S i)) by lia. reflexivity. }
      rewrite Hdrop. unfold enabled_of, disabled_of. cbn [List.filter].
      rewrite (u32_small (Z.of_nat i + 1)) by lia.
      replace (Z.of_nat i + 1) with (Z.of_nat (S i)) by lia.
      destruct (en x =? 0) eqn:Een; cbn [negb].
      * destruct (IH (S i) j cores) as (cores' & E & L & T); try lia.
        rewrite E. exists cores'. cbn [map]. auto.
      * rewrite (u32_small (Z.of_nat j + 1)) by lia.
        replace (Z.of_nat j + 1) with (Z.of_nat (S j)) by lia.
        unfold aset. rewrite Nat2Z.id.
        destruct (IH (S i) (S j) (<[j := x]> cores)) as (cores' & E & L & T);
          rewrite ?length_insert; try lia.
        rewrite drop_insert_lt in E, T by lia.
        unfold enabled_of, disabled_of in E, T.
        rewrite E. exists cores'. cbn [length].
        rewrite ?length_insert in L.
        rewrite Nat.add_succ_r. change (S (j + ?k))%nat with (S j + k)%nat.
        split; [reflexivity |]. split; [exact L |].
        rewrite T.
        rewrite (take_S_r (<[j := x]> cores) j x)
          by (apply list_lookup_insert_eq; lia).
        rewrite take_insert_ge by lia.
        now rewrite <- app_assoc.
Qed.

Lemma enabled_of_sorted en l : StronglySorted Z.lt l -> StronglySorted Z.lt (enabled_of en l).
Proof.
  induction 1 as [| a l Hl IH Ha]; cbn [enabled_of List.filter]; [constructor |].
  fold (enabled_of en l). destruct (negb (en a =? 0)); [| exact IH].
  constructor; [exact IH |].
  rewrite Forall_forall in *. intros y Hy. apply Ha.
  unfold enabled_of in Hy. apply list_elem_of_In, filter_In in Hy as [Hy _].
  now apply list_elem_of_In.
Qed.

(** X23: of the cores asked for, [main] keeps exactly those that
    [rte_lcore_is_enabled] reports, in the order they had, moved to the
    front of the array, and sets [num_cores] to their number; it warns
    about each of the others, and it gives up when none is left.  A
    strictly ascending list stays strictly ascending. *)
Theorem main_keeps_enabled_cores_in_order
    (main_lcore : Z) (enabled : Z -> Z) (conf : Cmdline.cmdline_config) :
  0 < Cmdline.num_cores conf <= Z.of_nat (length (Cmdline.cores conf)) ->
  Z.of_nat (length (Cmdline.cores conf)) < 2 ^ 32 ->
  let requested := take (Z.to_nat (Cmdline.num_cores conf)) (Cmdline.cores conf) in
  match main_select_cores main_lcore enabled conf with
  | (Some conf', ws) =>
      enabled_of enabled requested <> []
      /\ Cmdline.num_cores conf' = Z.of_nat (length (enabled_of enabled requested))
      /\ take (Z.to_nat (Cmdline.num_cores conf')) (Cmdline.cores conf')
         = enabled_of enabled requested
      /\ length (Cmdline.cores conf') = length (Cmdline.cores conf)
      /\ ws = map Core_not_enabled (disabled_of enabled requested)
      /\ (StronglySorted Z.lt requested ->
          StronglySorted Z.lt
            (take (Z.to_nat (Cmdline.num_cores conf')) (Cmdline.cores conf')))
  | (None, ws) =>
      enabled_of enabled requested = []
      /\ ws = map Core_not_enabled requested ++ [No_core_available]
  end.
Proof.
  intros Hn Hlen. cbv zeta. unfold main_select_cores.
  replace (Cmdline.num_cores conf =? 0) with false by (symmetry; apply Z.eqb_neq; lia).
  set (m := Z.to_nat (Cmdline.num_cores conf)).
  destruct (main_valid_cores_for_spec enabled m m 0 0 (Cmdline.cores conf))
    as (cores' & E & L & T); try lia.
  rewrite Nat.sub_0_r, drop_0 in E, T. cbn [take app Nat.add] in E, T.
  change (Z.of_nat 0) with 0 in E.
  replace (Z.of_nat m) with (Cmdline.num_cores conf) in E by lia.
  rewrite E.
  destruct (enabled_of enabled (take m (Cmdline.cores conf))) as [| c cs] eqn:Een.
  - cbn [length]. change (Z.of_nat 0 =? 0) with true. cbv iota.
    split; [reflexivity |]. f_equal. f_equal.
    (* none enabled: every requested core is warned about *)
    clear -Een. induction (take m (Cmdline.cores conf)) as [| a l IH];
      cbn [disabled_of enabled_of List.filter] in *; [reflexivity |].
    destruct (enabled a =? 0); cbn [negb] in *; [| discriminate].
    f_equal. now apply IH.
  - replace (Z.of_nat (length (c :: cs)) =? 0) with false
      by (symmetry; apply Z.eqb_neq; cbn [length]; lia).
    cbn [Cmdline.set_cores Cmdline.num_cores Cmdline.cores].
    rewrite Nat2Z.id. repeat split; try assumption; try discriminate.
    intros Hs. rewrite T, <- Een. now apply enabled_of_sorted.
Qed.

Lemma main_keeps_enabled_cores_in_order_witness :
  match main_select_cores 0 (fun c => if c =? 5 then 0 else 1) sample_config with
  | (Some conf', ws) =>
      Cmdline.num_cores conf' = 2 /\ ws = [Core_not_enabled 5]
  | (None, _) => False
  end.
Proof.
  pose proof (main_keeps_enabled_cores_in_order 0 (fun c => if c =? 5 then 0 else 1)
                sample_config) as H.
  cbv zeta in H.
  destruct (main_select_cores 0 (fun c => if c =? 5 then 0 else 1) sample_config)
    as [[conf' |] ws].
  - destruct H as (_ & Hn & _ & _ & Hws & _).
    + vm_compute. split; [reflexivity | discriminate].
    + vm_compute. reflexivity.
    + split; [exact Hn | exact Hws].
  - destruct H as (Hnone & _).
    + vm_compute. split; [reflexivity | discriminate].
    + vm_compute. reflexivity.
    + vm_compute in Hnone. discriminate.
Defined.

(** *** Ports *)

(** What a successful [port_params_init] has done. *)
Lemma port_params_init_success valid info mac configure adjust port p_id p_role n_cores
    port' errs :
  port_params_init valid info mac configure adjust port p_id p_role n_cores
  = (0, port', errs) ->
  id port = PORTID_MAX /\ role port = PORT_UNUSED
  /\ id port' = p_id /\ role port' = p_role /\ errs = []
  /\ valid p_id <> 0 /\ 0 <= configure p_id (u16 n_cores) (u16 n_cores).
Proof.
  unfold port_params_init.
  destruct (Z.eqb_spec (id port) PORTID_MAX) as [Hid | Hid]; [| discriminate].
  destruct (role port) eqn:Hrole; cbn [port_role_eqb negb orb]; try discriminate.
  cbn [id role n_rx_queue_desc n_tx_queue_desc].
  destruct (Z.eqb_spec (valid p_id) 0) as [Hv | Hv]; [discriminate |].
  destruct (negb (info p_id =? 0)); [discriminate |].
  destruct (negb (mac p_id =? 0)); [discriminate |].
  destruct (Z.ltb_spec (configure p_id (u16 n_cores) (u16 n_cores)) 0) as [Hc | Hc];
    [discriminate |].
  destruct (adjust p_id NUM_RX_QUEUE_DESC NUM_TX_QUEUE_DESC) as [[r rx] tx].
  destruct (r <? 0); [discriminate |].
  intros E. injection E as <- <-. cbn [id role].
  repeat split; try assumption; try reflexivity; lia.
Qed.

(** X29: with two devices [a] and [b], in the order DPDK lists them,
    [main] makes the port named on the command line the ingress port and
    the other one the egress port; when no port is named the first device
    is the ingress port and the second the egress port.  Both ports then
    carry their role, and nothing was written to stderr. *)
Theorem main_assigns_port_roles
    (valid info mac : Z -> Z) (configure : Z -> Z -> Z -> Z)
    (adjust : Z -> Z -> Z -> Z * Z * Z)
    (a b mpls_in_port n_cores : Z) (p_in p_out : port_params) (errs : list error_line) :
  a <> b -> a <> PORTID_MAX -> b <> PORTID_MAX ->
  mpls_in_port = PORTID_MAX \/ mpls_in_port = a \/ mpls_in_port = b ->
  main_assign_ports valid info mac configure adjust [a; b] mpls_in_port n_cores
    (unused_port, unused_port)
  = (Some (p_in, p_out), errs) ->
  id p_in = (if mpls_in_port =? PORTID_MAX then a else mpls_in_port)
  /\ id p_out = (if mpls_in_port =? b then a else b)
  /\ role p_in = PORT_INGRESS /\ role p_out = PORT_EGRESS
  /\ errs = [].
Proof.
  intros Hab Ha Hb Hin E. unfold main_assign_ports in E.
  destruct (Z.eqb_spec mpls_in_port PORTID_MAX) as [Hnone | Hgiven]; cbn [negb] in E.
  - (* no port named: the first device is the ingress, the second the egress *)
    rewrite Hnone.
    replace (PORTID_MAX =? b) with false by (symmetry; apply Z.eqb_neq; congruence).
    cbn [main_foreach_dev fst snd] in E.
    change (id unused_port) with PORTID_MAX in E.
    replace (PORTID_MAX =? a) with false in E by (symmetry; apply Z.eqb_neq; congruence).
    rewrite ?Z.eqb_refl in E.
    destruct (port_params_init valid info mac configure adjust unused_port a PORT_INGRESS n_cores)
      as [[r1 q1] e1] eqn:E1.
    destruct (Z.eqb_spec r1 0) as [-> | ?]; [| discriminate].
    apply port_params_init_success in E1 as (_ & _ & Hid1 & Hr1 & -> & _).
    cbn [negb fst snd] in E. rewrite Hid1 in E.
    change (id unused_port) with PORTID_MAX in E.
    replace (a =? b) with false in E by (symmetry; now apply Z.eqb_neq).
    replace (a =? PORTID_MAX) with false in E by (symmetry; now apply Z.eqb_neq).
    rewrite ?Z.eqb_refl in E.
    destruct (port_params_init valid info mac configure adjust unused_port b PORT_EGRESS n_cores)
      as [[r2 q2] e2] eqn:E2.
    destruct (Z.eqb_spec r2 0) as [-> | ?]; [| discriminate].
    apply port_params_init_success in E2 as (_ & _ & Hid2 & Hr2 & -> & _).
    cbn [negb] in E. injection E as <- <- <-. auto.
  - destruct Hin as [Hin | Hin]; [contradiction |].
    cbn [fst snd] in E.
    destruct (port_params_init valid info mac configure adjust unused_port mpls_in_port
                PORT_INGRESS n_cores) as [[r1 q1] e1] eqn:E1.
    destruct (Z.eqb_spec r1 0) as [-> | ?]; [| discriminate].
    apply port_params_init_success in E1 as (_ & _ & Hid1 & Hr1 & -> & _).
    cbn [negb main_foreach_dev fst snd] in E. rewrite Hid1 in E.
    change (id unused_port) with PORTID_MAX in E.
    replace (mpls_in_port =? PORTID_MAX) with false in E by (symmetry; now apply Z.eqb_neq).
    destruct Hin as [-> | ->].
    + (* the first device is named: the second is the egress *)
      rewrite ?Z.eqb_refl in E.
      replace (a =? b) with false in * by (symmetry; now apply Z.eqb_neq).
      rewrite ?Z.eqb_refl in E.
      destruct (port_params_init valid info mac configure adjust unused_port b PORT_EGRESS
                  n_cores) as [[r2 q2] e2] eqn:E2.
      destruct (Z.eqb_spec r2 0) as [-> | ?]; [| discriminate].
      apply port_params_init_success in E2 as (_ & _ & Hid2 & Hr2 & -> & _).
      cbn [negb] in E. injection E as <- <- <-. auto.
    + (* the second device is named: the first is the egress *)
      replace (b =? a) with false in E by (symmetry; apply Z.eqb_neq; congruence).
      rewrite ?Z.eqb_refl in *.
      destruct (port_params_init valid info mac configure adjust unused_port a PORT_EGRESS
                  n_cores) as [[r2 q2] e2] eqn:E2.
      destruct (Z.eqb_spec r2 0) as [-> | ?]; [| discriminate].
      apply port_params_init_success in E2 as (_ & _ & Hid2 & Hr2 & -> & _).
      cbn [negb fst snd] in E. rewrite ?Z.eqb_refl in E.
      injection E as <- <- <-. auto.
Qed.

Lemma main_assigns_port_roles_witness :
  exists p_in p_out,
    main_assign_ports (fun _ => 1) (fun _ => 0) (fun _ => 0) (fun _ _ _ => 0)
      (fun _ rx tx => (0, rx, tx)) [0; 1] 1 2 (unused_port, unused_port)
    = (Some (p_in, p_out), [])
    /\ id p_in = 1 /\ id p_out = 0.
Proof.
  destruct (main_assign_ports (fun _ => 1) (fun _ => 0) (fun _ => 0) (fun _ _ _ => 0)
              (fun _ rx tx => (0, rx, tx)) [0; 1] 1 2 (unused_port, unused_port))
    as [[[p_in p_out] |] errs] eqn:E.
  - destruct (main_assigns_port_roles (fun _ => 1) (fun _ => 0) (fun _ => 0)
                (fun _ _ _ => 0) (fun _ rx tx => (0, rx, tx)) 0 1 1 2 p_in p_out errs)
      as (H1 & H2 & _ & _ & He).
    + lia.
    + vm_compute. discriminate.
    + vm_compute. discriminate.
    + right. right. reflexivity.
    + exact E.
    + exists p_in, p_out. subst errs. split; [reflexivity |].
      split; [exact H1 | exact H2].
  - vm_compute in E. discriminate.
Defined.

(** *** Queues *)

Lemma rx_setups_S port socket_id q (j : nat) :
  rx_setups port socket_id q (S j)
  = Rx_queue_setup (id port) (u16 q) (n_rx_queue_desc port) (to_unsigned socket_id)
    :: rx_setups port socket_id (q + 1) j.
Proof.
  unfold rx_setups. rewrite seqZ_cons by lia. cbn [map]. do 3 f_equal; lia.
Qed.

Lemma tx_setups_S port socket_id q (j : nat) :
  tx_setups port socket_id q (S j)
  = Tx_queue_setup (id port) (u16 q) (n_tx_queue_desc port) (to_unsigned socket_id)
    :: tx_setups port socket_id (q + 1) j.
Proof.
  unfold tx_setups. rewrite seqZ_cons by lia. cbn [map]. do 3 f_equal; lia.
Qed.

(** The loop over the receive queues: every call before the one that
    stops it has succeeded. *)
Lemma rx_queues_for_calls result port socket_id n_cores :
  let call i := Rx_queue_setup (id port) (u16 i) (n_rx_queue_desc port)
                  (to_unsigned socket_id) in
  forall (k : nat) q made r made' errs,
    0 <= q -> q + Z.of_nat k = n_cores -> n_cores < 2 ^ 32 ->
    rx_queues_for result k port socket_id q n_cores made = (r, made', errs) ->
    (r = 0 /\ made' = made ++ rx_setups port socket_id q k /\ errs = []
     /\ forall i : nat, (i < k)%nat ->
          0 <= result (made ++ rx_setups port socket_id q i) (call (q + Z.of_nat i)))
    \/ (r = -1 /\ exists j : nat,
          (j < k)%nat
          /\ (forall i : nat, (i < j)%nat ->
                0 <= result (made ++ rx_setups port socket_id q i) (call (q + Z.of_nat i)))
          /\ result (made ++ rx_setups port socket_id q j) (call (q + Z.of_nat j)) < 0
          /\ made' = made ++ rx_setups port socket_id q (S j)
          /\ errs = [Rx_queue_setup_failure (q + Z.of_nat j)
                       (- result (made ++ rx_setups port socket_id q j)
                            (call (q + Z.of_nat j)))]).
Proof.
  intros call.
  induction k as [| k IH]; intros q made r made' errs Hq Hk Hn E.
  - cbn [rx_queues_for] in E. injection E as <- <- <-. left.
    unfold rx_setups. cbn. rewrite app_nil_r. repeat split. intros i Hi. lia.
  - cbn [rx_queues_for] in E.
    replace (q <? n_cores) with true in E by (symmetry; apply Z.ltb_lt; lia).
    cbv zeta in E. fold (call q) in E.
    assert (H0 : rx_setups port socket_id q 0 = []) by reflexivity.
    destruct (Z.ltb_spec (result made (call q)) 0) as [Hneg | Hpos].
    + injection E as <- <- <-. right. split; [reflexivity |]. exists 0%nat.
      rewrite rx_setups_S, H0, Z.add_0_r, app_nil_r. fold (call q).
      repeat split; [lia | intros i Hi; lia | exact Hneg].
    + rewrite (u32_small (q + 1)) in E by lia.
      apply IH in E; [| lia | lia | lia].
      assert (Hshift : forall i : nat,
                result ((made ++ [call q]) ++ rx_setups port socket_id (q + 1) i)
                  (call (q + 1 + Z.of_nat i))
                = result (made ++ rx_setups port socket_id q (S i))
                    (call (q + Z.of_nat (S i)))).
      { intros i. rewrite rx_setups_S, <- app_assoc. cbn [app]. fold (call q).
        do 2 f_equal. lia. }
      assert (Hprev : forall j : nat,
                (forall i : nat, (i < j)%nat ->
                   0 <= result ((made ++ [call q]) ++ rx_setups port socket_id (q + 1) i)
                          (call (q + 1 + Z.of_nat i))) ->
                forall i : nat, (i < S j)%nat ->
                  0 <= result (made ++ rx_setups port socket_id q i) (call (q + Z.of_nat i))).
      { intros j Hall [| i] Hi.
        - rewrite H0, app_nil_r, Z.add_0_r. exact Hpos.
        - rewrite <- Hshift. apply Hall. lia. }
      destruct E as [(-> & -> & -> & Hall) | (-> & j & Hj & Hall & Hfail & -> & ->)].
      * left. rewrite rx_setups_S, <- app_assoc. fold (call q).
        repeat split. now apply Hprev.
      * right. split; [reflexivity |]. exists (S j). split; [lia |].
        rewrite Hshift in Hfail |- *.
        split; [now apply Hprev |]. split; [exact Hfail |].
        rewrite (rx_setups_S _ _ q (S j)), <- !app_assoc. cbn [app]. fold (call q).
        replace (q + 1 + Z.of_nat j) with (q + Z.of_nat (S j)) by lia. auto.
Qed.

(** The loop over the transmit queues: every call before the one that
    stops it has succeeded. *)
Lemma tx_queues_for_calls result port socket_id n_cores :
  let call i := Tx_queue_setup (id port) (u16 i) (n_tx_queue_desc port)
                  (to_unsigned socket_id) in
  forall (k : nat) q made r made' errs,
    0 <= q -> q + Z.of_nat k = n_cores -> n_cores < 2 ^ 32 ->
    tx_queues_for result k port socket_id q n_cores made = (r, made', errs) ->
    (r = 0 /\ made' = made ++ tx_setups port socket_id q k /\ errs = []
     /\ forall i : nat, (i < k)%nat ->
          0 <= result (made ++ tx_setups port socket_id q i) (call (q + Z.of_nat i)))
    \/ (r = -1 /\ exists j : nat,
          (j < k)%nat
          /\ (forall i : nat, (i < j)%nat ->
                0 <= result (made ++ tx_setups port socket_id q i) (call (q + Z.of_nat i)))
          /\ result (made ++ tx_setups port socket_id q j) (call (q + Z.of_nat j)) < 0
          /\ made' = made ++ tx_setups port socket_id q (S j)
          /\ errs = [Tx_queue_setup_failure (q + Z.of_nat j)
                       (- result (made ++ tx_setups port socket_id q j)
                            (call (q + Z.of_nat j)))]).
Proof.
  intros call.
  induction k as [| k IH]; intros q made r made' errs Hq Hk Hn E.
  - cbn [tx_queues_for] in E. injection E as <- <- <-. left.
    unfold tx_setups. cbn. rewrite app_nil_r. repeat split. intros i Hi. lia.
  - cbn [tx_queues_for] in E.
    replace (q <? n_cores) with true in E by (symmetry; apply Z.ltb_lt; lia).
    cbv zeta in E. fold (call q) in E.
    assert (H0 : tx_setups port socket_id q 0 = []) by reflexivity.
    destruct (Z.ltb_spec (result made (call q)) 0) as [Hneg | Hpos].
    + injection E as <- <- <-. right. split; [reflexivity |]. exists 0%nat.
      rewrite tx_setups_S, H0, Z.add_0_r, app_nil_r. fold (call q).
      repeat split; [lia | intros i Hi; lia | exact Hneg].
    + rewrite (u32_small (q + 1)) in E by lia.
      apply IH in E; [| lia | lia | lia].
      assert (Hshift : forall i : nat,
                result ((made ++ [call q]) ++ tx_setups port socket_id (q + 1) i)
                  (call (q + 1 + Z.of_nat i))
                = result (made ++ tx_setups port socket_id q (S i))
                    (call (q + Z.of_nat (S i)))).
      { intros i. rewrite tx_setups_S, <- app_assoc. cbn [app]. fold (call q).
        do 2 f_equal. lia. }
      assert (Hprev : forall j : nat,
                (forall i : nat, (i < j)%nat ->
                   0 <= result ((made ++ [call q]) ++ tx_setups port socket_id (q + 1) i)
                          (call (q + 1 + Z.of_nat i))) ->
                forall i : nat, (i < S j)%nat ->
                  0 <= result (made ++ tx_setups port socket_id q i) (call (q + Z.of_nat i))).
      { intros j Hall [| i] Hi.
        - rewrite H0, app_nil_r, Z.add_0_r. exact Hpos.
        - rewrite <- Hshift. apply Hall. lia. }
      destruct E as [(-> & -> & -> & Hall) | (-> & j & Hj & Hall & Hfail & -> & ->)].
      * left. rewrite tx_setups_S, <- app_assoc. fold (call q).
        repeat split. now apply Hprev.
      * right. split; [reflexivity |]. exists (S j). split; [lia |].
        rewrite Hshift in Hfail |- *.
        split; [now apply Hprev |]. split; [exact Hfail |].
        rewrite (tx_setups_S _ _ q (S j)), <- !app_assoc. cbn [app]. fold (call q).
        replace (q + 1 + Z.of_nat j) with (q + Z.of_nat (S j)) by lia. auto.
Qed.


Lemma take_seqZ_le (j k : nat) q :
  (j <= k)%nat -> take j (seqZ q (Z.of_nat k)) = seqZ q (Z.of_nat j).
Proof.
  revert k q. induction j as [| j IH]; intros k q Hjk.
  - now rewrite take_0, seqZ_nil by lia.
  - destruct k as [| k]; [lia |].
    rewrite (seqZ_cons q (Z.of_nat (S k))), (seqZ_cons q (Z.of_nat (S j))) by lia.
    cbn [take]. f_equal.
    replace (Z.pred (Z.of_nat (S k))) with (Z.of_nat k) by lia.
    replace (Z.pred (Z.of_nat (S j))) with (Z.of_nat j) by lia.
    apply IH. lia.
Qed.

Lemma length_rx_setups port socket_id q (k : nat) : length (rx_setups port socket_id q k) = k.
Proof. unfold rx_setups. rewrite length_map, length_seqZ. lia. Qed.

Lemma length_tx_setups port socket_id q (k : nat) : length (tx_setups port socket_id q k) = k.
Proof. unfold tx_setups. rewrite length_map, length_seqZ. lia. Qed.

Lemma take_rx_setups port socket_id q (j k : nat) :
  (j <= k)%nat -> take j (rx_setups port socket_id q k) = rx_setups port socket_id q j.
Proof. intros H. unfold rx_setups. now rewrite firstn_map, take_seqZ_le. Qed.

Lemma take_tx_setups port socket_id q (j k : nat) :
  (j <= k)%nat -> take j (tx_setups port socket_id q k) = tx_setups port socket_id q j.
Proof. intros H. unfold tx_setups. now rewrite firstn_map, take_seqZ_le. Qed.

Lemma lookup_rx_setups port socket_id (j k : nat) :
  (j < k)%nat ->
  rx_setups port socket_id 0 k !! j
  = Some (Rx_queue_setup (id port) (u16 (Z.of_nat j)) (n_rx_queue_desc port)
            (to_unsigned socket_id)).
Proof.
  intros H. unfold rx_setups. rewrite list_lookup_fmap, lookup_seqZ_lt by lia.
  reflexivity.
Qed.

Lemma lookup_tx_setups port socket_id (j k : nat) :
  (j < k)%nat ->
  tx_setups port socket_id 0 k !! j
  = Some (Tx_queue_setup (id port) (u16 (Z.of_nat j)) (n_tx_queue_desc port)
            (to_unsigned socket_id)).
Proof.
  intros H. unfold tx_setups. rewrite list_lookup_fmap, lookup_seqZ_lt by lia.
  reflexivity.
Qed.

(** X24: [port_queue_allocate] sets up the receive queues 0, 1, ... of the
    port in ascending order and then its transmit queues in the same
    order, one of each per core, with the descriptor counts of the port,
    and stops at the first call that fails.  It returns 0, with nothing on
    stderr, exactly when it has made every call and none has returned a
    negative value; it returns -1 when a call has returned a negative
    value: every call before that one has succeeded, no call is made after
    it, and the one line on stderr names its queue and its error.  When
    the socket of the port cannot be found it returns -1 without a
    call. *)
Theorem port_queue_allocate_sets_up_queues_in_order
    (socket_of : Z -> Z * Z) (result : list queue_setup -> queue_setup -> Z)
    (port : port_params) (n_cores : Z) (made : list queue_setup)
    (r : Z) (made' : list queue_setup) (errs : list error_line) :
  0 <= n_cores < 2 ^ 32 ->
  port_queue_allocate socket_of result (Some port) false n_cores made = (r, made', errs) ->
  let socket_id := fst (socket_of (id port)) in
  let n := Z.to_nat n_cores in
  let wanted := rx_setups port socket_id 0 n ++ tx_setups port socket_id 0 n in
  let answer (j : nat) (call : queue_setup) := result (made ++ take j wanted) call in
  (socket_id < 0 /\ snd (socket_of (id port)) = EINVAL
   /\ r = -1 /\ made' = made /\ errs = [Socket_id_failure])
  \/ (~ (socket_id < 0 /\ snd (socket_of (id port)) = EINVAL)
      /\ ((r = 0 /\ made' = made ++ wanted /\ errs = []
           /\ forall j call, wanted !! j = Some call -> 0 <= answer j call)
          \/ (r = -1
              /\ exists j call,
                   wanted !! j = Some call
                   /\ (forall i c, (i < j)%nat -> wanted !! i = Some c -> 0 <= answer i c)
                   /\ answer j call < 0
                   /\ made' = made ++ take (S j) wanted
                   /\ errs = [if (j <? n)%nat
                              then Rx_queue_setup_failure (Z.of_nat j) (- answer j call)
                              else Tx_queue_setup_failure (Z.of_nat (j - n))
                                     (- answer j call)]))).
Proof.
  intros Hn E. cbv zeta.
  unfold port_queue_allocate, QUEUE_INITIAL_IDX in E.
  destruct (socket_of (id port)) as [socket_id rte_errno]. cbn [fst snd].
  destruct ((socket_id <? 0) && (rte_errno =? EINVAL)) eqn:Hsock.
  { injection E as <- <- <-. left. apply andb_true_iff in Hsock as [H1 H2].
    apply Z.ltb_lt in H1. apply Z.eqb_eq in H2. auto. }
  right. split.
  { intros [H1 H2]. apply Z.ltb_lt in H1. apply Z.eqb_eq in H2.
    rewrite H1, H2 in Hsock. discriminate. }
  clear Hsock.
  remember (Z.to_nat n_cores) as n eqn:En.
  set (R := rx_setups port socket_id 0 n). set (T := tx_setups port socket_id 0 n).
  assert (LR : length R = n) by apply length_rx_setups.
  assert (LT : length T = n) by apply length_tx_setups.
  assert (Hrx : forall i : nat, (i <= n)%nat -> take i (R ++ T) = rx_setups port socket_id 0 i).
  { intros i Hi. rewrite take_app_le by lia. now apply take_rx_setups. }
  assert (Htx : forall i : nat, (i <= n)%nat ->
                  take (n + i) (R ++ T) = R ++ tx_setups port socket_id 0 i).
  { intros i Hi. rewrite <- LR at 1. rewrite take_app_add. f_equal.
    now apply take_tx_setups. }
  assert (Hlr : forall i c, (i < n)%nat -> (R ++ T) !! i = Some c ->
                  c = Rx_queue_setup (id port) (u16 (0 + Z.of_nat i))
                        (n_rx_queue_desc port) (to_unsigned socket_id)).
  { intros i c Hi Hc. rewrite lookup_app_l in Hc by lia.
    unfold R in Hc. rewrite lookup_rx_setups in Hc by lia. now injection Hc as <-. }
  assert (Hlt : forall i c, (n <= i)%nat -> (R ++ T) !! i = Some c ->
                  (i - n < n)%nat
                  /\ c = Tx_queue_setup (id port) (u16 (0 + Z.of_nat (i - n)))
                           (n_tx_queue_desc port) (to_unsigned socket_id)).
  { intros i c Hi Hc. rewrite lookup_app_r in Hc by lia. rewrite LR in Hc.
    pose proof (lookup_lt_Some _ _ _ Hc) as Hlt. rewrite LT in Hlt.
    split; [exact Hlt |].
    unfold T in Hc. rewrite lookup_tx_setups in Hc by lia. now injection Hc as <-. }
  destruct (rx_queues_for result n port socket_id 0 n_cores made)
    as [[r1 made1] errs1] eqn:Erx.
  apply rx_queues_for_calls in Erx; [| lia | lia | lia].
  destruct Erx as [(-> & -> & -> & Hall1) | (-> & j & Hj & Hall1 & Hfail1 & -> & ->)].
  - fold R in E. apply tx_queues_for_calls in E; [| lia | lia | lia].
    assert (Hbefore : forall bound : nat,
              (forall k : nat, (k < bound)%nat ->
                 0 <= result ((made ++ R) ++ tx_setups port socket_id 0 k)
                        (Tx_queue_setup (id port) (u16 (0 + Z.of_nat k))
                           (n_tx_queue_desc port) (to_unsigned socket_id))) ->
              forall i c, (i < n + bound)%nat -> (R ++ T) !! i = Some c ->
                0 <= result (made ++ take i (R ++ T)) c).
    { intros bound Hall i c Hi Hc.
      destruct (Nat.lt_ge_cases i n) as [Hi' | Hi'].
      - rewrite (Hlr i c Hi' Hc), Hrx by lia. apply Hall1. lia.
      - destruct (Hlt i c Hi' Hc) as [Hi'' ->].
        replace i with (n + (i - n))%nat at 1 by lia.
        rewrite Htx, app_assoc by lia. apply Hall. lia. }
    destruct E as [(-> & -> & -> & Hall2) | (-> & j & Hj & Hall2 & Hfail2 & -> & ->)].
    + left. split; [reflexivity |]. split; [now rewrite <- app_assoc |].
      split; [reflexivity |]. intros i c Hc.
      pose proof (lookup_lt_Some _ _ _ Hc) as Hi. rewrite length_app, LR, LT in Hi.
      now apply (Hbefore n Hall2).
    + right. split; [reflexivity |].
      exists (n + j)%nat,
        (Tx_queue_setup (id port) (u16 (0 + Z.of_nat j)) (n_tx_queue_desc port)
           (to_unsigned socket_id)).
      split.
      { rewrite lookup_app_r, LR by lia. replace (n + j - n)%nat with j by lia.
        rewrite Z.add_0_l. now apply lookup_tx_setups. }
      split.
      { intros i c Hi Hc. now apply (Hbefore j Hall2). }
      rewrite Htx, app_assoc by lia. split; [exact Hfail2 |].
      split.
      { replace (S (n + j)) with (n + S j)%nat by lia.
        rewrite Htx, !app_assoc by lia. reflexivity. }
      replace (n + j <? n)%nat with false by (symmetry; apply Nat.ltb_ge; lia).
      replace (n + j - n)%nat with j by lia. now rewrite Z.add_0_l.
  - injection E as <- <- <-. right. split; [reflexivity |].
    exists j, (Rx_queue_setup (id port) (u16 (0 + Z.of_nat j)) (n_rx_queue_desc port)
                 (to_unsigned socket_id)).
    split.
    { rewrite lookup_app_l by lia. rewrite Z.add_0_l. now apply lookup_rx_setups. }
    split.
    { intros i c Hi Hc. rewrite (Hlr i c ltac:(lia) Hc), Hrx by lia. apply Hall1. lia. }
    rewrite Hrx by lia. split; [exact Hfail1 |].
    split; [rewrite Hrx by lia; reflexivity |].
    replace (j <? n)%nat with true by (symmetry; apply Nat.ltb_lt; lia).
    now rewrite Z.add_0_l.
Qed.

Lemma port_queue_allocate_sets_up_queues_in_order_witness :
  port_queue_allocate sample_socket_of failing_setup_result (Some sample_port_in) false 2 []
  = (-1,
     rx_setups sample_port_in 0 0 2 ++ take 2 (tx_setups sample_port_in 0 0 2),
     [Tx_queue_setup_failure 1 5])
  /\ exists j call,
       (rx_setups sample_port_in 0 0 2 ++ tx_setups sample_port_in 0 0 2) !! j = Some call
       /\ failing_setup_result
            (take j (rx_setups sample_port_in 0 0 2 ++ tx_setups sample_port_in 0 0 2)) call
          < 0.
Proof.
  split; [vm_compute; reflexivity |].
  destruct (port_queue_allocate_sets_up_queues_in_order sample_socket_of
              failing_setup_result sample_port_in 2 [] (-1)
              (rx_setups sample_port_in 0 0 2 ++ take 2 (tx_setups sample_port_in 0 0 2))
              [Tx_queue_setup_failure 1 5])
    as [(H & _) | (_ & [(H & _) | (_ & j & call & Hc & _ & Hf & _)])].
  - lia.
  - vm_compute. reflexivity.
  - vm_compute in H. discriminate.
  - discriminate.
  - exists j, call. split; [exact Hc | exact Hf].
Defined.

(** A successful [port_queue_allocate] has made every setup call. *)
Lemma port_queue_allocate_success socket_of result port n_cores made made' errs :
  0 <= n_cores < 2 ^ 32 ->
  port_queue_allocate socket_of result (Some port) false n_cores made = (0, made', errs) ->
  made' = made
          ++ rx_setups port (fst (socket_of (id port))) 0 (Z.to_nat n_cores)
          ++ tx_setups port (fst (socket_of (id port))) 0 (Z.to_nat n_cores).
Proof.
  intros Hn E. unfold port_queue_allocate, QUEUE_INITIAL_IDX in E.
  destruct (socket_of (id port)) as [socket_id rte_errno]. cbn [fst].
  destruct ((socket_id <? 0) && (rte_errno =? EINVAL)); [discriminate |].
  destruct (rx_queues_for result (Z.to_nat n_cores) port socket_id 0 n_cores made)
    as [[r1 made1] errs1] eqn:Erx.
  apply rx_queues_for_calls in Erx; [| lia | lia | lia].
  destruct Erx as [(-> & -> & -> & _) | (-> & j & Hj & _ & _ & -> & ->)]; [| discriminate].
  apply tx_queues_for_calls in E; [| lia | lia | lia].
  destruct E as [(_ & -> & _) | (Hr & _)]; [| discriminate].
  now rewrite <- app_assoc.
Qed.

Lemma elem_of_rx_setups port socket_id (k : nat) (q : nat) :
  (q < k)%nat ->
  Rx_queue_setup (id port) (u16 (Z.of_nat q)) (n_rx_queue_desc port) (to_unsigned socket_id)
  ∈ rx_setups port socket_id 0 k.
Proof.
  intros Hq. unfold rx_setups. apply list_elem_of_In, in_map_iff.
  exists (Z.of_nat q). split; [reflexivity |].
  apply list_elem_of_In, elem_of_seqZ. lia.
Qed.

Lemma elem_of_tx_setups port socket_id (k : nat) (q : nat) :
  (q < k)%nat ->
  Tx_queue_setup (id port) (u16 (Z.of_nat q)) (n_tx_queue_desc port) (to_unsigned socket_id)
  ∈ tx_setups port socket_id 0 k.
Proof.
  intros Hq. unfold tx_setups. apply list_elem_of_In, in_map_iff.
  exists (Z.of_nat q). split; [reflexivity |].
  apply list_elem_of_In, elem_of_seqZ. lia.
Qed.

(** X25: the queues the streams use are queues that were set up: when
    [port_queue_allocate] has succeeded for the ingress port and then for
    the egress port, as in [main], every stream that [fwd_stream_conf]
    configures receives and transmits on queues of the two ports for which
    the setup call was made. *)
Theorem every_stream_queue_is_set_up
    (socket_of : Z -> Z * Z) (result : list queue_setup -> queue_setup -> Z)
    (conf : Cmdline.cmdline_config) (p_in p_out : port_params) (strm : list fwd_stream)
    (n_cores : Z) (made0 made1 made2 : list queue_setup) (e1 e2 : list error_line) :
  0 < n_cores <= Z.of_nat (length strm) ->
  n_cores < 2 ^ 32 ->
  port_queue_allocate socket_of result (Some p_in) false n_cores made0 = (0, made1, e1) ->
  port_queue_allocate socket_of result (Some p_out) false n_cores made1 = (0, made2, e2) ->
  exists strm',
    fwd_stream_conf conf (Some p_in) (Some p_out) (Some strm) n_cores = (0, Some strm', [])
    /\ forall (s : nat) x,
         Z.of_nat s < n_cores -> strm' !! s = Some x ->
         let socket_in := to_unsigned (fst (socket_of (id p_in))) in
         let socket_out := to_unsigned (fst (socket_of (id p_out))) in
         Rx_queue_setup (FwdEngine.id (input_port x)) (rx_queue_id (input_port x))
           (n_rx_queue_desc p_in) socket_in ∈ made2
         /\ Tx_queue_setup (FwdEngine.id (output_port x)) (tx_queue_id (output_port x))
              (n_tx_queue_desc p_out) socket_out ∈ made2
         /\ Rx_queue_setup (FwdEngine.id (output_port x)) (rx_queue_id (output_port x))
              (n_rx_queue_desc p_out) socket_out ∈ made2
         /\ Tx_queue_setup (FwdEngine.id (input_port x)) (tx_queue_id (input_port x))
              (n_tx_queue_desc p_in) socket_in ∈ made2.
Proof.
  intros Hn Hmax E1 E2.
  apply port_queue_allocate_success in E1; [| lia].
  apply port_queue_allocate_success in E2; [| lia].
  unfold fwd_stream_conf.
  replace (n_cores =? 0) with false by (symmetry; apply Z.eqb_neq; lia).
  eexists. split; [reflexivity |].
  intros s x Hs Hx. cbv zeta.
  unfold QUEUE_INITIAL_IDX in Hx. change 0 with (u16 0) in Hx at 2.
  rewrite fwd_stream_conf_for_lookup in Hx by lia.
  replace (0 <=? Z.of_nat s) with true in Hx by (symmetry; apply Z.leb_le; lia).
  replace (Z.of_nat s <? n_cores) with true in Hx by (symmetry; apply Z.ltb_lt; lia).
  cbn [andb] in Hx.
  destruct (strm !! s) as [x0 |]; [| discriminate].
  cbn in Hx. injection Hx as <-.
  cbn [fwd_stream_conf_body input_port output_port FwdEngine.id rx_queue_id tx_queue_id].
  subst made2 made1. rewrite !elem_of_app.
  repeat split.
  - left. right. left. apply elem_of_rx_setups. lia.
  - right. right. apply elem_of_tx_setups. lia.
  - right. left. apply elem_of_rx_setups. lia.
  - left. right. right. apply elem_of_tx_setups. lia.
Qed.

Lemma every_stream_queue_is_set_up_witness :
  exists strm',
    fwd_stream_conf sample_config (Some sample_port_in) (Some sample_port_out)
      (Some [sample_stream; sample_stream]) 2
    = (0, Some strm', []).
Proof.
  destruct (port_queue_allocate sample_socket_of sample_setup_result
              (Some sample_port_in) false 2 []) as [[r1 made1] e1] eqn:E1.
  destruct (port_queue_allocate sample_socket_of sample_setup_result
              (Some sample_port_out) false 2 made1) as [[r2 made2] e2] eqn:E2.
  assert (H1 : r1 = 0) by (vm_compute in E1; now injection E1 as <- _ _).
  assert (H2 : r2 = 0).
  { vm_compute in E1. injection E1 as _ <- _. vm_compute in E2. now injection E2 as <- _ _. }
  subst r1 r2.
  destruct (every_stream_queue_is_set_up sample_socket_of sample_setup_result sample_config
              sample_port_in sample_port_out [sample_stream; sample_stream] 2
              [] made1 made2 e1 e2) as (strm' & E & _).
  - cbn [length]. lia.
  - lia.
  - exact E1.
  - exact E2.
  - exists strm'. exact E.
Defined.

(** *** The buffer pool *)

Lemma total_queue_desc_nonneg g_ports :
  Forall desc_16_bit g_ports -> 0 <= total_queue_desc g_ports.
Proof.
  induction 1 as [| p l [Hr Ht] _ IH]; cbn [total_queue_desc foldr]; [lia |].
  fold (total_queue_desc l). lia.
Qed.

Lemma sum_queue_desc_spec g_ports :
  Forall desc_16_bit g_ports ->
  total_queue_desc g_ports < 2 ^ 32 ->
  sum_queue_desc g_ports = total_queue_desc g_ports.
Proof.
  intros Hall Hsmall. unfold sum_queue_desc.
  assert (G : forall acc, 0 <= acc -> acc + total_queue_desc g_ports < 2 ^ 32 ->
            foldl (fun n_queue_desc p =>
                     u32 (u32 (n_queue_desc + n_rx_queue_desc p) + n_tx_queue_desc p))
              acc g_ports = acc + total_queue_desc g_ports).
  { clear Hsmall. induction Hall as [| p l [Hr Ht] Hl IH]; intros acc Hacc Hs;
      cbn [foldl total_queue_desc foldr] in *; [lia |].
    fold (total_queue_desc l) in *.
    pose proof (total_queue_desc_nonneg l Hl).
    rewrite (u32_small (acc + n_rx_queue_desc p)) by lia.
    rewrite (u32_small (acc + n_rx_queue_desc p + n_tx_queue_desc p)) by lia.
    rewrite IH by lia. lia. }
  rewrite G by lia. lia.
Qed.

(** X26: for a number of cores that [init_mem_pool] accepts, and as long
    as the count does not exceed 32 bits, the pool it asks for holds as
    many buffers as all descriptors of all queues of all ports take, plus
    one burst and one cache per core and port, and never fewer than 8191;
    the cache size is 128 and a buffer holds 2048 bytes behind the
    headroom. *)
Theorem init_mem_pool_covers_queues_and_bursts
    (RTE_MAX_ETHPORTS RTE_MAX_LCORE RTE_PKTMBUF_HEADROOM : Z)
    (g_ports : list port_params) (n_lcores socket : Z) :
  0 < Z.of_nat (length g_ports) < RTE_MAX_ETHPORTS ->
  0 < n_lcores < RTE_MAX_LCORE ->
  Forall desc_16_bit g_ports ->
  n_lcores * ((MAX_PKT_BURST + MEMPOOL_CACHE_SIZE) * Z.of_nat (length g_ports)
              + total_queue_desc g_ports) < 2 ^ 32 ->
  exists req,
    init_mem_pool RTE_MAX_ETHPORTS RTE_MAX_LCORE RTE_PKTMBUF_HEADROOM g_ports n_lcores socket
    = Some req
    /\ n req = Z.max (n_lcores * ((MAX_PKT_BURST + MEMPOOL_CACHE_SIZE) * Z.of_nat (length g_ports)
                                   + total_queue_desc g_ports))
                     MBUF_IN_MEMPOOL
    /\ MBUF_IN_MEMPOOL <= n req
    /\ cache_size req = MEMPOOL_CACHE_SIZE
    /\ data_room_size req = u16 (MBUF_DATA_LEN + RTE_PKTMBUF_HEADROOM).
Proof.
  intros Hp Hl Hall Hsmall. unfold init_mem_pool.
  pose proof (total_queue_desc_nonneg g_ports Hall) as Hq.
  unfold MAX_PKT_BURST, MEMPOOL_CACHE_SIZE in *.
  replace (Z.of_nat (length g_ports) =? 0) with false by (symmetry; apply Z.eqb_neq; lia).
  replace (Z.of_nat (length g_ports) >=? RTE_MAX_ETHPORTS) with false
    by (symmetry; rewrite Z.geb_leb; apply Z.leb_gt; lia).
  replace (n_lcores =? 0) with false by (symmetry; apply Z.eqb_neq; lia).
  replace (n_lcores >=? RTE_MAX_LCORE) with false
    by (symmetry; rewrite Z.geb_leb; apply Z.leb_gt; lia).
  cbn [orb]. cbv zeta.
  set (np := Z.of_nat (length g_ports)) in *.
  set (q := total_queue_desc g_ports) in *.
  assert (Hq1 : q < 2 ^ 32) by nia.
  rewrite sum_queue_desc_spec by assumption. fold q.
  assert (H1 : 0 <= q * n_lcores < 2 ^ 32) by nia.
  assert (H2 : 0 <= (32 + 128) * n_lcores < 2 ^ 32) by nia.
  assert (H3 : 0 <= (32 + 128) * n_lcores * np < 2 ^ 32) by nia.
  rewrite (u32_small (q * n_lcores)) by exact H1.
  rewrite (u32_small ((32 + 128) * n_lcores)) by exact H2.
  rewrite (u32_small ((32 + 128) * n_lcores * np)) by exact H3.
  rewrite u32_small by nia.
  eexists. split; [reflexivity |]. cbn [n cache_size data_room_size].
  split; [f_equal; lia |]. split; [lia |]. split; reflexivity.
Qed.

Lemma init_mem_pool_covers_queues_and_bursts_witness :
  exists req,
    init_mem_pool 32 128 128 [sample_port_in; sample_port_out] 4 0 = Some req
    /\ n req = 17664.
Proof.
  destruct (init_mem_pool_covers_queues_and_bursts 32 128 128
              [sample_port_in; sample_port_out] 4 0) as (req & E & Hn & _).
  - cbn [length]. lia.
  - lia.
  - repeat constructor; vm_compute; discriminate.
  - vm_compute. reflexivity.
  - exists req. split; [exact E |]. rewrite Hn. vm_compute. reflexivity.
Defined.

(** *** Signals *)

Lemma lets_quit_after_clear signals t :
  (forall i, (i < t)%nat -> is_stop_signal (signals i) = false) ->
  lets_quit_after signals t = QUIT_FALSE.
Proof.
  induction t as [| t IH]; intros H; cbn [lets_quit_after]; [reflexivity |].
  pose proof (H t ltac:(lia)) as Ht. rewrite IH by (intros i Hi; apply H; lia).
  destruct (signals t) as [signum |]; [| reflexivity].
  unfold signal_handler. cbn [is_stop_signal] in Ht. now rewrite Ht.
Qed.

Lemma lets_quit_after_set signals T t :
  is_stop_signal (signals T) = true -> (T < t)%nat ->
  lets_quit_after signals t = QUIT_TRUE.
Proof.
  intros HT. induction t as [| t IH]; intros Hlt; [lia |].
  cbn [lets_quit_after].
  destruct (Nat.eq_dec T t) as [<- | Hne].
  - destruct (signals T) as [signum |]; [| discriminate].
    unfold signal_handler. cbn [is_stop_signal] in HT. now rewrite HT.
  - rewrite IH by lia.
    destruct (signals t) as [signum |]; [| reflexivity].
    unfold signal_handler. now destruct (_ || _).
Qed.

(** X27: [SIGINT] and [SIGTERM] are the signals that stop a worker: when
    the flag is written by [signal_handler] alone and the first of the two
    arrives at instant [T], whatever other signals came before, the flag
    reads [QUIT_FALSE] up to [T] and the worker loop returns within
    [T + 2] iterations, having begun at most one phase after the flag was
    set. *)
Theorem stop_signal_ends_worker
    (bo : byte_order) (w : world) (s : fwd_stream) (signals : nat -> option Z) (T : nat) :
  (forall t, lets_quit_at w t = lets_quit_after signals t) ->
  (forall i, (i < T)%nat -> is_stop_signal (signals i) = false) ->
  is_stop_signal (signals T) = true ->
  (forall t, (t <= T)%nat -> lets_quit_at w t = QUIT_FALSE)
  /\ exists tr0,
       fwd_worker_loop bo w s (S (S T)) = Some (tr0 ++ [Read_lets_quit QUIT_TRUE])
       /\ (forall v, In (Read_lets_quit v) tr0 -> v = QUIT_FALSE)
       /\ (phases_begun_since (S T) 0 (tr0 ++ [Read_lets_quit QUIT_TRUE]) <= 1)%nat.
Proof.
  intros Hw Hbefore HT.
  assert (Hflag : forall t, lets_quit_at w t = lets_quit_stopped_at (S T) t).
  { intros t. rewrite Hw. destruct (Nat.lt_ge_cases t (S T)) as [Hlt | Hge].
    - rewrite stopped_before by exact Hlt.
      apply lets_quit_after_clear. intros i Hi. apply Hbefore. lia.
    - rewrite stopped_after by exact Hge.
      apply (lets_quit_after_set signals T); [exact HT | lia]. }
  split.
  - intros t Ht. rewrite Hflag. apply stopped_before. lia.
  - destruct (worker_while_stops bo w s (stream_mpls_hdr s) (S T) Hflag (S (S T)) 0%nat)
      as (tr0 & E & Hreads & Hph); try lia.
    exists tr0. split; [exact E |]. split; [exact Hreads |].
    cbn [Nat.leb] in Hph. exact Hph.
Qed.

Lemma stop_signal_ends_worker_witness :
  exists tr0,
    fwd_worker_loop LittleEndian (signalled_world sample_signals) sample_stream 5
    = Some (tr0 ++ [Read_lets_quit QUIT_TRUE]).
Proof.
  destruct (stop_signal_ends_worker LittleEndian (signalled_world sample_signals)
              sample_stream sample_signals 3)
    as (_ & tr0 & E & _).
  - reflexivity.
  - intros i Hi. destruct i as [| [| [| i]]]; try reflexivity. lia.
  - reflexivity.
  - exists tr0. exact E.
Defined.

End Startup.
